(** * Concourse build execution core: step builder, image fetcher, get step
      and check coordinator

    A shallow embedding of four pieces of the Go sources:
    - [builder.stepBuilder] (plan -> step tree),
    - [gardenruntime.Worker.fetchImageForContainer] and its helpers,
    - [exec.GetStep.run],
    - [engine.checkDelegate]: [WaitToRun], [FindOrCreateScope],
      [PointToCheckedConfig] and the cached lookups behind them.

    Calls to collaborators (database, worker, clock, limiter, delegate) are
    recorded in a chronological trace and answered by an explicit world. *)

From Stdlib Require Import ZArith Lia Ascii.
From stdpp Require Import base strings gmap list pretty.

Open Scope Z_scope.

(** ** Go values shared by all packages *)
Module Go.

(** Go [error] values.  [ErrWrap msg e] is [fmt.Errorf(msg + ": %w", e)];
    [ErrVar name] is a package-level sentinel such as
    [ErrUnsupportedResourceType], whose declaration is outside the files
    modelled here. *)
Inductive error : Type :=
| ErrNew (msg : string)
| ErrVar (name : string)
| ErrWrap (msg : string) (cause : error)
| MalformedMetadataError (UnmarshalError : error).

(** Result of running a piece of Go code: a value, a non-nil [error]
    (Go returns the zero value next to it), or no answer within the
    iteration budget given to an unbounded [for] loop. *)
Inductive res (A : Type) : Type :=
| Ok (a : A)
| Err (e : error)
| OutOfFuel.
Arguments Ok {A} a.
Arguments Err {A} e.
Arguments OutOfFuel {A}.

(** Code that calls collaborators: the calls made so far (oldest first)
    are threaded through. *)
Definition M (E A : Type) : Type := list E -> list E * res A.

Definition ret {E A} (a : A) : M E A := fun tr => (tr, Ok a).

Definition bind {E A B} (m : M E A) (k : A -> M E B) : M E B :=
  fun tr =>
    match m tr with
    | (tr', Ok a) => k a tr'
    | (tr', Err e) => (tr', Err e)
    | (tr', OutOfFuel) => (tr', OutOfFuel)
    end.

Definition fail {E A} (e : error) : M E A := fun tr => (tr, Err e).

Definition diverge {E A} : M E A := fun tr => (tr, OutOfFuel).

(** A call whose answer may depend on everything that happened before. *)
Definition call {E A} (ev : E) (answer : list E -> A) : M E A :=
  fun tr => (tr ++ [ev], Ok (answer tr)).

(** [if err != nil { return ..., err }] after a call returning
    [(value, error)]. *)
Definition check {E A} (r : A * option error) : M E A :=
  match r with
  | (_, Some e) => fail e
  | (a, None) => ret a
  end.

(** [if err != nil { return ..., fmt.Errorf(msg + ": %w", err) }] *)
Definition wrap {E A} (msg : string) (m : M E A) : M E A :=
  fun tr =>
    match m tr with
    | (tr', Err e) => (tr', Err (ErrWrap msg e))
    | r => r
    end.

(** [emits P m]: whatever the history, [m] only appends calls, and every
    call it appends satisfies [P]. *)
Definition emits {E A} (P : E -> Prop) (m : M E A) : Prop :=
  forall tr, exists sfx, (m tr).1 = tr ++ sfx /\ Forall P sfx.

#[export] Instance M_ret {E} : MRet (M E) := fun A => @ret E A.
#[export] Instance M_bind {E} : MBind (M E) := fun A B k m => bind m k.

(** [time.Time] instants and [time.Duration]s, both counted in
    nanoseconds; the instants the clock and the database hand out are far
    from the ends of the representable range, so [Add] is plain
    addition. *)
Definition Time := Z.
Definition Duration := Z.
Definition Before (t u : Time) : bool := t <? u.
Definition After (t u : Time) : bool := u <? t.
Definition Add (t : Time) (d : Duration) : Time := t + d.

End Go.

(** ** package engine: the check coordinator *)
Module Engine.
Import Go.

Record LastCheck := {
  Succeeded : bool;
  StartTime : Time;
  EndTime : Time
}.

Module CheckInterval.
Record t := {
  Interval : Duration;
  Never : bool
}.
End CheckInterval.

(** The fields of [atc.CheckPlan] that [WaitToRun] reads.  [FromVersion]
    is a map; [None] is the nil map. *)
Record CheckPlan := {
  Name : string;
  Resource : string;
  ResourceType : string;
  Prototype : string;
  Interval : CheckInterval.t;
  SkipInterval : bool;
  FromVersion : option (gmap string string)
}.

Module Build.
Record t := {
  CreateTime : Time;
  StartTime : Time
}.
End Build.

(** [lock.Lock] values: the nil interface, [lock.NoopLock{}], or a lock
    handed out by the scope. *)
Inductive Lock : Type :=
| NilLock
| NoopLock
| ScopeLock (id : nat).

Inductive Event : Type :=
| EvLimiterWait
| EvLastCheck
| EvNow
| EvAcquireResourceCheckingLock
| EvSelect.

#[export] Instance Event_eq_dec : EqDecision Event.
Proof. solve_decision. Defined.

(** The collaborators.  [ctx_Done] answers the [select]: [Some e] when
    [ctx.Done()] is taken (and [ctx.Err()] is [e]), [None] when the
    one-second timer is. *)
Record World := {
  limiter_Wait : list Event -> option error;
  scope_LastCheck : list Event -> LastCheck * option error;
  clock_Now : list Event -> Time;
  scope_AcquireResourceCheckingLock :
    list Event -> Lock * bool * option error;
  ctx_Done : list Event -> option error
}.

Record checkDelegate := {
  build : Build.t;
  plan : CheckPlan
}.

Inductive LoopCtl : Type :=
| Return (l : Lock) (run : bool)
| Break (l : Lock)
| Continue.

Section WaitToRun.
(** [atc.CheckPlan.IsPeriodic] is declared with the plan type, outside
    the files modelled here. *)
Variable IsPeriodic : CheckPlan -> bool.
Variable w : World.
Variable d : checkDelegate.

Definition interval : Duration := CheckInterval.Interval (Interval (plan d)).

(** The interval test of a periodic check: true when the check must
    not run yet. *)
Definition gate_rejects (now : Time) (lastCheck : LastCheck) : bool :=
  Before now (Add (EndTime lastCheck) interval).

(** The reuse test of a manually triggered check. *)
Definition manual_reuses (lastCheck : LastCheck) : bool :=
  match FromVersion (plan d) with
  | None => Succeeded lastCheck
            && Before (Build.CreateTime (build d)) (StartTime lastCheck)
  | Some _ => false
  end.

(** The reuse test of a check embedded in a build step. *)
Definition embedded_reuses (lastCheck : LastCheck) : bool :=
  Succeeded lastCheck
  && After (EndTime lastCheck) (Build.StartTime (build d)).

Definition acquire_and_select : M Event LoopCtl :=
  r ← call EvAcquireResourceCheckingLock
        (scope_AcquireResourceCheckingLock w);
  '(lock, acquired) ← wrap "acquire lock" (check r);
  if (acquired : bool) then ret (Break lock)
  else
    done ← call EvSelect (ctx_Done w);
    match done with
    | Some e => fail e
    | None => ret Continue
    end.

(** One iteration of the [for] loop. *)
Definition loop_body : M Event LoopCtl :=
  r ← call EvLastCheck (scope_LastCheck w);
  lastCheck ← check r;
  if SkipInterval (plan d) then
    if manual_reuses lastCheck then ret (Return NilLock false)
    else acquire_and_select
  else
    now ← call EvNow (clock_Now w);
    if gate_rejects now lastCheck then ret (Return NilLock false)
    else acquire_and_select.

Fixpoint loop (fuel : nat) : M Event LoopCtl :=
  match fuel with
  | O => diverge
  | S fuel' =>
      c ← loop_body;
      match c with
      | Continue => loop fuel'
      | _ => ret c
      end
  end.

(** The rate-limit prelude; [false] is the early [return nil, false,
    nil] of a check that must never run periodically. *)
Definition prelude : M Event bool :=
  if negb (SkipInterval (plan d)) then
    if CheckInterval.Never (Interval (plan d)) then ret false
    else if negb (String.eqb (Resource (plan d)) "") then
      r ← call EvLimiterWait (limiter_Wait w);
      wrap "rate limit" (check (tt, r));;
      ret true
    else ret true
  else ret true.

(** What follows the prelude: the lock loop of a periodic check, or the
    single reuse test of an embedded one. *)
Definition lock_or_reuse (fuel : nat) : M Event (Lock * bool) :=
  if IsPeriodic (plan d) then
    c ← loop fuel;
    match c with
    | Return l run => ret (l, run)
    | Break l => ret (l, true)
    | Continue => diverge
    end
  else
    r ← call EvLastCheck (scope_LastCheck w);
    lastCheck ← check r;
    if embedded_reuses lastCheck then ret (NilLock, false)
    else ret (NoopLock, true).

Definition WaitToRun (fuel : nat) : M Event (Lock * bool) :=
  go ← prelude;
  if (go : bool) then lock_or_reuse fuel else ret (NilLock, false).

(** The calls of one iteration that come before the lock attempt. *)
Definition reads : list Event :=
  EvLastCheck :: (if SkipInterval (plan d) then [] else [EvNow]).

(** The test made on a [LastCheck] read at history [tr0]: true when the
    check is not to run. *)
Definition skips (tr0 : list Event) (lc : LastCheck) : bool :=
  if SkipInterval (plan d) then manual_reuses lc
  else gate_rejects (clock_Now w (tr0 ++ [EvLastCheck])) lc.

(** The checks the rate limiter applies to, and the calls the prelude
    makes. *)
Definition limited : bool :=
  negb (SkipInterval (plan d))
  && negb (CheckInterval.Never (Interval (plan d)))
  && negb (String.eqb (Resource (plan d)) "").

Definition prelude_calls : list Event :=
  if limited then [EvLimiterWait] else [].

End WaitToRun.

End Engine.

(** ** Go's [path] and [net/url], as far as the image fetcher uses them *)
Module GoLib.

(** The elements of a path between its slashes. *)
Fixpoint elements (s : string) : list string :=
  match s with
  | EmptyString => [EmptyString]
  | String c s' =>
      if Ascii.eqb c "/"%char then EmptyString :: elements s'
      else match elements s' with
           | e :: es => String c e :: es
           | [] => [String c EmptyString]
           end
  end.

Definition join (sep : string) (l : list string) : string :=
  match l with
  | [] => EmptyString
  | e :: es => fold_left (fun acc x => acc +:+ sep +:+ x) es e
  end.

Definition rooted (s : string) : bool :=
  match s with
  | String c _ => Ascii.eqb c "/"%char
  | EmptyString => false
  end.

(** One element of [path.Clean]'s scan; [kept] holds the elements written
    so far, last first. *)
Definition clean_step (is_rooted : bool) (kept : list string) (e : string)
    : list string :=
  if String.eqb e "" || String.eqb e "." then kept
  else if String.eqb e ".." then
    match kept with
    | top :: rest => if String.eqb top ".." then e :: kept else rest
    | [] => if is_rooted then [] else [e]
    end
  else e :: kept.

(** [path.Clean]: no empty and no [.] elements, [..] cancels the element
    before it, [.] for the empty result. *)
Definition Clean (s : string) : string :=
  let kept := rev (fold_left (clean_step (rooted s)) (elements s) []) in
  if rooted s then "/" +:+ join "/" kept
  else match kept with
       | [] => "."
       | _ => join "/" kept
       end.

(** [path.Join]: the elements from the first non-empty one on, joined by
    slashes and cleaned; the empty string when there is none. *)
Fixpoint Join (elem : list string) : string :=
  match elem with
  | [] => ""
  | e :: rest => if String.eqb e "" then Join rest else Clean (join "/" elem)
  end.

Definition hex_digit (n : N) : ascii :=
  match String.get (N.to_nat n) "0123456789ABCDEF" with
  | Some c => c
  | None => "0"%char
  end.

Definition in_range (lo hi c : ascii) : bool :=
  (N_of_ascii lo <=? N_of_ascii c)%N && (N_of_ascii c <=? N_of_ascii hi)%N.

(** [url.shouldEscape(c, encodePath)]: letters, digits, the marks
    [- _ . ~] and the reserved characters other than [?] stay. *)
Definition shouldEscape (c : ascii) : bool :=
  negb (in_range "a"%char "z"%char c
        || in_range "A"%char "Z"%char c
        || in_range "0"%char "9"%char c
        || existsb (Ascii.eqb c)
             ["-"; "_"; "."; "~"; "$"; "&"; "+"; ","; "/"; ":"; ";"; "=";
              "@"]%char).

Fixpoint escape (s : string) : string :=
  match s with
  | EmptyString => EmptyString
  | String c s' =>
      if shouldEscape c then
        String "%"%char (String (hex_digit (N_of_ascii c / 16))
                      (String (hex_digit (N_of_ascii c mod 16)) (escape s')))
      else String c (escape s')
  end.

(** [url.URL] with the two fields the fetcher sets. *)
Record URL := {
  Scheme : string;
  Path : string
}.

Definition EscapedPath (u : URL) : string :=
  if String.eqb (Path u) "*" then "*" else escape (Path u).

(** [URL.String] for a URL with a scheme and neither host nor user: the
    scheme and a colon, two slashes when there is a path, the escaped
    path. *)
Definition URL_String (u : URL) : string :=
  Scheme u +:+ ":"
  +:+ (if String.eqb (Path u) "" then "" else "//")
  +:+ EscapedPath u.

(** The path is not empty and holds no byte that [URL.String]
    escapes. *)
Fixpoint unescaped (s : string) : bool :=
  match s with
  | EmptyString => true
  | String c s' => negb (shouldEscape c) && unescaped s'
  end.

Definition plain (p : string) : bool := negb (String.eqb p "") && unescaped p.

End GoLib.

(** ** package gardenruntime: the image fetcher *)
Module Gardenruntime.
Import Go GoLib.

Definition RawRootFSScheme : string := "raw".
Definition ImageMetadataFile : string := "metadata.json".
Definition ErrUnsupportedResourceType : error :=
  ErrVar "ErrUnsupportedResourceType".

Record ImageMetadata := {
  Env : list string;
  User : string
}.

(** [FetchedImage{}] is [zero]; a nil [atc.Version] is the empty map. *)
Module FetchedImage.
Record t := {
  Metadata : ImageMetadata;
  Version : gmap string string;
  URL : string;
  Privileged : bool
}.
Definition zero : t :=
  {| Metadata := {| Env := []; User := "" |}; Version := ∅; URL := "";
     Privileged := false |}.
End FetchedImage.

Module WorkerResourceType.
Record t := {
  Type_ : string;
  Image : string;
  Version : string;
  Privileged : bool
}.
End WorkerResourceType.

Record Volume := {
  Handle : string;
  VolumePath : string;
  WorkerName : string
}.

(** A [runtime.Artifact]: named by a handle, or a volume at hand. *)
Inductive Artifact : Type :=
| ArtifactHandle (id : string)
| ArtifactVolume (v : Volume).

Module ImageSpec.
Record t := {
  ImageArtifact : option Artifact;
  ResourceType : string;
  ImageURL : string;
  Privileged : bool
}.
End ImageSpec.

(** [baggageclaim.VolumeSpec] with an [ImportStrategy]. *)
Record VolumeSpec := {
  ImportPath : string;
  SpecPrivileged : bool
}.

Definition Container := string.

Inductive Event : Type :=
| EvFindVolumeForArtifact (teamID : Z) (a : Artifact)
| EvFindOrCreateCOWVolumeForContainer (privileged : bool) (c : Container)
    (parent : Volume) (teamID : Z) (mountPath : string)
| EvFindOrCreateVolumeForStreaming (privileged : bool) (c : Container)
    (teamID : Z) (mountPath : string)
| EvFindOrCreateVolumeForBaseResourceType (spec : VolumeSpec) (teamID : Z)
    (resourceTypeName : string)
| EvStream (src : Artifact) (dst : Volume)
| EvStreamFile (src : Artifact) (file : string).

(** The worker and what stands behind it.  [StreamFile] hands out the
    bytes of the file; [json_Decode] is [encoding/json] decoding them into
    an [ImageMetadata]. *)
Record Worker := {
  Name : string;
  ResourceTypes : list WorkerResourceType.t;
  findVolumeForArtifact : Z -> Artifact -> Volume * bool * option error;
  findOrCreateCOWVolumeForContainer :
    bool -> Container -> Volume -> Z -> string -> Volume * option error;
  findOrCreateVolumeForStreaming :
    bool -> Container -> Z -> string -> Volume * option error;
  findOrCreateVolumeForBaseResourceType :
    VolumeSpec -> Z -> string -> Volume * option error;
  streamer_Stream : Artifact -> Volume -> option error;
  streamer_StreamFile : Artifact -> string -> string * option error;
  json_Decode : string -> ImageMetadata * option error
}.

Section Fetch.
Variable worker : Worker.

Definition loadMetadata (tarReader : string) : M Event ImageMetadata :=
  match json_Decode worker tarReader with
  | (_, Some err) => fail (MalformedMetadataError err)
  | (imageMetadata, None) => mret imageMetadata
  end.

Definition imageProvidedByPreviousStepOnSameWorker (privileged : bool)
    (teamID : Z) (container : Container) (artifactVolume : Volume)
    : M Event FetchedImage.t :=
  imageVolume ← wrap "create COW volume"
    (r ← call (EvFindOrCreateCOWVolumeForContainer privileged container
                 artifactVolume teamID "/")
           (fun _ => findOrCreateCOWVolumeForContainer worker privileged
                       container artifactVolume teamID "/");
     check r);
  imageMetadataReader ← wrap "stream metadata"
    (r ← call (EvStreamFile (ArtifactVolume artifactVolume) ImageMetadataFile)
           (fun _ => streamer_StreamFile worker
                       (ArtifactVolume artifactVolume) ImageMetadataFile);
     check r);
  metadata ← wrap "load metadata" (loadMetadata imageMetadataReader);
  let imageURL :=
    {| Scheme := RawRootFSScheme;
       Path := Join [VolumePath imageVolume; "rootfs"] |} in
  mret {| FetchedImage.Metadata := metadata;
          FetchedImage.Version := ∅;
          FetchedImage.URL := URL_String imageURL;
          FetchedImage.Privileged := privileged |}.

Definition imageProvidedByPreviousStepOnDifferentWorker (privileged : bool)
    (teamID : Z) (container : Container) (artifact : Artifact)
    : M Event FetchedImage.t :=
  r ← call (EvFindOrCreateVolumeForStreaming privileged container teamID "/")
        (fun _ => findOrCreateVolumeForStreaming worker privileged container
                    teamID "/");
  streamedVolume ← check r;
  r ← call (EvStream artifact streamedVolume)
        (fun _ => streamer_Stream worker artifact streamedVolume);
  check (tt, r);;
  r ← call (EvFindOrCreateCOWVolumeForContainer privileged container
              streamedVolume teamID "/")
        (fun _ => findOrCreateCOWVolumeForContainer worker privileged
                    container streamedVolume teamID "/");
  imageVolume ← check r;
  r ← call (EvStreamFile artifact ImageMetadataFile)
        (fun _ => streamer_StreamFile worker artifact ImageMetadataFile);
  imageMetadataReader ← check r;
  metadata ← loadMetadata imageMetadataReader;
  let imageURL :=
    {| Scheme := RawRootFSScheme;
       Path := Join [VolumePath imageVolume; "rootfs"] |} in
  mret {| FetchedImage.Metadata := metadata;
          FetchedImage.Version := ∅;
          FetchedImage.URL := URL_String imageURL;
          FetchedImage.Privileged := privileged |}.

Definition imageFromBaseResourceType (resourceType : WorkerResourceType.t)
    (resourceTypeName : string) (teamID : Z) (container : Container)
    : M Event FetchedImage.t :=
  let spec :=
    {| ImportPath := WorkerResourceType.Image resourceType;
       SpecPrivileged := WorkerResourceType.Privileged resourceType |} in
  r ← call (EvFindOrCreateVolumeForBaseResourceType spec teamID
              resourceTypeName)
        (fun _ => findOrCreateVolumeForBaseResourceType worker spec teamID
                    resourceTypeName);
  importVolume ← check r;
  r ← call (EvFindOrCreateCOWVolumeForContainer
              (WorkerResourceType.Privileged resourceType) container
              importVolume teamID "/")
        (fun _ => findOrCreateCOWVolumeForContainer worker
                    (WorkerResourceType.Privileged resourceType) container
                    importVolume teamID "/");
  cowVolume ← check r;
  let rootFSURL :=
    {| Scheme := RawRootFSScheme; Path := VolumePath cowVolume |} in
  mret {| FetchedImage.Metadata := {| Env := []; User := "" |};
          FetchedImage.Version :=
            {[ resourceTypeName := WorkerResourceType.Version resourceType ]};
          FetchedImage.URL := URL_String rootFSURL;
          FetchedImage.Privileged :=
            WorkerResourceType.Privileged resourceType |}.

Definition fetchImageForContainer (imageSpec : ImageSpec.t) (teamID : Z)
    (container : Container) : M Event FetchedImage.t :=
  match ImageSpec.ImageArtifact imageSpec with
  | Some artifact =>
      r ← call (EvFindVolumeForArtifact teamID artifact)
            (fun _ => findVolumeForArtifact worker teamID artifact);
      '(volume, ok) ← check r;
      if (ok : bool) && String.eqb (WorkerName volume) (Name worker) then
        imageProvidedByPreviousStepOnSameWorker
          (ImageSpec.Privileged imageSpec) teamID container volume
      else
        imageProvidedByPreviousStepOnDifferentWorker
          (ImageSpec.Privileged imageSpec) teamID container artifact
  | None =>
      if negb (String.eqb (ImageSpec.ResourceType imageSpec) "") then
        match
          find (fun t => String.eqb (WorkerResourceType.Type_ t)
                           (ImageSpec.ResourceType imageSpec))
            (ResourceTypes worker)
        with
        | Some t =>
            imageFromBaseResourceType t (ImageSpec.ResourceType imageSpec)
              teamID container
        | None => fail ErrUnsupportedResourceType
        end
      else
        mret {| FetchedImage.Metadata := {| Env := []; User := "" |};
                FetchedImage.Version := ∅;
                FetchedImage.URL := ImageSpec.ImageURL imageSpec;
                FetchedImage.Privileged := false |}
  end.

End Fetch.

End Gardenruntime.

(** ** package exec: the get step *)
Module Exec.
Import Go.

(** [atc.Source], [atc.Params] and [atc.Version] are maps. *)
Module atc.
Definition Source := gmap string string.
Definition Params := gmap string string.
Definition Version := gmap string string.
Definition VersionedResourceTypes := list string.
Definition Tags := list string.
End atc.

Module runtime.
Definition Artifact := string.
Record VersionResult := {
  Version : atc.Version;
  Metadata : list (string * string)
}.
Record ProcessSpec := {
  Path : string;
  Args : list string
}.
End runtime.

Module db.
Definition UsedResourceCache := nat.
(** [db.NewBuildStepContainerOwner(buildID, planID, teamID)] *)
Record ContainerOwner := {
  BuildID : Z;
  PlanID : string;
  TeamID : Z
}.
Definition ContainerMetadata := string.
End db.

(** [atc.GetPlan]; [Version] is a pointer, [None] when nil. *)
Record GetPlan := {
  Name : string;
  Type_ : string;
  Resource : string;
  Source : atc.Source;
  Params : atc.Params;
  Version : option atc.Version;
  Tags : atc.Tags;
  VersionedResourceTypes : atc.VersionedResourceTypes
}.

Record StepMetadata := {
  BuildID : Z;
  BuildName : string;
  TeamID : Z;
  TeamName : string;
  JobID : Z;
  JobName : string;
  PipelineID : Z;
  PipelineName : string;
  ExternalURL : string
}.

Record GetStep := {
  planID : string;
  plan : GetPlan;
  metadata : StepMetadata;
  containerMetadata : db.ContainerMetadata;
  succeeded : bool
}.

(** [NewGetStep]: [succeeded] starts at its zero value.  The factories,
    the placement strategy and the worker client it also stores are the
    world the step runs in. *)
Definition NewGetStep (planID : string) (plan : GetPlan)
    (metadata : StepMetadata) (containerMetadata : db.ContainerMetadata)
    : GetStep :=
  {| planID := planID; plan := plan; metadata := metadata;
     containerMetadata := containerMetadata; succeeded := false |}.

Module worker.
Record ImageSpec := {
  ResourceType : string
}.
Record ContainerSpec := {
  ImageSpec_ : ImageSpec;
  TeamID : Z;
  Env : list string
}.
Record WorkerSpec := {
  WorkerResourceType : string;
  Tags : atc.Tags;
  WorkerTeamID : Z;
  ResourceTypes : atc.VersionedResourceTypes
}.
(** [worker.ImageFetcherSpec]; its delegate is the step's. *)
Record ImageFetcherSpec := {
  FetcherResourceTypes : atc.VersionedResourceTypes
}.
(** [worker.GetResult] *)
Record GetResult := {
  ExitStatus : Z;
  VersionResult : runtime.VersionResult;
  GetArtifact : runtime.Artifact
}.
End worker.

(** What [resourceFactory.NewResource(source, params, version)] is made
    from. *)
Record Resource_ := {
  ResourceSource : atc.Source;
  ResourceParams : atc.Params;
  ResourceVersion : atc.Version
}.

(** What [workerClient.RunGetStep] is called with, the context, logger,
    strategy and delegate apart. *)
Record RunGetStepArgs := {
  containerOwner : db.ContainerOwner;
  containerSpec : worker.ContainerSpec;
  workerSpec : worker.WorkerSpec;
  stepContainerMetadata : db.ContainerMetadata;
  imageSpec : worker.ImageFetcherSpec;
  processSpec : runtime.ProcessSpec;
  resourceCache : db.UsedResourceCache;
  resourceToGet : Resource_
}.

Inductive Event : Type :=
| EvInitializing
| EvEvaluateSource
| EvEvaluateParams
| EvEvaluateResourceTypes
| EvVersion
| EvFindOrCreateResourceCache
| EvRunGetStep (args : RunGetStepArgs)
| EvRegisterArtifact (name : string) (artifact : runtime.Artifact)
| EvUpdateVersion (plan : GetPlan) (versionResult : runtime.VersionResult)
| EvFinished (exitStatus : Z) (versionResult : runtime.VersionResult).

(** The run state, the factories and the worker client. *)
Record World := {
  Source_Evaluate : atc.Source -> atc.Source * option error;
  Params_Evaluate : atc.Params -> atc.Params * option error;
  VersionedResourceTypes_Evaluate :
    atc.VersionedResourceTypes -> atc.VersionedResourceTypes * option error;
  VersionSource_Version : GetPlan -> atc.Version * option error;
  StepMetadata_Env : StepMetadata -> list string;
  ResourcesDir : string -> string;
  FindOrCreateResourceCache :
    Z -> string -> atc.Version -> atc.Source -> atc.Params ->
    atc.VersionedResourceTypes -> db.UsedResourceCache * option error;
  RunGetStep : RunGetStepArgs -> worker.GetResult * option error
}.

Section Run.
Variable w : World.

Definition runGetStepArgs (step : GetStep) (source : atc.Source)
    (params : atc.Params) (resourceTypes : atc.VersionedResourceTypes)
    (version : atc.Version) (resourceCache : db.UsedResourceCache)
    : RunGetStepArgs :=
  {| containerOwner :=
       {| db.BuildID := BuildID (metadata step);
          db.PlanID := planID step;
          db.TeamID := TeamID (metadata step) |};
     containerSpec :=
       {| worker.ImageSpec_ :=
            {| worker.ResourceType := Type_ (plan step) |};
          worker.TeamID := TeamID (metadata step);
          worker.Env := StepMetadata_Env w (metadata step) |};
     workerSpec :=
       {| worker.WorkerResourceType := Type_ (plan step);
          worker.Tags := Tags (plan step);
          worker.WorkerTeamID := TeamID (metadata step);
          worker.ResourceTypes := resourceTypes |};
     stepContainerMetadata := containerMetadata step;
     imageSpec := {| worker.FetcherResourceTypes := resourceTypes |};
     processSpec :=
       {| runtime.Path := "/opt/resource/in";
          runtime.Args := [ResourcesDir w "get"] |};
     resourceCache := resourceCache;
     resourceToGet :=
       {| ResourceSource := source; ResourceParams := params;
          ResourceVersion := version |} |}.

(** [step.succeeded = true] *)
Definition set_succeeded (step : GetStep) : GetStep :=
  {| planID := planID step; plan := plan step; metadata := metadata step;
     containerMetadata := containerMetadata step; succeeded := true |}.

(** [GetStep.run]: the step as the run leaves it; the error return is the
    monad's. *)
Definition run (step : GetStep) : M Event GetStep :=
  call EvInitializing (fun _ => tt);;
  r ← call EvEvaluateSource (fun _ => Source_Evaluate w (Source (plan step)));
  source ← check r;
  r ← call EvEvaluateParams (fun _ => Params_Evaluate w (Params (plan step)));
  params ← check r;
  r ← call EvEvaluateResourceTypes
        (fun _ => VersionedResourceTypes_Evaluate w
                    (VersionedResourceTypes (plan step)));
  resourceTypes ← check r;
  r ← call EvVersion (fun _ => VersionSource_Version w (plan step));
  version ← check r;
  r ← call EvFindOrCreateResourceCache
        (fun _ => FindOrCreateResourceCache w (BuildID (metadata step))
                    (Type_ (plan step)) version source params resourceTypes);
  resourceCache ← check r;
  let args :=
    runGetStepArgs step source params resourceTypes version resourceCache in
  r ← call (EvRunGetStep args) (fun _ => RunGetStep w args);
  getResult ← check r;
  step ←
    (if worker.ExitStatus getResult =? 0 then
       call (EvRegisterArtifact (Name (plan step))
               (worker.GetArtifact getResult))
         (fun _ => tt);;
       (if negb (String.eqb (Resource (plan step)) "") then
          call (EvUpdateVersion (plan step) (worker.VersionResult getResult))
            (fun _ => tt)
        else mret tt);;
       mret (set_succeeded step)
     else mret step);
  call (EvFinished (worker.ExitStatus getResult)
          (worker.VersionResult getResult))
    (fun _ => tt);;
  mret step.

(** [GetStep.Run]: the calls made, the step as the run leaves it, and
    the error returned.  [run] has no loop and always answers. *)
Definition Run (step : GetStep) : list Event * GetStep * option error :=
  match run step [] with
  | (tr, Ok step') => (tr, step', None)
  | (tr, Err e) => (tr, step, Some e)
  | (tr, OutOfFuel) => (tr, step, None)
  end.

Definition Succeeded (step : GetStep) : bool := succeeded step.

(** The run gets as far as the exit of the [in] script, with result
    [getResult]: no evaluation, the resource cache and the worker client
    return an error. *)
Definition completes (step : GetStep) (getResult : worker.GetResult)
    : Prop :=
  exists source params resourceTypes version resourceCache,
    Source_Evaluate w (Source (plan step)) = (source, None)
    /\ Params_Evaluate w (Params (plan step)) = (params, None)
    /\ VersionedResourceTypes_Evaluate w
         (VersionedResourceTypes (plan step)) = (resourceTypes, None)
    /\ VersionSource_Version w (plan step) = (version, None)
    /\ FindOrCreateResourceCache w (BuildID (metadata step))
         (Type_ (plan step)) version source params resourceTypes
       = (resourceCache, None)
    /\ RunGetStep w
         (runGetStepArgs step source params resourceTypes version
            resourceCache)
       = (getResult, None).

(** The calls a completed run makes from [RunGetStep] on. *)
Definition calls_from_RunGetStep (step : GetStep) (args : RunGetStepArgs)
    (getResult : worker.GetResult) : list Event :=
  [EvRunGetStep args]
  ++ (if worker.ExitStatus getResult =? 0 then
        EvRegisterArtifact (Name (plan step)) (worker.GetArtifact getResult)
        :: (if String.eqb (Resource (plan step)) "" then []
            else [EvUpdateVersion (plan step)
                    (worker.VersionResult getResult)])
      else [])
  ++ [EvFinished (worker.ExitStatus getResult)
        (worker.VersionResult getResult)].

End Run.

End Exec.

(** ** package builder: plans and the step builder *)
Module Builder.
Import Go.

(** Payloads of the leaf plans, as far as the builder reads them. *)
Record LeafPlan := {
  Name : string
}.

Record AcrossVar := {
  Var : string;
  Values : list string;
  MaxInFlight : Z
}.

(** [atc.Plan]: every variant is a pointer field, [None] when nil.  The
    variant structs with sub-plans are declared with it; [OnAbortPlan],
    [OnErrorPlan], [OnSuccessPlan], [OnFailurePlan] and [EnsurePlan] have
    the same two fields and are one type here, [HookPlan]. *)
#[local] Unset Elimination Schemes.
Inductive Plan : Type := mkPlan {
  ID : string;
  Attempts : list Z;
  Aggregate : option (list Plan);
  InParallel : option InParallelPlan;
  Across : option AcrossPlan;
  Do : option (list Plan);
  Timeout : option TimeoutPlan;
  Try : option TryPlan;
  OnAbort : option HookPlan;
  OnError : option HookPlan;
  OnSuccess : option HookPlan;
  OnFailure : option HookPlan;
  Ensure : option HookPlan;
  Task : option LeafPlan;
  SetPipeline : option LeafPlan;
  LoadVar : option LeafPlan;
  Get : option LeafPlan;
  Put : option LeafPlan;
  Retry : option (list Plan);
  ArtifactInput : option LeafPlan;
  ArtifactOutput : option LeafPlan
}
with InParallelPlan : Type := mkInParallelPlan {
  Steps : list Plan;
  Limit : Z;
  FailFast : bool
}
with AcrossPlan : Type := mkAcrossPlan {
  Vars : list AcrossVar;
  AcrossSteps : list VarScopedPlan;
  AcrossFailFast : bool
}
with VarScopedPlan : Type := mkVarScopedPlan {
  ScopedStep : Plan;
  ScopedValues : list string
}
with TimeoutPlan : Type := mkTimeoutPlan {
  TimeoutStep : Plan;
  Duration : string
}
with TryPlan : Type := mkTryPlan {
  TryStep : Plan
}
with HookPlan : Type := mkHookPlan {
  Step : Plan;
  Next : Plan
}.
#[local] Set Elimination Schemes.

(** A plan with none of its variants set. *)
Definition emptyPlan (id : string) (attempts : list Z) : Plan :=
  mkPlan id attempts None None None None None None None None None None None
    None None None None None None None None.

(** [plan.Attempts = attempts] on a copy of the plan. *)
Definition withAttempts (attempts : list Z) (plan : Plan) : Plan :=
  mkPlan (ID plan) attempts (Aggregate plan) (InParallel plan) (Across plan)
    (Do plan) (Timeout plan) (Try plan) (OnAbort plan) (OnError plan)
    (OnSuccess plan) (OnFailure plan) (Ensure plan) (Task plan)
    (SetPipeline plan) (LoadVar plan) (Get plan) (Put plan) (Retry plan)
    (ArtifactInput plan) (ArtifactOutput plan).

(** [db.Build], as far as the builder reads it. *)
Record Build := {
  BuildID : Z;
  BuildName : string;
  TeamID : Z;
  TeamName : string;
  JobID : Z;
  JobName : string;
  PipelineID : Z;
  PipelineName : string;
  Schema : string;
  PrivatePlan : Plan
}.

Definition supportedSchema : string := "exec.v2".

Inductive ContainerType : Type :=
| ContainerTypeGet
| ContainerTypePut
| ContainerTypeTask.

Module ContainerMetadata.
Record t := {
  Type_ : ContainerType;
  PipelineID : Z;
  JobID : Z;
  BuildID : Z;
  PipelineName : string;
  JobName : string;
  BuildName : string;
  StepName : string;
  Attempt : string
}.
End ContainerMetadata.

Module StepMetadata.
Record t := {
  BuildID : Z;
  BuildName : string;
  TeamID : Z;
  TeamName : string;
  JobID : Z;
  JobName : string;
  PipelineID : Z;
  PipelineName : string;
  ExternalURL : string
}.
End StepMetadata.

(** [exec.Step]s as the builder puts them together: the combinators of
    package exec under the names of their constructors, and what the step
    factory is asked for. *)
Module exec.
Inductive Step : Type :=
| IdentityStep
| AggregateStep (steps : list Step)
| InParallel (steps : list Step) (limit : Z) (failFast : bool)
| Across (step : Step) (varNames : list string) (delegateFor : string)
    (metadata : StepMetadata.t)
| OnSuccess (step next : Step)
| OnFailure (step next : Step)
| OnAbort (step next : Step)
| OnError (step next : Step)
| Ensure (step next : Step)
| Timeout (step : Step) (duration : string)
| Try (step : Step)
| Retry (steps : list Step)
| GetStep (plan : Plan) (metadata : StepMetadata.t)
    (containerMetadata : ContainerMetadata.t) (delegateFor : string)
| PutStep (plan : Plan) (metadata : StepMetadata.t)
    (containerMetadata : ContainerMetadata.t) (delegateFor : string)
| TaskStep (plan : Plan) (metadata : StepMetadata.t)
    (containerMetadata : ContainerMetadata.t) (delegateFor : string)
| SetPipelineStep (plan : Plan) (metadata : StepMetadata.t)
    (delegateFor : string)
| LoadVarStep (plan : Plan) (metadata : StepMetadata.t)
    (delegateFor : string)
| ArtifactInputStep (plan : Plan) (build : Build)
| ArtifactOutputStep (plan : Plan) (build : Build).
End exec.

(** How many of a plan's variants are set. *)
Definition is_set {A} (o : option A) : nat :=
  match o with
  | Some _ => 1
  | None => 0
  end.

Definition variants_set (plan : Plan) : nat :=
  is_set (Aggregate plan) + is_set (InParallel plan) + is_set (Across plan)
  + is_set (Do plan) + is_set (Timeout plan) + is_set (Try plan)
  + is_set (OnAbort plan) + is_set (OnError plan) + is_set (OnSuccess plan)
  + is_set (OnFailure plan) + is_set (Ensure plan) + is_set (Task plan)
  + is_set (SetPipeline plan) + is_set (LoadVar plan) + is_set (Get plan)
  + is_set (Put plan) + is_set (Retry plan) + is_set (ArtifactInput plan)
  + is_set (ArtifactOutput plan).

(** The [Attempts] the leaves of a step tree were built with, first leaf
    first: those of the plan handed to the step factory and, for get, put
    and task steps, the [Attempt] of the container metadata. *)
Fixpoint leaf_attempts (step : exec.Step) : list (list Z * option string) :=
  match step with
  | exec.IdentityStep => []
  | exec.AggregateStep steps => concat (map leaf_attempts steps)
  | exec.InParallel steps _ _ => concat (map leaf_attempts steps)
  | exec.Across step _ _ _ => leaf_attempts step
  | exec.OnSuccess step next => leaf_attempts step ++ leaf_attempts next
  | exec.OnFailure step next => leaf_attempts step ++ leaf_attempts next
  | exec.OnAbort step next => leaf_attempts step ++ leaf_attempts next
  | exec.OnError step next => leaf_attempts step ++ leaf_attempts next
  | exec.Ensure step next => leaf_attempts step ++ leaf_attempts next
  | exec.Timeout step _ => leaf_attempts step
  | exec.Try step => leaf_attempts step
  | exec.Retry steps => concat (map leaf_attempts steps)
  | exec.GetStep plan _ cm _ =>
      [(Attempts plan, Some (ContainerMetadata.Attempt cm))]
  | exec.PutStep plan _ cm _ =>
      [(Attempts plan, Some (ContainerMetadata.Attempt cm))]
  | exec.TaskStep plan _ cm _ =>
      [(Attempts plan, Some (ContainerMetadata.Attempt cm))]
  | exec.SetPipelineStep plan _ _ => [(Attempts plan, None)]
  | exec.LoadVarStep plan _ _ => [(Attempts plan, None)]
  | exec.ArtifactInputStep plan _ => [(Attempts plan, None)]
  | exec.ArtifactOutputStep plan _ => [(Attempts plan, None)]
  end.

(** [strconv.Itoa] *)
Definition Itoa (a : Z) : string := pretty a.

(** [for index, x := range l], collecting [f index x]; [index] counts
    from [start]. *)
Fixpoint range_from {A B} (f : nat -> A -> B) (start : nat) (l : list A)
    : list B :=
  match l with
  | [] => []
  | x :: l' => f start x :: range_from f (S start) l'
  end.

(** All the steps, or [None] when building one of them panicked. *)
Definition all_built (steps : list (option exec.Step))
    : option (list exec.Step) :=
  fold_right (fun s acc => s' ← s; acc' ← acc; Some (s' :: acc')) (Some [])
    steps.

Section Builder.
Variable externalURL : string.

Definition containerMetadata (build : Build) (containerType : ContainerType)
    (stepName : string) (attempts : list Z) : ContainerMetadata.t :=
  let attemptStrs := map Itoa attempts in
  {| ContainerMetadata.Type_ := containerType;
     ContainerMetadata.PipelineID := PipelineID build;
     ContainerMetadata.JobID := JobID build;
     ContainerMetadata.BuildID := BuildID build;
     ContainerMetadata.PipelineName := PipelineName build;
     ContainerMetadata.JobName := JobName build;
     ContainerMetadata.BuildName := BuildName build;
     ContainerMetadata.StepName := stepName;
     ContainerMetadata.Attempt := GoLib.join "." attemptStrs |}.

Definition stepMetadata (build : Build) (externalURL : string)
    : StepMetadata.t :=
  {| StepMetadata.BuildID := BuildID build;
     StepMetadata.BuildName := BuildName build;
     StepMetadata.TeamID := TeamID build;
     StepMetadata.TeamName := TeamName build;
     StepMetadata.JobID := JobID build;
     StepMetadata.JobName := JobName build;
     StepMetadata.PipelineID := PipelineID build;
     StepMetadata.PipelineName := PipelineName build;
     StepMetadata.ExternalURL := externalURL |}.

(** The leaf builders.  [plan] is the plan as [buildStep] holds it, its
    [Attempts] set by the caller; [leaf] is the variant that is set. *)
Definition buildGetStep (build : Build) (plan : Plan) (leaf : LeafPlan)
    : exec.Step :=
  exec.GetStep plan (stepMetadata build externalURL)
    (containerMetadata build ContainerTypeGet (Name leaf) (Attempts plan))
    (ID plan).

Definition buildPutStep (build : Build) (plan : Plan) (leaf : LeafPlan)
    : exec.Step :=
  exec.PutStep plan (stepMetadata build externalURL)
    (containerMetadata build ContainerTypePut (Name leaf) (Attempts plan))
    (ID plan).

Definition buildTaskStep (build : Build) (plan : Plan) (leaf : LeafPlan)
    : exec.Step :=
  exec.TaskStep plan (stepMetadata build externalURL)
    (containerMetadata build ContainerTypeTask (Name leaf) (Attempts plan))
    (ID plan).

Definition buildSetPipelineStep (build : Build) (plan : Plan) : exec.Step :=
  exec.SetPipelineStep plan (stepMetadata build externalURL) (ID plan).

Definition buildLoadVarStep (build : Build) (plan : Plan) : exec.Step :=
  exec.LoadVarStep plan (stepMetadata build externalURL) (ID plan).

Definition buildArtifactInputStep (build : Build) (plan : Plan) : exec.Step :=
  exec.ArtifactInputStep plan build.

Definition buildArtifactOutputStep (build : Build) (plan : Plan) : exec.Step :=
  exec.ArtifactOutputStep plan build.

(** The combinator builders.  [buildStep attempts innerPlan] stands for
    [innerPlan.Attempts = attempts] followed by
    [builder.buildStep(build, innerPlan)].  The hook builders write the
    attempts into the plan they are handed and the others into a copy of
    the sub-plan; either way the sub-plan is built with them. *)
Section Combinators.
Variable buildStep : list Z -> Plan -> option exec.Step.

Definition buildAggregateStep (attempts : list Z) (inner : list Plan)
    : option exec.Step :=
  agg ← all_built (map (buildStep attempts) inner);
  Some (exec.AggregateStep agg).

Definition buildParallelStep (attempts : list Z) (p : InParallelPlan)
    : option exec.Step :=
  steps ← all_built (map (buildStep attempts) (Steps p));
  Some (exec.InParallel steps (Limit p) (FailFast p)).

(** The loop runs from the last plan to the first, wrapping what it has
    so far: a fold from the right. *)
Definition buildDoStep (attempts : list Z) (inner : list Plan)
    : option exec.Step :=
  fold_right
    (fun innerPlan acc =>
       step ← acc;
       previous ← buildStep attempts innerPlan;
       Some (exec.OnSuccess previous step))
    (Some exec.IdentityStep) inner.

Definition buildTimeoutStep (attempts : list Z) (p : TimeoutPlan)
    : option exec.Step :=
  step ← buildStep attempts (TimeoutStep p);
  Some (exec.Timeout step (Duration p)).

Definition buildTryStep (attempts : list Z) (p : TryPlan)
    : option exec.Step :=
  step ← buildStep attempts (TryStep p);
  Some (exec.Try step).

Definition buildHookStep (hook : exec.Step -> exec.Step -> exec.Step)
    (attempts : list Z) (p : HookPlan) : option exec.Step :=
  step ← buildStep attempts (Step p);
  next ← buildStep attempts (Next p);
  Some (hook step next).

Definition buildOnAbortStep := buildHookStep exec.OnAbort.
Definition buildOnErrorStep := buildHookStep exec.OnError.
Definition buildOnSuccessStep := buildHookStep exec.OnSuccess.
Definition buildOnFailureStep := buildHookStep exec.OnFailure.
Definition buildEnsureStep := buildHookStep exec.Ensure.

(** [innerPlan.Attempts = append(plan.Attempts, index+1)].  [append] may
    write into spare capacity of [plan.Attempts], which the next
    iteration then overwrites; the builders read the attempts - in
    [containerMetadata] and in the builders of the plans below - before
    the next iteration appends, so each sub-plan is built with the value
    appended for it.  What the step factory does later with the plan it
    is handed is its own. *)
Definition buildRetryStep (attempts : list Z) (inner : list Plan)
    : option exec.Step :=
  steps ← all_built
    (range_from
       (fun index innerPlan =>
          buildStep (attempts ++ [Z.of_nat index + 1]) innerPlan)
       0%nat inner);
  Some (exec.Retry steps).

End Combinators.

(** [plan.Steps[lo:hi]]; [None] when [hi] is past the length (Go panics,
    or reads up to the capacity of the slice). *)
Definition slice {A} (l : list A) (lo hi : nat) : option (list A) :=
  if (hi <=? length l)%nat then Some (take (hi - lo) (drop lo l)) else None.

(** [buildAcrossInParallelStep] from [varIndex] on, [rest] being
    [plan.Vars[varIndex:]] and [steps] being [plan.Steps], each sub-plan
    with what [buildStep] makes of it. *)
Fixpoint buildAcrossInParallelStep (vars : list AcrossVar) (failFast : bool)
    (rest : list AcrossVar) (steps : list (option exec.Step * list string))
    : option exec.Step :=
  match rest with
  | [] => None
  | [v] =>
      built ← all_built
        (map (fun step =>
                if (length vars <=? length step.2)%nat then step.1 else None)
           steps);
      Some (exec.InParallel built (MaxInFlight v) failFast)
  | v :: (_ :: _) as rest' =>
      let stepsPerValue :=
        fold_left (fun n v' => (n * length (Values v'))%nat) rest' 1%nat in
      let numValues := length (Values v) in
      substeps ← all_built
        (map (fun i =>
                sub ← slice steps (i * stepsPerValue)
                        ((i + 1) * stepsPerValue);
                buildAcrossInParallelStep vars failFast rest' sub)
           (seq 0 numValues));
      Some (exec.InParallel substeps (MaxInFlight v) failFast)
  end.

(** [buildAcrossStep].  The source hands [exec.Across] a [step] that it
    does not define; it is taken to be
    [buildAcrossInParallelStep(build, 0, *plan.Across)], the one function
    of the file that makes a step of an across plan.  [built] is
    [plan.Across.Steps], each sub-plan with what [buildStep] makes of it
    as it stands: the across builders do not set its [Attempts].  They
    hand the variable scope they make to a [buildStep] of three
    arguments; the [buildStep] of the file has two, and the scope is not
    part of the steps built here. *)
Definition buildAcrossStep (build : Build) (plan : Plan) (p : AcrossPlan)
    (built : list (option exec.Step * list string)) : option exec.Step :=
  step ← buildAcrossInParallelStep (Vars p) (AcrossFailFast p) (Vars p) built;
  let varNames := map Var (Vars p) in
  Some (exec.Across step varNames (ID plan) (stepMetadata build externalURL)).

(** [buildStep] on [plan] with [plan.Attempts] being [attempts].  [None]
    is a panic of the across builder. *)
Fixpoint buildStepWith (build : Build) (attempts : list Z) (plan : Plan)
    {struct plan} : option exec.Step :=
  let held := withAttempts attempts plan in
  match Aggregate plan with
  | Some inner => buildAggregateStep (buildStepWith build) attempts inner
  | None =>
  match InParallel plan with
  | Some p => buildParallelStep (buildStepWith build) attempts p
  | None =>
  match Across plan with
  | Some p =>
      buildAcrossStep build held p
        (map (fun s =>
                (buildStepWith build (Attempts (ScopedStep s)) (ScopedStep s),
                 ScopedValues s))
           (AcrossSteps p))
  | None =>
  match Do plan with
  | Some inner => buildDoStep (buildStepWith build) attempts inner
  | None =>
  match Timeout plan with
  | Some p => buildTimeoutStep (buildStepWith build) attempts p
  | None =>
  match Try plan with
  | Some p => buildTryStep (buildStepWith build) attempts p
  | None =>
  match OnAbort plan with
  | Some p => buildOnAbortStep (buildStepWith build) attempts p
  | None =>
  match OnError plan with
  | Some p => buildOnErrorStep (buildStepWith build) attempts p
  | None =>
  match OnSuccess plan with
  | Some p => buildOnSuccessStep (buildStepWith build) attempts p
  | None =>
  match OnFailure plan with
  | Some p => buildOnFailureStep (buildStepWith build) attempts p
  | None =>
  match Ensure plan with
  | Some p => buildEnsureStep (buildStepWith build) attempts p
  | None =>
  match Task plan with
  | Some leaf => Some (buildTaskStep build held leaf)
  | None =>
  match SetPipeline plan with
  | Some _ => Some (buildSetPipelineStep build held)
  | None =>
  match LoadVar plan with
  | Some _ => Some (buildLoadVarStep build held)
  | None =>
  match Get plan with
  | Some leaf => Some (buildGetStep build held leaf)
  | None =>
  match Put plan with
  | Some leaf => Some (buildPutStep build held leaf)
  | None =>
  match Retry plan with
  | Some inner => buildRetryStep (buildStepWith build) attempts inner
  | None =>
  match ArtifactInput plan with
  | Some _ => Some (buildArtifactInputStep build held)
  | None =>
  match ArtifactOutput plan with
  | Some _ => Some (buildArtifactOutputStep build held)
  | None => Some exec.IdentityStep
  end end end end end end end end end end end end end end end end end end
  end.

Definition buildStep (build : Build) (plan : Plan) : option exec.Step :=
  buildStepWith build (Attempts plan) plan.

(** [BuildStep]: the step and the error returned; [build] is [None] for a
    nil build. *)
Definition BuildStep (build : option Build)
    : option (exec.Step * option error) :=
  match build with
  | None => Some (exec.IdentityStep, Some (ErrNew "must provide a build"))
  | Some build =>
      if negb (String.eqb (Schema build) supportedSchema) then
        Some (exec.IdentityStep, Some (ErrNew "schema not supported"))
      else
        step ← buildStep build (PrivatePlan build);
        Some (step, None)
  end.

End Builder.

End Builder.

(** ** Running a chain of steps *)
Module StepSemantics.
Import Go Builder.

(** How a run ends: [Run] returned nil and [Succeeded()] is true, [Run]
    returned nil and [Succeeded()] is false, or [Run] returned an error. *)
Inductive Outcome : Type :=
| Success
| Failure
| Errored (e : error).

Section Runs.
(** Whatever the steps act on: run state, workers, event stream. *)
Context {St : Type}.

Definition Runner : Type := St -> St * Outcome.

(** Modelled from the spec: [exec.IdentityStep]'s [Run] and [Succeeded]
    are not among the sources.  The spec names the step only as the end of
    the [Do] chain; it is taken as the step that does nothing and
    succeeds. *)
Definition IdentityStep_Run : Runner := fun s => (s, Success).

(** Modelled from the spec: [exec.OnSuccess]'s [Run] and [Succeeded] are
    not among the sources.  "OnSuccess(a, b): run a; if a.Succeeded, run
    b; overall succeeded <=> a.Succeeded /\ b.Succeeded.  a errored ->
    surface, skip b.  If b errors, surface." *)
Definition OnSuccess_Run (a b : Runner) : Runner :=
  fun s =>
    match a s with
    | (s', Success) => b s'
    | (s', Failure) => (s', Failure)
    | (s', Errored e) => (s', Errored e)
    end.

(** The steps the chain is made of are run by [other]. *)
Variable other : exec.Step -> Runner.

Fixpoint Run (step : exec.Step) : Runner :=
  match step with
  | exec.IdentityStep => IdentityStep_Run
  | exec.OnSuccess a b => OnSuccess_Run (Run a) (Run b)
  | _ => other step
  end.

(** Modelled from the spec, for comparison with the compiled chain:
    "Do[s1, ..., sn]: run s1; if success run s2; ...  Succeeded =
    sn.Succeeded if reached, else last-run child's.  On first non-success,
    skip the rest.  Errored short-circuits."  [Do_spec] gives the state
    left behind and the outcomes of the children that ran, in order. *)
Fixpoint Do_spec (children : list Runner) (s : St) : St * list Outcome :=
  match children with
  | [] => (s, [])
  | child :: rest =>
      match child s with
      | (s', Success) =>
          let (s'', outcomes) := Do_spec rest s' in (s'', Success :: outcomes)
      | (s', o) => (s', [o])
      end
  end.

(** The outcome of a [Do]: that of the last child that ran; success when
    there was no child to run. *)
Definition Do_outcome (outcomes : list Outcome) : Outcome :=
  match last outcomes with
  | Some o => o
  | None => Success
  end.

End Runs.

End StepSemantics.

(** ** Plans and builds used as concrete inputs *)
Module BuilderExamples.
Import Go Builder.

Definition task (id name : string) : Plan :=
  mkPlan id [] None None None None None None None None None None None
    (Some {| Name := name |}) None None None None None None None.

Definition retry (id : string) (attempts : list Plan) : Plan :=
  mkPlan id [] None None None None None None None None None None None
    None None None None None (Some attempts) None None.

Definition do (id : string) (steps : list Plan) : Plan :=
  mkPlan id [] None None None (Some steps) None None None None None None None
    None None None None None None None None.

Definition across (id : string) (vars : list AcrossVar)
    (steps : list VarScopedPlan) : Plan :=
  mkPlan id [] None None (Some (mkAcrossPlan vars steps false)) None None
    None None None None None None None None None None None None None None.

Definition a_build (plan : Plan) : Build :=
  {| BuildID := 42; BuildName := "7"; TeamID := 1; TeamName := "main";
     JobID := 3; JobName := "unit"; PipelineID := 2;
     PipelineName := "ci"; Schema := "exec.v2"; PrivatePlan := plan |}.

(** A plan node with no variant set. *)
Definition malformed : Plan := emptyPlan "p1" [].

(** Scenario S4: three attempts at a task. *)
Definition three_attempts : Plan :=
  retry "r" [task "a1" "t"; task "a2" "t"; task "a3" "t"].

(** One attempt at a task run across the single value of one var, and one
    attempt at the same task inside a [Do]. *)
Definition retried_across : Plan :=
  retry "r"
    [across "x" [{| Var := "v"; Values := ["1"]; MaxInFlight := 1 |}]
       [mkVarScopedPlan (task "t1" "t") ["1"]]].

Definition retried_do : Plan := retry "r" [do "d" [task "t1" "t"]].

End BuilderExamples.

(** ** Workers, image specs and get steps used as concrete inputs *)
Module GardenExamples.
Import Go GoLib Gardenruntime.

Definition git_type : WorkerResourceType.t :=
  {| WorkerResourceType.Type_ := "git";
     WorkerResourceType.Image := "/concourse/resource-types/git/rootfs.tgz";
     WorkerResourceType.Version := "1.2.3";
     WorkerResourceType.Privileged := true |}.

Definition import_volume : Volume :=
  {| Handle := "import"; VolumePath := "/vol/live/import/volume";
     WorkerName := "w1" |}.

Definition cow_volume : Volume :=
  {| Handle := "cow"; VolumePath := "/vol/live/cow/volume";
     WorkerName := "w1" |}.

(** A worker with the git resource type on which every volume operation
    succeeds. *)
Definition w1 : Worker :=
  {| Name := "w1";
     ResourceTypes := [git_type];
     findVolumeForArtifact := fun _ _ => (import_volume, false, None);
     findOrCreateCOWVolumeForContainer :=
       fun _ _ _ _ _ => (cow_volume, None);
     findOrCreateVolumeForStreaming := fun _ _ _ _ => (import_volume, None);
     findOrCreateVolumeForBaseResourceType :=
       fun _ _ _ => (import_volume, None);
     streamer_Stream := fun _ _ => None;
     streamer_StreamFile := fun _ _ => ("{}", None);
     json_Decode := fun _ => ({| Env := []; User := "" |}, None) |}.

Definition image_spec (resourceType url : string) : ImageSpec.t :=
  {| ImageSpec.ImageArtifact := None;
     ImageSpec.ResourceType := resourceType;
     ImageSpec.ImageURL := url;
     ImageSpec.Privileged := false |}.

(** An image spec with no variant set. *)
Definition no_variant : ImageSpec.t := image_spec "" "".

End GardenExamples.

Module ExecExamples.
Import Go Exec.

Definition get_plan (resource : string) : GetPlan :=
  {| Name := "repo"; Type_ := "git"; Resource := resource;
     Source := {[ "uri" := "https://example.com/repo.git" ]};
     Params := ∅; Version := None; Tags := [];
     VersionedResourceTypes := [] |}.

Definition step_metadata : StepMetadata :=
  {| BuildID := 42; BuildName := "7"; TeamID := 1; TeamName := "main";
     JobID := 3; JobName := "unit"; PipelineID := 2; PipelineName := "ci";
     ExternalURL := "http://ci" |}.

Definition fetched (exitStatus : Z) : worker.GetResult :=
  {| worker.ExitStatus := exitStatus;
     worker.VersionResult :=
       {| runtime.Version := {[ "ref" := "abc" ]};
          runtime.Metadata := [] |};
     worker.GetArtifact := "volume-1" |}.

(** A world in which nothing errors and the [in] script exits with
    [exitStatus]. *)
Definition exits_with (exitStatus : Z) : World :=
  {| Source_Evaluate := fun s => (s, None);
     Params_Evaluate := fun p => (p, None);
     VersionedResourceTypes_Evaluate := fun t => (t, None);
     VersionSource_Version := fun _ => ({[ "ref" := "abc" ]}, None);
     StepMetadata_Env := fun _ => [];
     ResourcesDir := fun d => "/tmp/build/" +:+ d;
     FindOrCreateResourceCache := fun _ _ _ _ _ _ => (1%nat, None);
     RunGetStep := fun _ => (fetched exitStatus, None) |}.

End ExecExamples.

(** ** Worlds and checks used as concrete inputs *)
Module EngineExamples.
Import Go Engine.

(** A reading of [IsPeriodic] for the examples: the check names a
    resource, a resource type or a prototype. *)
Definition names_target (p : CheckPlan) : bool :=
  negb (String.eqb (Resource p) "")
  || negb (String.eqb (ResourceType p) "")
  || negb (String.eqb (Prototype p) "").

Definition called (ev : Event) (tr : list Event) : bool :=
  existsb (fun e => bool_decide (e = ev)) tr.

Definition a_build : Build.t :=
  {| Build.CreateTime := 50; Build.StartTime := 60 |}.

Definition check_plan (resource : string) (never skip : bool)
    (from : option (gmap string string)) : CheckPlan :=
  {| Name := "check"; Resource := resource; ResourceType := "";
     Prototype := "";
     Interval :=
       {| CheckInterval.Interval := 10; CheckInterval.Never := never |};
     SkipInterval := skip; FromVersion := from |}.

(** A periodic check of resource "r" every 10 time units. *)
Definition periodic : checkDelegate :=
  {| build := a_build; plan := check_plan "r" false false None |}.

(** Manually triggered checks of "r", without and with a version to start
    from. *)
Definition manual : checkDelegate :=
  {| build := a_build; plan := check_plan "r" false true None |}.

Definition manual_from : checkDelegate :=
  {| build := a_build;
     plan := check_plan "r" false true (Some {[ "ref" := "abc" ]}) |}.

(** Checks embedded in a build step: no resource, resource type or
    prototype is named. *)
Definition embedded : checkDelegate :=
  {| build := a_build; plan := check_plan "" false false None |}.

Definition embedded_never : checkDelegate :=
  {| build := a_build; plan := check_plan "" true false None |}.

(** It is 100.  The last check ended at 0; while this node is between its
    interval test and the lock, another node finishes a check at 95.  The
    lock is free. *)
Definition raced : World :=
  {| limiter_Wait := fun _ => None;
     scope_LastCheck := fun tr =>
       ({| Succeeded := true;
           StartTime := if called EvNow tr then 94 else 0;
           EndTime := if called EvNow tr then 95 else 0 |}, None);
     clock_Now := fun _ => 100;
     scope_AcquireResourceCheckingLock := fun _ => (ScopeLock 1, true, None);
     ctx_Done := fun _ => None |}.

(** The last check ran from 70 to 80 and succeeded; the lock is free. *)
Definition settled : World :=
  {| limiter_Wait := fun _ => None;
     scope_LastCheck := fun _ =>
       ({| Succeeded := true; StartTime := 70; EndTime := 80 |}, None);
     clock_Now := fun _ => 100;
     scope_AcquireResourceCheckingLock := fun _ => (ScopeLock 2, true, None);
     ctx_Done := fun _ => None |}.

(** It is 100 and the last check ran from 90 to 95. *)
Definition recent : World :=
  {| limiter_Wait := fun _ => None;
     scope_LastCheck := fun _ =>
       ({| Succeeded := true; StartTime := 90; EndTime := 95 |}, None);
     clock_Now := fun _ => 100;
     scope_AcquireResourceCheckingLock := fun _ => (ScopeLock 4, true, None);
     ctx_Done := fun _ => None |}.

(** The last check ran from 70 to 80 and failed. *)
Definition failed_before : World :=
  {| limiter_Wait := fun _ => None;
     scope_LastCheck := fun _ =>
       ({| Succeeded := false; StartTime := 70; EndTime := 80 |}, None);
     clock_Now := fun _ => 100;
     scope_AcquireResourceCheckingLock := fun _ => (ScopeLock 3, true, None);
     ctx_Done := fun _ => None |}.

End EngineExamples.

(** ** package engine: the rounds of the lock loop *)
Module EngineRounds.
Import Go Engine.

Section Rounds.
Variable w : World.
Variable d : checkDelegate.

(** The calls of [k] iterations of the [for] loop that found the lock
    taken and waited a second. *)
Fixpoint rounds (k : nat) : list Event :=
  match k with
  | O => []
  | S k' =>
      reads d ++ [EvAcquireResourceCheckingLock; EvSelect] ++ rounds k'
  end.

(** The iteration that starts at history [tr] finds the lock taken and
    goes round again: [LastCheck] is read without error, its test lets the
    check through, the lock is reported as not acquired, and the second
    passes before the context is done. *)
Definition busy (tr : list Event) : bool :=
  match scope_LastCheck w tr with
  | (lc, None) =>
      negb (skips w d tr lc)
      && match scope_AcquireResourceCheckingLock w (tr ++ reads d) with
         | (_, false, None) =>
             match
               ctx_Done w (tr ++ reads d ++ [EvAcquireResourceCheckingLock])
             with
             | None => true
             | Some _ => false
             end
         | _ => false
         end
  | (_, Some _) => false
  end.

(** The first [k] iterations from history [tr] on all find the lock
    taken. *)
Definition busy_rounds (tr : list Event) (k : nat) : bool :=
  forallb (fun i => busy (tr ++ rounds i)) (seq 0 k).

(** The prelude lets the check through: it is not a [Never] check that
    respects its interval, and the limiter, when it is waited for, returns
    no error. *)
Definition prelude_passes : bool :=
  (SkipInterval (plan d) || negb (CheckInterval.Never (Interval (plan d))))
  && (negb (limited d)
      || match limiter_Wait w [] with
         | None => true
         | Some _ => false
         end).

End Rounds.

End EngineRounds.

(** ** package engine: the check delegate's lookups and scopes *)
Module EngineDelegate.
Import Go Engine.

(** What the database hands out, by identity. *)
Module db.
Definition Pipeline := nat.
Definition Resource := nat.
Definition ResourceType := nat.
Definition Prototype := nat.
Definition ResourceConfig := nat.
Definition ResourceConfigScope := nat.
End db.

Inductive Event : Type :=
| EvBuildPipeline
| EvPipelineResource (pipeline : db.Pipeline) (name : string)
| EvPipelineResourceType (pipeline : db.Pipeline) (name : string)
| EvPipelinePrototype (pipeline : db.Pipeline) (name : string)
| EvResourceSetResourceConfigScope (resource : db.Resource)
    (scope : db.ResourceConfigScope)
| EvResourceTypeSetResourceConfigScope (resourceType : db.ResourceType)
    (scope : db.ResourceConfigScope)
| EvPrototypeSetResourceConfigScope (prototype : db.Prototype)
    (scope : db.ResourceConfigScope)
| EvConfigFindOrCreateScope (config : db.ResourceConfig)
    (resource : option db.Resource).

#[export] Instance Event_eq_dec : EqDecision Event.
Proof. solve_decision. Defined.

(** The build, the pipeline and what it holds, and the resource config;
    each answers by what was called before. *)
Record World := {
  build_Pipeline : list Event -> db.Pipeline * bool * option error;
  pipeline_Resource :
    list Event -> db.Pipeline -> string -> db.Resource * bool * option error;
  pipeline_ResourceType :
    list Event -> db.Pipeline -> string ->
    db.ResourceType * bool * option error;
  pipeline_Prototype :
    list Event -> db.Pipeline -> string -> db.Prototype * bool * option error;
  resource_SetResourceConfigScope :
    list Event -> db.Resource -> db.ResourceConfigScope -> option error;
  resourceType_SetResourceConfigScope :
    list Event -> db.ResourceType -> db.ResourceConfigScope -> option error;
  prototype_SetResourceConfigScope :
    list Event -> db.Prototype -> db.ResourceConfigScope -> option error;
  config_FindOrCreateScope :
    list Event -> db.ResourceConfig -> option db.Resource ->
    db.ResourceConfigScope * option error
}.

(** The fields of [checkDelegate] that its methods write, [None] for nil,
    and the calls made so far.  What the database hands out with
    [found = true] is taken not to be nil. *)
Record State := {
  cachedPipeline : option db.Pipeline;
  cachedResource : option db.Resource;
  cachedResourceType : option db.ResourceType;
  cachedPrototype : option db.Prototype;
  calls : list Event
}.

(** A delegate just made by [NewCheckDelegate]. *)
Definition fresh : State :=
  {| cachedPipeline := None; cachedResource := None;
     cachedResourceType := None; cachedPrototype := None; calls := [] |}.

(** Methods of the delegate: the state is threaded through and kept when
    an error is returned. *)
Definition D (A : Type) : Type := State -> State * res A.

Definition dret {A} (a : A) : D A := fun s => (s, Ok a).

Definition dbind {A B} (m : D A) (k : A -> D B) : D B :=
  fun s =>
    match m s with
    | (s', Ok a) => k a s'
    | (s', Err e) => (s', Err e)
    | (s', OutOfFuel) => (s', OutOfFuel)
    end.

Definition dfail {A} (e : error) : D A := fun s => (s, Err e).

#[export] Instance D_ret : MRet D := fun A => @dret A.
#[export] Instance D_bind : MBind D := fun A B k m => dbind m k.

(** A call to a collaborator, answered by what was called before. *)
Definition dcall {A} (ev : Event) (answer : list Event -> A) : D A :=
  fun s =>
    ({| cachedPipeline := cachedPipeline s;
        cachedResource := cachedResource s;
        cachedResourceType := cachedResourceType s;
        cachedPrototype := cachedPrototype s;
        calls := calls s ++ [ev] |},
     Ok (answer (calls s))).

(** [if err != nil { return ..., fmt.Errorf(msg + ": %w", err) }] *)
Definition dwrap {A} (msg : string) (m : D A) : D A :=
  fun s =>
    match m s with
    | (s', Err e) => (s', Err (ErrWrap msg e))
    | r => r
    end.

Definition read {A} (field : State -> A) : D A := fun s => (s, Ok (field s)).

Definition set_cachedPipeline (p : db.Pipeline) : D unit :=
  fun s =>
    ({| cachedPipeline := Some p; cachedResource := cachedResource s;
        cachedResourceType := cachedResourceType s;
        cachedPrototype := cachedPrototype s; calls := calls s |}, Ok tt).

Definition set_cachedResource (r : db.Resource) : D unit :=
  fun s =>
    ({| cachedPipeline := cachedPipeline s; cachedResource := Some r;
        cachedResourceType := cachedResourceType s;
        cachedPrototype := cachedPrototype s; calls := calls s |}, Ok tt).

Definition set_cachedResourceType (t : db.ResourceType) : D unit :=
  fun s =>
    ({| cachedPipeline := cachedPipeline s;
        cachedResource := cachedResource s; cachedResourceType := Some t;
        cachedPrototype := cachedPrototype s; calls := calls s |}, Ok tt).

Definition set_cachedPrototype (p : db.Prototype) : D unit :=
  fun s =>
    ({| cachedPipeline := cachedPipeline s;
        cachedResource := cachedResource s;
        cachedResourceType := cachedResourceType s;
        cachedPrototype := Some p; calls := calls s |}, Ok tt).

Section Delegate.
Variable w : World.
Variable plan : CheckPlan.

Definition pipeline : D db.Pipeline :=
  cached ← read cachedPipeline;
  match cached with
  | Some p => mret p
  | None =>
      '(pipeline, found, err) ← dcall EvBuildPipeline (build_Pipeline w);
      match err with
      | Some e => dfail (ErrWrap "get build pipeline" e)
      | None =>
          if negb found then dfail (ErrNew "pipeline not found")
          else
            set_cachedPipeline pipeline;;
            mret pipeline
      end
  end.

(** One of [resource], [resourceType] and [prototype]; the three differ
    in the name they look up, the field they cache in, the call they
    make on the pipeline and the words of their errors.  The result is
    [None] for [(nil, false, nil)] and [Some x] for [(x, true, nil)]. *)
Definition lookup {A} (name : string) (cachedField : State -> option A)
    (ev : db.Pipeline -> string -> Event)
    (ask : list Event -> db.Pipeline -> string -> A * bool * option error)
    (kind : string) (set_cached : A -> D unit) : D (option A) :=
  if String.eqb name "" then mret None
  else
    cached ← read cachedField;
    match cached with
    | Some x => mret (Some x)
    | None =>
        pipeline ← pipeline;
        '(x, found, err) ← dcall (ev pipeline name)
                             (fun tr => ask tr pipeline name);
        match err with
        | Some e => dfail (ErrWrap ("get pipeline " +:+ kind) e)
        | None =>
            if negb found then
              dfail (ErrNew (kind +:+ " '" +:+ name +:+ "' deleted"))
            else
              set_cached x;;
              mret (Some x)
        end
    end.

Definition resource : D (option db.Resource) :=
  lookup (Resource plan) cachedResource EvPipelineResource
    (pipeline_Resource w) "resource" set_cachedResource.

Definition resourceType : D (option db.ResourceType) :=
  lookup (ResourceType plan) cachedResourceType EvPipelineResourceType
    (pipeline_ResourceType w) "resource type" set_cachedResourceType.

Definition prototype : D (option db.Prototype) :=
  lookup (Prototype plan) cachedPrototype EvPipelinePrototype
    (pipeline_Prototype w) "prototype" set_cachedPrototype.

(** [err := x.SetResourceConfigScope(scope)] when [found], with its error
    wrapped. *)
Definition point {A} (found : option A) (ev : A -> Event)
    (set : list Event -> A -> option error) (msg : string) : D unit :=
  match found with
  | Some x =>
      err ← dcall (ev x) (fun tr => set tr x);
      match err with
      | Some e => dfail (ErrWrap msg e)
      | None => mret tt
      end
  | None => mret tt
  end.

Definition PointToCheckedConfig (scope : db.ResourceConfigScope) : D unit :=
  found ← dwrap "get resource" resource;
  point found (fun r => EvResourceSetResourceConfigScope r scope)
    (fun tr r => resource_SetResourceConfigScope w tr r scope)
    "set resource scope";;
  found ← dwrap "get resource type" resourceType;
  point found (fun t => EvResourceTypeSetResourceConfigScope t scope)
    (fun tr t => resourceType_SetResourceConfigScope w tr t scope)
    "set resource type scope";;
  found ← dwrap "get prototype" prototype;
  point found (fun p => EvPrototypeSetResourceConfigScope p scope)
    (fun tr p => prototype_SetResourceConfigScope w tr p scope)
    "set prototype scope";;
  mret tt.

Definition FindOrCreateScope (config : db.ResourceConfig)
    : D db.ResourceConfigScope :=
  resource ← dwrap "get resource" resource;
  '(scope, err) ← dcall (EvConfigFindOrCreateScope config resource)
                    (fun tr => config_FindOrCreateScope w tr config resource);
  match err with
  | Some e => dfail (ErrWrap "find or create scope" e)
  | None => mret scope
  end.

End Delegate.

(** The calls that point something to a scope. *)
Definition sets_scope (ev : Event) : bool :=
  match ev with
  | EvResourceSetResourceConfigScope _ _
  | EvResourceTypeSetResourceConfigScope _ _
  | EvPrototypeSetResourceConfigScope _ _ => true
  | _ => false
  end.

(** What a check plan names of a delegate's cache, as the calls that
    point it to [scope]: the resource, the resource type, the
    prototype. *)
Definition named {A} (name : string) (cached : option A)
    (ev : A -> Event) : list Event :=
  if String.eqb name "" then []
  else match cached with Some x => [ev x] | None => [] end.

Definition targets (plan : CheckPlan) (scope : db.ResourceConfigScope)
    (s : State) : list Event :=
  named (Resource plan) (cachedResource s)
    (fun r => EvResourceSetResourceConfigScope r scope)
  ++ named (ResourceType plan) (cachedResourceType s)
       (fun t => EvResourceTypeSetResourceConfigScope t scope)
  ++ named (Prototype plan) (cachedPrototype s)
       (fun p => EvPrototypeSetResourceConfigScope p scope).

(** Between two states of a delegate the build was asked for its
    pipeline at most once, not at all when the pipeline was cached, and,
    where [ok], only if the pipeline is cached afterwards. *)
Definition asked_once (ok : bool) (s s' : State) : Prop :=
  exists l, calls s' = calls s ++ l
    /\ (count_occ Event_eq_dec l EvBuildPipeline <= 1)%nat
    /\ (forall p, cachedPipeline s = Some p ->
          cachedPipeline s' = Some p
          /\ count_occ Event_eq_dec l EvBuildPipeline = 0%nat)
    /\ (ok = true -> cachedPipeline s' = None ->
          count_occ Event_eq_dec l EvBuildPipeline = 0%nat).

Definition is_Ok {A} (r : res A) : bool :=
  match r with Ok _ => true | _ => false end.

Definition asks_once {A} (m : D A) : Prop :=
  forall s s' r, m s = (s', r) -> asked_once (is_Ok r) s s'.

(** A lookup that remembers what it found and nothing else: run twice
    in a row, the second run makes no call exactly when the first
    returned no error, and then returns the same. *)
Definition remembers {A} (m : D A) : Prop :=
  forall s s1 s2 r1 r2, m s = (s1, r1) -> m s1 = (s2, r2) ->
    (calls s2 = calls s1 <-> is_Ok r1 = true)
    /\ (is_Ok r1 = true -> s2 = s1 /\ r2 = r1).

End EngineDelegate.

(** ** package exec: what a get step leaves behind *)
Module ExecRuns.
Import Go Exec.

(** The calls [GetStep.run] makes once the [in] script has exited. *)
Definition after_exit (ev : Event) : bool :=
  match ev with
  | EvRegisterArtifact _ _ | EvUpdateVersion _ _ | EvFinished _ _ => true
  | _ => false
  end.

(** The call [ev] of a run of [step] returned the error [e]. *)
Definition returned (w : World) (step : GetStep) (ev : Event) (e : error)
    : Prop :=
  match ev with
  | EvEvaluateSource =>
      (Source_Evaluate w (Source (plan step))).2 = Some e
  | EvEvaluateParams =>
      (Params_Evaluate w (Params (plan step))).2 = Some e
  | EvEvaluateResourceTypes =>
      (VersionedResourceTypes_Evaluate w
         (VersionedResourceTypes (plan step))).2 = Some e
  | EvVersion => (VersionSource_Version w (plan step)).2 = Some e
  | EvFindOrCreateResourceCache =>
      exists source params resourceTypes version,
        Source_Evaluate w (Source (plan step)) = (source, None)
        /\ Params_Evaluate w (Params (plan step)) = (params, None)
        /\ VersionedResourceTypes_Evaluate w
             (VersionedResourceTypes (plan step)) = (resourceTypes, None)
        /\ VersionSource_Version w (plan step) = (version, None)
        /\ (FindOrCreateResourceCache w (BuildID (metadata step))
              (Type_ (plan step)) version source params resourceTypes).2
           = Some e
  | EvRunGetStep args => (RunGetStep w args).2 = Some e
  | _ => False
  end.

End ExecRuns.

(** ** package gardenruntime: images made of a previous step's artifact *)
Module GardenArtifacts.
Import Go GoLib Gardenruntime.

(** An image spec with the fields the fetcher reads after [ImageArtifact]
    replaced. *)
Definition with_lower (imageSpec : ImageSpec.t) (resourceType url : string)
    : ImageSpec.t :=
  {| ImageSpec.ImageArtifact := ImageSpec.ImageArtifact imageSpec;
     ImageSpec.ResourceType := resourceType;
     ImageSpec.ImageURL := url;
     ImageSpec.Privileged := ImageSpec.Privileged imageSpec |}.

Definition with_Privileged (imageSpec : ImageSpec.t) (privileged : bool)
    : ImageSpec.t :=
  {| ImageSpec.ImageArtifact := ImageSpec.ImageArtifact imageSpec;
     ImageSpec.ResourceType := ImageSpec.ResourceType imageSpec;
     ImageSpec.ImageURL := ImageSpec.ImageURL imageSpec;
     ImageSpec.Privileged := privileged |}.

(** The image both artifact paths return. *)
Definition artifact_image (privileged : bool) (metadata : ImageMetadata)
    (imageVolume : Volume) : FetchedImage.t :=
  {| FetchedImage.Metadata := metadata;
     FetchedImage.Version := ∅;
     FetchedImage.URL :=
       URL_String {| Scheme := RawRootFSScheme;
                     Path := Join [VolumePath imageVolume; "rootfs"] |};
     FetchedImage.Privileged := privileged |}.

End GardenArtifacts.

(** ** package builder: plan trees and the steps asked of the factory *)
Module BuilderTrees.
Import Go Builder.

(** The plans directly under a plan, whichever variants are set. *)
Definition hooked (o : option HookPlan) : list Plan :=
  from_option (fun p => [Step p; Next p]) [] o.

Definition subplans (plan : Plan) : list Plan :=
  default [] (Aggregate plan)
  ++ from_option Steps [] (InParallel plan)
  ++ from_option (fun p => map ScopedStep (AcrossSteps p)) [] (Across plan)
  ++ default [] (Do plan)
  ++ from_option (fun p => [TimeoutStep p]) [] (Timeout plan)
  ++ from_option (fun p => [TryStep p]) [] (Try plan)
  ++ hooked (OnAbort plan) ++ hooked (OnError plan)
  ++ hooked (OnSuccess plan) ++ hooked (OnFailure plan)
  ++ hooked (Ensure plan)
  ++ default [] (Retry plan).

(** How deep the plans under a plan go. *)
Fixpoint depth (plan : Plan) : nat :=
  let hook o :=
    match o with
    | Some p => [depth (Step p); depth (Next p)]
    | None => []
    end in
  S (max_list
       (match Aggregate plan with Some l => map depth l | None => [] end
        ++ match InParallel plan with
           | Some p => map depth (Steps p)
           | None => []
           end
        ++ match Across plan with
           | Some p => map (fun s => depth (ScopedStep s)) (AcrossSteps p)
           | None => []
           end
        ++ match Do plan with Some l => map depth l | None => [] end
        ++ match Timeout plan with
           | Some p => [depth (TimeoutStep p)]
           | None => []
           end
        ++ match Try plan with Some p => [depth (TryStep p)] | None => [] end
        ++ hook (OnAbort plan) ++ hook (OnError plan)
        ++ hook (OnSuccess plan) ++ hook (OnFailure plan)
        ++ hook (Ensure plan)
        ++ match Retry plan with Some l => map depth l | None => [] end)).

(** [f] holds of a plan and of every plan under it. *)
Inductive throughout (f : Plan -> bool) (plan : Plan) : Prop :=
| throughout_intro :
    f plan = true ->
    (forall sub, sub ∈ subplans plan -> throughout f sub) ->
    throughout f plan.

Definition no_Across (plan : Plan) : bool :=
  match Across plan with Some _ => false | None => true end.

Definition no_Retry (plan : Plan) : bool :=
  match Retry plan with Some _ => false | None => true end.

(** The steps asked of the step factory in a step tree, first leaf
    first. *)
Fixpoint leaves (step : exec.Step) : list exec.Step :=
  match step with
  | exec.IdentityStep => []
  | exec.AggregateStep steps => concat (map leaves steps)
  | exec.InParallel steps _ _ => concat (map leaves steps)
  | exec.Across step _ _ _ => leaves step
  | exec.OnSuccess step next => leaves step ++ leaves next
  | exec.OnFailure step next => leaves step ++ leaves next
  | exec.OnAbort step next => leaves step ++ leaves next
  | exec.OnError step next => leaves step ++ leaves next
  | exec.Ensure step next => leaves step ++ leaves next
  | exec.Timeout step _ => leaves step
  | exec.Try step => leaves step
  | exec.Retry steps => concat (map leaves steps)
  | leaf => [leaf]
  end.

(** A step as the leaf builders ask for it: with the build's step
    metadata, for the delegate of the plan handed over, and, where a
    container is made, with the container metadata of the build, the
    name of the variant and the attempts of that same plan. *)
Definition well_made (externalURL : string) (build : Build)
    (leaf : exec.Step) : Prop :=
  let made plan metadata delegateFor :=
    metadata = stepMetadata build externalURL /\ delegateFor = ID plan in
  let contained plan variant containerType cm :=
    exists ofVariant,
      variant plan = Some ofVariant
      /\ cm = containerMetadata build containerType (Name ofVariant)
                (Attempts plan) in
  match leaf with
  | exec.GetStep plan metadata cm delegateFor =>
      made plan metadata delegateFor
      /\ contained plan Get ContainerTypeGet cm
  | exec.PutStep plan metadata cm delegateFor =>
      made plan metadata delegateFor
      /\ contained plan Put ContainerTypePut cm
  | exec.TaskStep plan metadata cm delegateFor =>
      made plan metadata delegateFor
      /\ contained plan Task ContainerTypeTask cm
  | exec.SetPipelineStep plan metadata delegateFor =>
      made plan metadata delegateFor
  | exec.LoadVarStep plan metadata delegateFor =>
      made plan metadata delegateFor
  | exec.ArtifactInputStep _ build' => build' = build
  | exec.ArtifactOutputStep _ build' => build' = build
  | _ => False
  end.

(** The plan a leaf builder handed to the step factory. *)
Definition handed_plan (leaf : exec.Step) : option Plan :=
  match leaf with
  | exec.GetStep plan _ _ _ | exec.PutStep plan _ _ _
  | exec.TaskStep plan _ _ _ | exec.SetPipelineStep plan _ _
  | exec.LoadVarStep plan _ _ | exec.ArtifactInputStep plan _
  | exec.ArtifactOutputStep plan _ => Some plan
  | _ => None
  end.

(** The attempts the builder of [plan], built with [attempts], may build
    the plan [sub] under it with: its own; for a retry, its own followed
    by the number of the attempt; for an across, those the sub-plan came
    with. *)
Inductive handed (plan : Plan) (attempts : list Z) (sub : Plan)
    : list Z -> Prop :=
| handed_same : handed plan attempts sub attempts
| handed_retry (index : nat) :
    is_Some (Retry plan) ->
    handed plan attempts sub (attempts ++ [Z.of_nat index + 1])
| handed_across :
    is_Some (Across plan) -> handed plan attempts sub (Attempts sub).

(** The steps [n] levels of [InParallel] down. *)
Fixpoint unnest (n : nat) (step : exec.Step) : list exec.Step :=
  match n with
  | O => [step]
  | S n' =>
      match step with
      | exec.InParallel steps _ _ => concat (map (unnest n') steps)
      | _ => []
      end
  end.

(** How many combinations of values the vars [rest] have: the
    [stepsPerValue] of the var before them. *)
Definition combinations (rest : list AcrossVar) : nat :=
  fold_left (fun n v' => (n * length (Values v'))%nat) rest 1%nat.

(** A step that is one [InParallel] per var of [rest], each limited by
    the [MaxInFlight] of its var and all with the same [failFast]. *)
Fixpoint levelled (failFast : bool) (rest : list AcrossVar)
    (step : exec.Step) : Prop :=
  match rest with
  | [] => True
  | v :: rest' =>
      exists steps,
        step = exec.InParallel steps (MaxInFlight v) failFast
        /\ Forall (levelled failFast rest') steps
  end.

End BuilderTrees.

Module EngineRoundsExamples.
Import Go Engine EngineExamples.

(** The last check ran from 70 to 80; the lock is taken for the first two
    attempts and free at the third. *)
Definition busy_twice : World :=
  {| limiter_Wait := fun _ => None;
     scope_LastCheck := fun _ =>
       ({| Succeeded := true; StartTime := 70; EndTime := 80 |}, None);
     clock_Now := fun _ => 100;
     scope_AcquireResourceCheckingLock := fun tr =>
       if (count_occ Event_eq_dec tr EvAcquireResourceCheckingLock <? 2)%nat
       then (NilLock, false, None)
       else (ScopeLock 5, true, None);
     ctx_Done := fun _ => None |}.

(** The lock is taken and the build is aborted during the wait. *)
Definition aborted : World :=
  {| limiter_Wait := fun _ => None;
     scope_LastCheck := fun _ =>
       ({| Succeeded := true; StartTime := 70; EndTime := 80 |}, None);
     clock_Now := fun _ => 100;
     scope_AcquireResourceCheckingLock := fun _ => (NilLock, false, None);
     ctx_Done := fun _ => Some (ErrVar "context.Canceled") |}.

(** The clock reads exactly the end of the last check plus the interval
    of [check_plan], and the last check began when [a_build] was created
    and ended when it started. *)
Definition on_the_dot : World :=
  {| limiter_Wait := fun _ => None;
     scope_LastCheck := fun _ =>
       ({| Succeeded := true; StartTime := 50; EndTime := 60 |}, None);
     clock_Now := fun _ => 70;
     scope_AcquireResourceCheckingLock := fun _ => (ScopeLock 6, true, None);
     ctx_Done := fun _ => None |}.

End EngineRoundsExamples.

Module EngineDelegateExamples.
Import Go Engine EngineDelegate.
#[local] Open Scope nat_scope.

(** A check of the resource "repo" of type "git". *)
Definition repo_check : CheckPlan :=
  {| Name := "check"; Resource := "repo"; ResourceType := "git";
     Prototype := "";
     Interval :=
       {| CheckInterval.Interval := 10%Z; CheckInterval.Never := false |};
     SkipInterval := false; FromVersion := None |}.

(** The build is of pipeline 1, which has whatever resource (10),
    resource type (20) and prototype (30) is asked for; scope 7 is found
    for every config, and every call succeeds. *)
Definition all_found : World :=
  {| build_Pipeline := fun _ => (1, true, None);
     pipeline_Resource := fun _ _ _ => (10, true, None);
     pipeline_ResourceType := fun _ _ _ => (20, true, None);
     pipeline_Prototype := fun _ _ _ => (30, true, None);
     resource_SetResourceConfigScope := fun _ _ _ => None;
     resourceType_SetResourceConfigScope := fun _ _ _ => None;
     prototype_SetResourceConfigScope := fun _ _ _ => None;
     config_FindOrCreateScope := fun _ _ _ => (7, None) |}.

(** The same, but the pipeline has no resource types any more. *)
Definition type_deleted : World :=
  {| build_Pipeline := fun _ => (1, true, None);
     pipeline_Resource := fun _ _ _ => (10, true, None);
     pipeline_ResourceType := fun _ _ _ => (0, false, None);
     pipeline_Prototype := fun _ _ _ => (30, true, None);
     resource_SetResourceConfigScope := fun _ _ _ => None;
     resourceType_SetResourceConfigScope := fun _ _ _ => None;
     prototype_SetResourceConfigScope := fun _ _ _ => None;
     config_FindOrCreateScope := fun _ _ _ => (7, None) |}.

(** The delegate after [PointToCheckedConfig] of [repo_check] in
    [all_found]. *)
Definition pointed : State :=
  {| cachedPipeline := Some 1; cachedResource := Some 10;
     cachedResourceType := Some 20; cachedPrototype := None;
     calls :=
       [EvBuildPipeline; EvPipelineResource 1 "repo";
        EvResourceSetResourceConfigScope 10 7;
        EvPipelineResourceType 1 "git";
        EvResourceTypeSetResourceConfigScope 20 7] |}.

(** The delegate after [PointToCheckedConfig] of [repo_check] in
    [type_deleted]. *)
Definition half_pointed : State :=
  {| cachedPipeline := Some 1; cachedResource := Some 10;
     cachedResourceType := None; cachedPrototype := None;
     calls :=
       [EvBuildPipeline; EvPipelineResource 1 "repo";
        EvResourceSetResourceConfigScope 10 7;
        EvPipelineResourceType 1 "git"] |}.

(** The delegate after [resource] of [repo_check] in [all_found]. *)
Definition looked_up : State :=
  {| cachedPipeline := Some 1; cachedResource := Some 10;
     cachedResourceType := None; cachedPrototype := None;
     calls := [EvBuildPipeline; EvPipelineResource 1 "repo"] |}.

End EngineDelegateExamples.

Module ExecRunsExamples.
Import Go Exec ExecExamples.

(** A world in which the version to get cannot be determined. *)
Definition no_version : World :=
  {| Source_Evaluate := fun s => (s, None);
     Params_Evaluate := fun p => (p, None);
     VersionedResourceTypes_Evaluate := fun t => (t, None);
     VersionSource_Version := fun _ => (∅, Some (ErrVar "ErrInputNotFound"));
     StepMetadata_Env := fun _ => [];
     ResourcesDir := fun d => "/tmp/build/" +:+ d;
     FindOrCreateResourceCache := fun _ _ _ _ _ _ => (1%nat, None);
     RunGetStep := fun _ => (fetched 0, None) |}.

(** A get step of the resource "repo", and what its run hands to the
    worker client in [exits_with 0]. *)
Definition get_repo : GetStep :=
  NewGetStep "g" (get_plan "repo") step_metadata "m".

Definition get_repo_args : RunGetStepArgs :=
  runGetStepArgs (exits_with 0) get_repo
    {[ "uri" := "https://example.com/repo.git" ]} ∅ []
    {[ "ref" := "abc" ]} 1%nat.

End ExecRunsExamples.

Module GardenArtifactsExamples.
Import Go GoLib Gardenruntime GardenExamples.

Definition artifact_volume (workerName : string) : Volume :=
  {| Handle := "artifact"; VolumePath := "/vol/live/artifact/volume";
     WorkerName := workerName |}.

Definition streamed_volume : Volume :=
  {| Handle := "streamed"; VolumePath := "/vol/live/streamed/volume";
     WorkerName := "w1" |}.

(** Worker "w1" when the artifact's volume is on worker [workerName];
    [metadata.json] is there exactly when [withMetadata]. *)
Definition w1_artifact_on (workerName : string) (withMetadata : bool)
    : Worker :=
  {| Name := "w1";
     ResourceTypes := [git_type];
     findVolumeForArtifact :=
       fun _ _ => (artifact_volume workerName, true, None);
     findOrCreateCOWVolumeForContainer :=
       fun _ _ _ _ _ => (cow_volume, None);
     findOrCreateVolumeForStreaming := fun _ _ _ _ => (streamed_volume, None);
     findOrCreateVolumeForBaseResourceType :=
       fun _ _ _ => (import_volume, None);
     streamer_Stream := fun _ _ => None;
     streamer_StreamFile :=
       fun _ _ =>
         if withMetadata then ("{}", None)
         else ("", Some (ErrVar "ErrFileNotFound"));
     json_Decode := fun _ => ({| Env := []; User := "" |}, None) |}.

Definition artifact_spec (privileged : bool) : ImageSpec.t :=
  {| ImageSpec.ImageArtifact := Some (ArtifactHandle "artifact");
     ImageSpec.ResourceType := "git";
     ImageSpec.ImageURL := "docker:///busybox";
     ImageSpec.Privileged := privileged |}.

End GardenArtifactsExamples.

Module BuilderTreesExamples.
Import Go Builder BuilderExamples BuilderTrees.

(** The step built for the second attempt of [three_attempts]. *)
Definition second_attempt : exec.Step :=
  buildTaskStep "http://ci" (a_build three_attempts)
    (withAttempts [2] (task "a2" "t")) {| Name := "t" |}.

(** Two vars of two values each, and the four steps built for their
    combinations, told apart by their durations. *)
Definition two_by_two : list AcrossVar :=
  [{| Var := "os"; Values := ["linux"; "darwin"]; MaxInFlight := 1 |};
   {| Var := "arch"; Values := ["amd64"; "arm64"]; MaxInFlight := 2 |}].

Definition combination (duration : string) : exec.Step :=
  exec.Timeout exec.IdentityStep duration.

Definition four_built : list (option exec.Step * list string) :=
  [(Some (combination "1"), ["linux"; "amd64"]);
   (Some (combination "2"), ["linux"; "arm64"]);
   (Some (combination "3"), ["darwin"; "amd64"]);
   (Some (combination "4"), ["darwin"; "arm64"])].

End BuilderTreesExamples.

(** * Properties *)

(** ** Traces of monadic code *)
Section Emits.
Import Go.
Context {E : Type}.

Lemma emits_ret {A} (P : E -> Prop) (a : A) : emits P (ret a).
Proof. intros tr. exists []. split; [by rewrite app_nil_r | constructor]. Qed.

Lemma emits_mret {A} (P : E -> Prop) (a : A) : emits P (mret a : M E A).
Proof. apply emits_ret. Qed.

Lemma emits_fail {A} (P : E -> Prop) e : emits P (fail e : M E A).
Proof. intros tr. exists []. split; [by rewrite app_nil_r | constructor]. Qed.

Lemma emits_diverge {A} (P : E -> Prop) : emits P (diverge : M E A).
Proof. intros tr. exists []. split; [by rewrite app_nil_r | constructor]. Qed.

Lemma emits_call {A} (P : E -> Prop) ev (f : list E -> A) :
  P ev -> emits P (call ev f).
Proof. intros H tr. exists [ev]. split; [done | by repeat constructor]. Qed.

Lemma emits_check {A} (P : E -> Prop) (r : A * option error) :
  emits P (check r).
Proof.
  destruct r as [a [e|]]; [apply emits_fail | apply emits_ret].
Qed.

Lemma emits_wrap {A} (P : E -> Prop) msg (m : M E A) :
  emits P m -> emits P (wrap msg m).
Proof.
  intros H tr. destruct (H tr) as (sfx & Heq & HP). exists sfx.
  split; [|done]. unfold wrap. by destruct (m tr) as [tr' [a|e|]].
Qed.

Lemma emits_bind {A B} (P : E -> Prop) (m : M E A) (k : A -> M E B) :
  emits P m -> (forall a, emits P (k a)) -> emits P (m ≫= k).
Proof.
  intros Hm Hk tr. destruct (Hm tr) as (s1 & Heq & HP).
  unfold mbind, M_bind, bind. destruct (m tr) as [tr' [a|e|]]; simpl in *.
  - subst tr'. destruct (Hk a (tr ++ s1)) as (s2 & Heq2 & HP2).
    exists (s1 ++ s2). rewrite Heq2, app_assoc. split; [done|].
    by apply Forall_app.
  - by exists s1.
  - by exists s1.
Qed.

Lemma emits_not_elem {A} (m : M E A) ev :
  emits (fun e => e <> ev) m -> ev ∉ (m []).1.
Proof.
  intros H. destruct (H []) as (sfx & -> & HP). simpl.
  rewrite Forall_forall in HP. intros Hin. by apply (HP ev).
Qed.
End Emits.

Ltac emits_step :=
  first
    [ apply emits_bind; [|intros ?]
    | apply emits_call; try done
    | apply emits_wrap
    | apply emits_check
    | apply emits_ret
    | apply emits_mret
    | apply emits_fail
    | apply emits_diverge
    | match goal with
      | |- Go.emits _ (if ?b then _ else _) => destruct b
      | |- Go.emits _ (match ?x with _ => _ end) => destruct x
      end ].

Section EngineFacts.
Import Go Engine.
Variable IsPeriodic : CheckPlan -> bool.
Variable w : World.
Variable d : checkDelegate.

Lemma acquire_and_select_emits (P : Event -> Prop) :
  P EvAcquireResourceCheckingLock -> P EvSelect ->
  emits P (acquire_and_select w).
Proof. intros. unfold acquire_and_select. repeat emits_step. Qed.

Lemma loop_body_emits (P : Event -> Prop) :
  P EvLastCheck -> P EvNow ->
  P EvAcquireResourceCheckingLock -> P EvSelect ->
  emits P (loop_body w d).
Proof.
  intros. unfold loop_body.
  repeat first [ by apply acquire_and_select_emits | emits_step ].
Qed.

Lemma loop_emits (P : Event -> Prop) fuel :
  P EvLastCheck -> P EvNow ->
  P EvAcquireResourceCheckingLock -> P EvSelect ->
  emits P (loop w d fuel).
Proof.
  intros. induction fuel as [|fuel IH]; simpl.
  - apply emits_diverge.
  - apply emits_bind; [by apply loop_body_emits|].
    intros []; first [ done | apply emits_mret ].
Qed.

Lemma lock_or_reuse_emits (P : Event -> Prop) fuel :
  P EvLastCheck -> P EvNow ->
  P EvAcquireResourceCheckingLock -> P EvSelect ->
  emits P (lock_or_reuse IsPeriodic w d fuel).
Proof.
  intros. unfold lock_or_reuse.
  destruct (IsPeriodic (plan d)).
  - apply emits_bind; [by apply loop_emits|]. intros []; emits_step.
  - repeat emits_step.
Qed.

#[local] Abbreviation EvAcquire := EvAcquireResourceCheckingLock.

Lemma acquire_and_select_eq tr :
  acquire_and_select w tr =
    match scope_AcquireResourceCheckingLock w tr with
    | (_, _, Some e) => (tr ++ [EvAcquire], Err (ErrWrap "acquire lock" e))
    | (l, true, None) => (tr ++ [EvAcquire], Ok (Break l))
    | (_, false, None) =>
        (tr ++ [EvAcquire; EvSelect],
         match ctx_Done w (tr ++ [EvAcquire]) with
         | Some e => Err e
         | None => Ok Continue
         end)
    end.
Proof.
  cbv [acquire_and_select mbind M_bind bind call check wrap fail ret].
  destruct (scope_AcquireResourceCheckingLock w tr) as [[l [|]] [e|]];
    simpl; try done.
  rewrite <- app_assoc. simpl.
  by destruct (ctx_Done w (tr ++ [EvAcquire])).
Qed.

Lemma loop_body_eq tr :
  loop_body w d tr =
    match scope_LastCheck w tr with
    | (_, Some e) => (tr ++ [EvLastCheck], Err e)
    | (lc, None) =>
        if SkipInterval (plan d) then
          if manual_reuses d lc
          then (tr ++ [EvLastCheck], Ok (Return NilLock false))
          else acquire_and_select w (tr ++ [EvLastCheck])
        else
          if gate_rejects d (clock_Now w (tr ++ [EvLastCheck])) lc
          then (tr ++ [EvLastCheck; EvNow], Ok (Return NilLock false))
          else acquire_and_select w (tr ++ [EvLastCheck; EvNow])
    end.
Proof.
  unfold loop_body.
  cbv [mbind M_bind bind call check fail ret].
  destruct (scope_LastCheck w tr) as [lc [e|]]; simpl; [done|].
  destruct (SkipInterval (plan d)).
  - by destruct (manual_reuses d lc).
  - rewrite <- app_assoc. simpl.
    by destruct (gate_rejects d (clock_Now w (tr ++ [EvLastCheck])) lc).
Qed.

Lemma loop_S fuel tr :
  loop w d (S fuel) tr =
    match loop_body w d tr with
    | (tr', Ok Continue) => loop w d fuel tr'
    | r => r
    end.
Proof.
  simpl. cbv [mbind M_bind bind].
  by destruct (loop_body w d tr) as [tr' [[| |]| |]].
Qed.

Lemma loop_body_cases tr :
  loop_body w d tr =
    match scope_LastCheck w tr with
    | (_, Some e) => (tr ++ [EvLastCheck], Err e)
    | (lc, None) =>
        if skips w d tr lc then (tr ++ reads d, Ok (Return NilLock false))
        else acquire_and_select w (tr ++ reads d)
    end.
Proof.
  rewrite loop_body_eq. unfold skips, reads.
  destruct (scope_LastCheck w tr) as [lc [e|]]; [done|].
  by destruct (SkipInterval (plan d)).
Qed.

(** Every way out of the lock loop with a lock: the last iteration read
    [LastCheck], passed its test, and the very next call acquired. *)
Lemma loop_Break fuel : forall tr tr' l,
  loop w d fuel tr = (tr', Ok (Break l)) ->
  exists tr0 lc,
    scope_LastCheck w tr0 = (lc, None)
    /\ skips w d tr0 lc = false
    /\ scope_AcquireResourceCheckingLock w (tr0 ++ reads d) = (l, true, None)
    /\ tr' = (tr0 ++ reads d) ++ [EvAcquire].
Proof.
  induction fuel as [|fuel IH]; intros tr tr' l; [done|].
  rewrite loop_S, loop_body_cases.
  destruct (scope_LastCheck w tr) as [lc [e|]] eqn:Hlc; [done|].
  destruct (skips w d tr lc) eqn:Hskip; [done|].
  rewrite acquire_and_select_eq.
  destruct (scope_AcquireResourceCheckingLock w (tr ++ reads d))
    as [[l' [|]] [e|]] eqn:Hacq; try done.
  - intros [= <- <-]. by exists tr, lc.
  - destruct (ctx_Done w _); [done|]. apply IH.
Qed.

(** Every way out of the lock loop without running: the last iteration
    read [LastCheck] and its test said not to run; no lock is held. *)
Lemma loop_Return fuel : forall tr tr' l run,
  loop w d fuel tr = (tr', Ok (Return l run)) ->
  l = NilLock /\ run = false
  /\ exists tr0 lc,
       scope_LastCheck w tr0 = (lc, None)
       /\ skips w d tr0 lc = true
       /\ tr' = tr0 ++ reads d.
Proof.
  induction fuel as [|fuel IH]; intros tr tr' l run; [done|].
  rewrite loop_S, loop_body_cases.
  destruct (scope_LastCheck w tr) as [lc [e|]] eqn:Hlc; [done|].
  destruct (skips w d tr lc) eqn:Hskip.
  - intros [= <- <- <-]. repeat split. by exists tr, lc.
  - rewrite acquire_and_select_eq.
    destruct (scope_AcquireResourceCheckingLock w (tr ++ reads d))
      as [[l' [|]] [e|]] eqn:Hacq; try done.
    destruct (ctx_Done w _); [done|]. apply IH.
Qed.

Lemma loop_Continue fuel : forall tr tr',
  loop w d fuel tr <> (tr', Ok Continue).
Proof.
  induction fuel as [|fuel IH]; intros tr tr'; [done|].
  rewrite loop_S, loop_body_cases.
  destruct (scope_LastCheck w tr) as [lc [e|]] eqn:Hlc; [done|].
  destruct (skips w d tr lc) eqn:Hskip; [done|].
  rewrite acquire_and_select_eq.
  destruct (scope_AcquireResourceCheckingLock w (tr ++ reads d))
    as [[l' [|]] [e|]] eqn:Hacq; try done.
  destruct (ctx_Done w _); [done|]. apply IH.
Qed.

(** The first iteration settles the loop unless the lock is busy. *)
Lemma loop_first fuel tr lc :
  scope_LastCheck w tr = (lc, None) ->
  loop w d (S fuel) tr =
    if skips w d tr lc then (tr ++ reads d, Ok (Return NilLock false))
    else
      match scope_AcquireResourceCheckingLock w (tr ++ reads d) with
      | (_, _, Some e) =>
          ((tr ++ reads d) ++ [EvAcquire], Err (ErrWrap "acquire lock" e))
      | (l, true, None) => ((tr ++ reads d) ++ [EvAcquire], Ok (Break l))
      | (_, false, None) =>
          match ctx_Done w ((tr ++ reads d) ++ [EvAcquire]) with
          | Some e => ((tr ++ reads d) ++ [EvAcquire; EvSelect], Err e)
          | None => loop w d fuel ((tr ++ reads d) ++ [EvAcquire; EvSelect])
          end
      end.
Proof.
  intros Hlc. rewrite loop_S, loop_body_cases, Hlc.
  destruct (skips w d tr lc); [done|].
  rewrite acquire_and_select_eq.
  destruct (scope_AcquireResourceCheckingLock w (tr ++ reads d))
    as [[l' [|]] [e|]]; try done.
  by destruct (ctx_Done w _).
Qed.

Lemma limited_iff :
  limited d = true
  <-> SkipInterval (plan d) = false
      /\ CheckInterval.Never (Interval (plan d)) = false
      /\ Resource (plan d) <> "".
Proof.
  unfold limited.
  destruct (SkipInterval (plan d)), (CheckInterval.Never (Interval (plan d))),
    (String.eqb_spec (Resource (plan d)) ""); simpl;
    split; first [ done | by intros (? & ? & ?) ].
Qed.

Lemma prelude_eq :
  prelude w d [] =
    (prelude_calls d,
     if limited d then
       match limiter_Wait w [] with
       | Some e => Err (ErrWrap "rate limit" e)
       | None => Ok true
       end
     else Ok (SkipInterval (plan d)
              || negb (CheckInterval.Never (Interval (plan d))))).
Proof.
  unfold prelude, prelude_calls, limited.
  destruct (SkipInterval (plan d)); [done|].
  destruct (CheckInterval.Never (Interval (plan d))); [done|]. simpl.
  destruct (String.eqb (Resource (plan d)) ""); [done|]. simpl.
  cbv [mbind M_bind bind call check wrap fail ret]. simpl.
  by destruct (limiter_Wait w []).
Qed.

Lemma WaitToRun_eq fuel :
  WaitToRun IsPeriodic w d fuel [] =
    if limited d then
      match limiter_Wait w [] with
      | Some e => ([EvLimiterWait], Err (ErrWrap "rate limit" e))
      | None => lock_or_reuse IsPeriodic w d fuel [EvLimiterWait]
      end
    else if SkipInterval (plan d)
            || negb (CheckInterval.Never (Interval (plan d)))
    then lock_or_reuse IsPeriodic w d fuel []
    else ([], Ok (NilLock, false)).
Proof.
  unfold WaitToRun, mbind, M_bind, bind. rewrite prelude_eq.
  unfold prelude_calls. destruct (limited d).
  - by destruct (limiter_Wait w []).
  - by destruct (SkipInterval (plan d) || negb _).
Qed.

(** C4. [WaitToRun] calls [limiter.Wait] exactly for the checks that are
    not manually triggered ([SkipInterval = false]), not [Never], and
    name a resource ([Resource <> ""]); whatever the world does and
    however long the lock loop runs. *)
Theorem WaitToRun_limiter_iff (fuel : nat) :
  EvLimiterWait ∈ (WaitToRun IsPeriodic w d fuel []).1
  <-> SkipInterval (plan d) = false
      /\ CheckInterval.Never (Interval (plan d)) = false
      /\ Resource (plan d) <> "".
Proof.
  rewrite <- limited_iff, WaitToRun_eq.
  destruct (limited d); split; try done.
  - intros _. destruct (limiter_Wait w []); [set_solver|].
    destruct (lock_or_reuse_emits (fun _ => True) fuel I I I I
                [EvLimiterWait]) as (sfx & -> & _).
    set_solver.
  - intros Hin. exfalso. revert Hin.
    destruct (SkipInterval (plan d) || negb _).
    + by apply emits_not_elem, lock_or_reuse_emits.
    + apply not_elem_of_nil.
Qed.

(** An answer of the lock loop stays whatever further iterations are
    allowed. *)
Lemma loop_more_fuel fuel k : forall tr tr' r,
  loop w d fuel tr = (tr', r) ->
  r <> OutOfFuel ->
  loop w d (fuel + k) tr = (tr', r).
Proof.
  induction fuel as [|fuel IH]; intros tr tr' r.
  - by intros [= <- <-].
  - replace (S fuel + k)%nat with (S (fuel + k)) by lia.
    rewrite !loop_S.
    destruct (loop_body w d tr) as [tr1 [[| |]| |]]; try done.
    apply IH.
Qed.

Lemma WaitToRun_more_fuel fuel k tr r :
  WaitToRun IsPeriodic w d fuel [] = (tr, r) ->
  r <> OutOfFuel ->
  WaitToRun IsPeriodic w d (fuel + k) [] = (tr, r).
Proof.
  rewrite !WaitToRun_eq.
  assert (Hlock : forall tr0,
            lock_or_reuse IsPeriodic w d fuel tr0 = (tr, r) ->
            r <> OutOfFuel ->
            lock_or_reuse IsPeriodic w d (fuel + k) tr0 = (tr, r)).
  { intros tr0. unfold lock_or_reuse.
    destruct (IsPeriodic (plan d)); [|done].
    cbv [mbind M_bind bind ret].
    destruct (loop w d fuel tr0) as [tr1 r1] eqn:Hl.
    intros H Hr.
    assert (r1 <> OutOfFuel) as Hr1.
    { intros ->. by injection H as <- <-. }
    by rewrite (loop_more_fuel fuel k _ _ _ Hl Hr1). }
  destruct (limited d).
  - destruct (limiter_Wait w []); [done|]. apply Hlock.
  - destruct (_ || _); [apply Hlock | done].
Qed.

Lemma lock_or_reuse_periodic fuel tr :
  IsPeriodic (plan d) = true ->
  lock_or_reuse IsPeriodic w d fuel tr =
    match loop w d fuel tr with
    | (tr', Ok (Return l run)) => (tr', Ok (l, run))
    | (tr', Ok (Break l)) => (tr', Ok (l, true))
    | (tr', Ok Continue) => (tr', OutOfFuel)
    | (tr', Err e) => (tr', Err e)
    | (tr', OutOfFuel) => (tr', OutOfFuel)
    end.
Proof.
  intros Hper. unfold lock_or_reuse. rewrite Hper.
  cbv [mbind M_bind bind ret].
  by destruct (loop w d fuel tr) as [tr' [[| |]| |]].
Qed.

(** C5. A manually triggered periodic check without [FromVersion] whose
    first [LastCheck] read shows a successful check started after the
    build was created returns (no lock, false) at once; with a
    [FromVersion] every successful [LastCheck] read is followed by the
    lock attempt whatever it shows, [WaitToRun] never answers "do not
    run", and with the lock free it returns (lock, true). *)
Theorem WaitToRun_manual :
  IsPeriodic (plan d) = true ->
  SkipInterval (plan d) = true ->
  (FromVersion (plan d) = None ->
   forall lc fuel,
     scope_LastCheck w [] = (lc, None) ->
     Succeeded lc = true ->
     Build.CreateTime (build d) < StartTime lc ->
     WaitToRun IsPeriodic w d (S fuel) [] =
       ([EvLastCheck], Ok (NilLock, false)))
  /\ (FromVersion (plan d) <> None ->
      (forall tr lc,
         scope_LastCheck w tr = (lc, None) ->
         loop_body w d tr = acquire_and_select w (tr ++ [EvLastCheck]))
      /\ (forall fuel tr l run,
            WaitToRun IsPeriodic w d fuel [] = (tr, Ok (l, run)) ->
            run = true)
      /\ (forall lc l fuel,
            scope_LastCheck w [] = (lc, None) ->
            scope_AcquireResourceCheckingLock w [EvLastCheck]
              = (l, true, None) ->
            WaitToRun IsPeriodic w d (S fuel) [] =
              ([EvLastCheck; EvAcquire], Ok (l, true)))).
Proof.
  intros Hper Hskip.
  assert (Hlim : limited d = false) by (unfold limited; by rewrite Hskip).
  assert (Hrun : forall fuel,
             WaitToRun IsPeriodic w d fuel [] =
               match loop w d fuel [] with
               | (tr, Ok (Return l run)) => (tr, Ok (l, run))
               | (tr, Ok (Break l)) => (tr, Ok (l, true))
               | (tr, Ok Continue) => (tr, OutOfFuel)
               | (tr, Err e) => (tr, Err e)
               | (tr, OutOfFuel) => (tr, OutOfFuel)
               end).
  { intros fuel. rewrite WaitToRun_eq, Hlim, Hskip. simpl.
    unfold lock_or_reuse. rewrite Hper. cbv [mbind M_bind bind].
    by destruct (loop w d fuel []) as [tr [[| |]| |]]. }
  assert (Hreads : reads d = [EvLastCheck])
    by (unfold reads; by rewrite Hskip).
  split.
  - intros Hfrom lc fuel Hlc Hs Hlt.
    rewrite Hrun, (loop_first fuel [] lc Hlc), Hreads.
    unfold skips, manual_reuses. rewrite Hskip, Hfrom, Hs. simpl.
    unfold Before. by rewrite (proj2 (Z.ltb_lt _ _) Hlt).
  - intros Hfrom.
    assert (Hno : forall tr lc, skips w d tr lc = false).
    { intros tr lc. unfold skips, manual_reuses. rewrite Hskip.
      by destruct (FromVersion (plan d)). }
    split; [|split].
    + intros tr lc Hlc. rewrite loop_body_cases, Hlc, Hno.
      by rewrite Hreads.
    + intros fuel tr l run. rewrite Hrun.
      destruct (loop w d fuel []) as [tr' [[l' run'|l'|]| |]] eqn:Hloop;
        try done.
      * apply loop_Return in Hloop as (_ & _ & tr0 & lc & _ & Hs & _).
        by rewrite Hno in Hs.
      * by intros [= _ _ <-].
    + intros lc l fuel Hlc Hacq.
      rewrite Hrun, (loop_first fuel [] lc Hlc), Hno, Hreads. simpl.
      by rewrite Hacq.
Qed.

(** C6, as the code has it.  A check embedded in a build step never
    calls [AcquireResourceCheckingLock] and returns no scope lock.  When
    it is a [Never] check that was not told to skip the interval it
    returns (no lock, false) without reading [LastCheck].  Otherwise, the
    limiter and the [LastCheck] read raising no error, it returns
    (no lock, false) when the last check succeeded and ended after the
    build started, and (no lock, true) when not. *)
Theorem WaitToRun_embedded :
  IsPeriodic (plan d) = false ->
  (forall fuel,
     (EvAcquire ∉ (WaitToRun IsPeriodic w d fuel []).1)
     /\ forall l run,
          (WaitToRun IsPeriodic w d fuel []).2 = Ok (l, run) ->
          (l, run) = (NilLock, false) \/ (l, run) = (NoopLock, true))
  /\ (SkipInterval (plan d) = false ->
      CheckInterval.Never (Interval (plan d)) = true ->
      forall fuel,
        WaitToRun IsPeriodic w d fuel [] = ([], Ok (NilLock, false)))
  /\ (SkipInterval (plan d) = true
      \/ CheckInterval.Never (Interval (plan d)) = false ->
      (limited d = true -> limiter_Wait w [] = None) ->
      forall lc fuel,
        scope_LastCheck w (prelude_calls d) = (lc, None) ->
        WaitToRun IsPeriodic w d fuel [] =
          (prelude_calls d ++ [EvLastCheck],
           Ok (if Succeeded lc
                  && After (EndTime lc) (Build.StartTime (build d))
               then (NilLock, false) else (NoopLock, true)))).
Proof.
  intros Hper.
  assert (Hreuse : forall fuel tr,
            lock_or_reuse IsPeriodic w d fuel tr =
              (tr ++ [EvLastCheck],
               match scope_LastCheck w tr with
               | (_, Some e) => Err e
               | (lc, None) =>
                   Ok (if embedded_reuses d lc then (NilLock, false)
                       else (NoopLock, true))
               end)).
  { intros fuel tr. unfold lock_or_reuse. rewrite Hper.
    cbv [mbind M_bind bind call check fail ret].
    destruct (scope_LastCheck w tr) as [lc [e|]]; [done|].
    by destruct (embedded_reuses d lc). }
  split; [|split].
  - intros fuel. rewrite WaitToRun_eq. split.
    + destruct (limited d).
      * destruct (limiter_Wait w []); [set_solver|].
        rewrite Hreuse. set_solver.
      * destruct (_ || _); [rewrite Hreuse|]; set_solver.
    + intros l run.
      destruct (limited d).
      * destruct (limiter_Wait w []); [done|]. rewrite Hreuse. simpl.
        destruct (scope_LastCheck w _) as [lc [e|]]; [done|].
        destruct (embedded_reuses d lc); intros [= <- <-]; auto.
      * destruct (_ || _); [rewrite Hreuse|]; simpl.
        -- destruct (scope_LastCheck w _) as [lc [e|]]; [done|].
           destruct (embedded_reuses d lc); intros [= <- <-]; auto.
        -- intros [= <- <-]; auto.
  - intros Hskip Hnever fuel. rewrite WaitToRun_eq.
    unfold limited. by rewrite Hskip, Hnever.
  - intros Hgo Hwait lc fuel Hlc. rewrite WaitToRun_eq.
    revert Hlc. unfold prelude_calls.
    destruct (limited d) eqn:Hlim.
    + rewrite (Hwait eq_refl), Hreuse. by intros ->.
    + assert (SkipInterval (plan d)
              || negb (CheckInterval.Never (Interval (plan d)))
              = true) as ->.
      { destruct Hgo as [-> | ->]; [done | by rewrite orb_true_r]. }
      rewrite Hreuse. by intros ->.
Qed.

(** C1, as the code has it.  For a periodic check that was not triggered
    manually, every return of (lock, true) comes straight after the call
    that acquired the lock: the last calls are the [LastCheck] read, the
    clock read whose interval test let the check through, and the
    acquisition; nothing is read or tested again after it.  Every return
    of "do not run" holds no lock and was decided before any lock attempt
    of its iteration.  On the first iteration: when the interval test
    rejects, (no lock, false) is returned with no lock attempt, and when
    it accepts and the lock is free, (lock, true) is returned as soon as
    the lock is acquired. *)
Theorem WaitToRun_periodic_acquired :
  IsPeriodic (plan d) = true ->
  SkipInterval (plan d) = false ->
  (forall fuel tr l run,
     WaitToRun IsPeriodic w d fuel [] = (tr, Ok (l, run)) ->
     if run then
       exists tr0 lc,
         scope_LastCheck w tr0 = (lc, None)
         /\ gate_rejects d (clock_Now w (tr0 ++ [EvLastCheck])) lc = false
         /\ scope_AcquireResourceCheckingLock w (tr0 ++ [EvLastCheck; EvNow])
            = (l, true, None)
         /\ tr = tr0 ++ [EvLastCheck; EvNow; EvAcquire]
     else
       l = NilLock
       /\ (CheckInterval.Never (Interval (plan d)) = true /\ tr = []
           \/ exists tr0 lc,
                scope_LastCheck w tr0 = (lc, None)
                /\ gate_rejects d (clock_Now w (tr0 ++ [EvLastCheck])) lc
                   = true
                /\ tr = tr0 ++ [EvLastCheck; EvNow]))
  /\ (CheckInterval.Never (Interval (plan d)) = false ->
      (limited d = true -> limiter_Wait w [] = None) ->
      forall lc fuel,
        scope_LastCheck w (prelude_calls d) = (lc, None) ->
        if gate_rejects d (clock_Now w (prelude_calls d ++ [EvLastCheck])) lc
        then
          WaitToRun IsPeriodic w d (S fuel) [] =
            (prelude_calls d ++ [EvLastCheck; EvNow], Ok (NilLock, false))
        else
          forall l,
            scope_AcquireResourceCheckingLock w
              (prelude_calls d ++ [EvLastCheck; EvNow]) = (l, true, None) ->
            WaitToRun IsPeriodic w d (S fuel) [] =
              (prelude_calls d ++ [EvLastCheck; EvNow; EvAcquire],
               Ok (l, true))).
Proof.
  intros Hper Hskip.
  assert (Hreads : reads d = [EvLastCheck; EvNow])
    by (unfold reads; by rewrite Hskip).
  assert (Hskips : forall tr0 lc,
            skips w d tr0 lc
            = gate_rejects d (clock_Now w (tr0 ++ [EvLastCheck])) lc)
    by (intros; unfold skips; by rewrite Hskip).
  split.
  - intros fuel tr l run.
    assert (Hloop : forall tr1,
              lock_or_reuse IsPeriodic w d fuel tr1 = (tr, Ok (l, run)) ->
              if run then
                exists tr0 lc,
                  scope_LastCheck w tr0 = (lc, None)
                  /\ gate_rejects d (clock_Now w (tr0 ++ [EvLastCheck])) lc
                     = false
                  /\ scope_AcquireResourceCheckingLock w
                       (tr0 ++ [EvLastCheck; EvNow]) = (l, true, None)
                  /\ tr = tr0 ++ [EvLastCheck; EvNow; EvAcquire]
              else
                l = NilLock
                /\ exists tr0 lc,
                     scope_LastCheck w tr0 = (lc, None)
                     /\ gate_rejects d
                          (clock_Now w (tr0 ++ [EvLastCheck])) lc = true
                     /\ tr = tr0 ++ [EvLastCheck; EvNow]).
    { intros tr1. unfold lock_or_reuse. rewrite Hper.
      cbv [mbind M_bind bind ret].
      destruct (loop w d fuel tr1) as [tr' [[l' run'|l'|]| |]] eqn:Hl;
        try done; intros [= <- <- <-].
      - apply loop_Return in Hl as (-> & -> & tr0 & lc & Hlc & Hs & ->).
        split; [done|]. exists tr0, lc. by rewrite <- Hskips, <- Hreads.
      - apply loop_Break in Hl as (tr0 & lc & Hlc & Hs & Hacq & ->).
        exists tr0, lc. rewrite <- Hskips, <- app_assoc, Hreads in *.
        done. }
    rewrite WaitToRun_eq. destruct (limited d).
    + destruct (limiter_Wait w []); [done|]. intros H.
      apply Hloop in H. destruct run; [done|].
      destruct H as (-> & H). auto.
    + rewrite Hskip. simpl.
      destruct (CheckInterval.Never (Interval (plan d))); simpl.
      * intros [= <- <- <-]. auto.
      * intros H. apply Hloop in H. destruct run; [done|].
        destruct H as (-> & H). auto.
  - intros Hnever Hwait lc fuel Hlc.
    assert (Hrun : WaitToRun IsPeriodic w d (S fuel) [] =
                   lock_or_reuse IsPeriodic w d (S fuel) (prelude_calls d)).
    { rewrite WaitToRun_eq. unfold prelude_calls.
      destruct (limited d); [by rewrite (Hwait eq_refl)|].
      by rewrite Hskip, Hnever. }
    rewrite Hrun, (lock_or_reuse_periodic _ _ Hper).
    rewrite (loop_first fuel _ lc Hlc), Hskips, Hreads.
    destruct (gate_rejects d _ lc); [done|].
    intros l Hacq. rewrite Hacq. by rewrite <- app_assoc.
Qed.

End EngineFacts.

Section EngineInstances.
Import Go Engine EngineExamples.

Lemma WaitToRun_manual_witness :
  WaitToRun names_target settled manual 1 [] =
    ([EvLastCheck], Ok (NilLock, false))
  /\ WaitToRun names_target settled manual_from 1 [] =
       ([EvLastCheck; EvAcquireResourceCheckingLock],
        Ok (ScopeLock 2, true)).
Proof.
  split.
  - apply (proj1 (WaitToRun_manual names_target settled manual
                    eq_refl eq_refl) eq_refl
             {| Succeeded := true; StartTime := 70; EndTime := 80 |} 0%nat);
      reflexivity.
  - refine (proj2 (proj2 (proj2 (WaitToRun_manual names_target settled
                                   manual_from eq_refl eq_refl) _))
              {| Succeeded := true; StartTime := 70; EndTime := 80 |}
              (ScopeLock 2) 0%nat eq_refl eq_refl).
    discriminate.
Defined.

(** C6 as stated fails: an embedded [Never] check whose last check failed
    is told not to run, where the claim has it run. *)
Lemma WaitToRun_embedded_never_counterexample :
  names_target (plan embedded_never) = false
  /\ scope_LastCheck failed_before [] =
       ({| Succeeded := false; StartTime := 70; EndTime := 80 |}, None)
  /\ WaitToRun names_target failed_before embedded_never 1 [] =
       ([], Ok (NilLock, false)).
Proof. repeat split. Qed.

Lemma WaitToRun_embedded_witness :
  WaitToRun names_target failed_before embedded 1 [] =
    ([EvLastCheck], Ok (NoopLock, true))
  /\ WaitToRun names_target settled embedded 1 [] =
       ([EvLastCheck], Ok (NilLock, false)).
Proof.
  split.
  - apply (proj2 (proj2 (WaitToRun_embedded names_target failed_before
                           embedded eq_refl)) (or_intror eq_refl)
             (fun H => eq_refl)
             {| Succeeded := false; StartTime := 70; EndTime := 80 |} 1%nat
             eq_refl).
  - apply (proj2 (proj2 (WaitToRun_embedded names_target settled
                           embedded eq_refl)) (or_intror eq_refl)
             (fun H => eq_refl)
             {| Succeeded := true; StartTime := 70; EndTime := 80 |} 1%nat
             eq_refl).
Defined.

(** C1 as stated fails: the lock is acquired after the interval test
    passed at a last check ending at 0; read again, [LastCheck] ends at 95
    and the test [100 < 95 + 10] rejects, yet the code has already
    returned (lock, true) with four calls made and none after the
    acquisition. *)
Lemma WaitToRun_no_recheck_counterexample :
  names_target (plan periodic) = true
  /\ SkipInterval (plan periodic) = false
  /\ WaitToRun names_target raced periodic 1 [] =
       ([EvLimiterWait; EvLastCheck; EvNow; EvAcquireResourceCheckingLock],
        Ok (ScopeLock 1, true))
  /\ gate_rejects periodic
       (clock_Now raced
          [EvLimiterWait; EvLastCheck; EvNow; EvAcquireResourceCheckingLock;
           EvLastCheck])
       (scope_LastCheck raced
          [EvLimiterWait; EvLastCheck; EvNow;
           EvAcquireResourceCheckingLock]).1 = true.
Proof. repeat split. Qed.

Lemma WaitToRun_periodic_acquired_witness :
  (exists tr0 lc,
     scope_LastCheck raced tr0 = (lc, None)
     /\ gate_rejects periodic (clock_Now raced (tr0 ++ [EvLastCheck])) lc
        = false
     /\ scope_AcquireResourceCheckingLock raced
          (tr0 ++ [EvLastCheck; EvNow]) = (ScopeLock 1, true, None)
     /\ [EvLimiterWait; EvLastCheck; EvNow; EvAcquireResourceCheckingLock]
        = tr0 ++ [EvLastCheck; EvNow; EvAcquireResourceCheckingLock])
  /\ WaitToRun names_target recent periodic 1 [] =
       ([EvLimiterWait; EvLastCheck; EvNow], Ok (NilLock, false))
  /\ WaitToRun names_target settled periodic 1 [] =
       ([EvLimiterWait; EvLastCheck; EvNow; EvAcquireResourceCheckingLock],
        Ok (ScopeLock 2, true)).
Proof.
  split; [|split].
  - apply (proj1 (WaitToRun_periodic_acquired names_target raced periodic
                    eq_refl eq_refl) 1%nat _ (ScopeLock 1) true eq_refl).
  - exact (proj2 (WaitToRun_periodic_acquired names_target recent periodic
                    eq_refl eq_refl) eq_refl (fun _ => eq_refl)
             {| Succeeded := true; StartTime := 90; EndTime := 95 |} 0%nat
             eq_refl).
  - exact (proj2 (WaitToRun_periodic_acquired names_target settled periodic
                    eq_refl eq_refl) eq_refl (fun _ => eq_refl)
             {| Succeeded := true; StartTime := 70; EndTime := 80 |} 0%nat
             eq_refl (ScopeLock 2) eq_refl).
Defined.

End EngineInstances.

(** ** The step builder *)
Section BuilderFacts.
Import Go Builder StepSemantics.
Variable externalURL : string.
Variable build : Build.

Lemma buildStepWith_withAttempts attempts attempts' plan :
  buildStepWith externalURL build attempts (withAttempts attempts' plan)
  = buildStepWith externalURL build attempts plan.
Proof. by destruct plan. Qed.

(** Building a plan under [attempts] is [buildStep] on the plan with its
    [Attempts] set to them. *)
Lemma buildStep_withAttempts attempts plan :
  buildStep externalURL build (withAttempts attempts plan)
  = buildStepWith externalURL build attempts plan.
Proof. by destruct plan. Qed.

Lemma range_from_lookup {A B} (f : nat -> A -> B) l : forall start i,
  range_from f start l !! i = f (start + i)%nat <$> l !! i.
Proof.
  induction l as [|x l IH]; intros start [|i]; simpl; try done.
  - by rewrite Nat.add_0_r.
  - rewrite IH. by replace (S start + i)%nat with (start + S i)%nat by lia.
Qed.

(** The [i]-th plan of a retry, counted from 0, is built under the
    retry's attempts followed by [i + 1]. *)
Lemma buildRetryStep_child attempts inner i innerPlan :
  inner !! i = Some innerPlan ->
  range_from
    (fun index p =>
       buildStepWith externalURL build (attempts ++ [Z.of_nat index + 1]) p)
    0%nat inner !! i
  = Some (buildStepWith externalURL build (attempts ++ [Z.of_nat i + 1])
            innerPlan).
Proof. intros H. by rewrite range_from_lookup, H. Qed.

Lemma is_set_0 {A} (o : option A) : is_set o = 0%nat -> o = None.
Proof. by destruct o. Qed.

(** A plan whose one variant is [Retry] is built by [buildRetryStep]:
    its [index]-th plan under the attempts followed by [index + 1]. *)
Lemma buildStepWith_Retry attempts plan inner :
  variants_set plan = 1%nat ->
  Retry plan = Some inner ->
  buildStepWith externalURL build attempts plan =
    steps ← all_built
      (range_from
         (fun index innerPlan =>
            buildStepWith externalURL build
              (attempts ++ [Z.of_nat index + 1]) innerPlan)
         0%nat inner);
    Some (exec.Retry steps).
Proof.
  unfold variants_set.
  destruct plan as [id att agg par acr do_ tmo try_ oab oer osu ofa ens
                      tsk spl ldv get put rty ain aou]; simpl.
  intros H ->. simpl in H.
  repeat match goal with
         | o : option _ |- _ =>
             assert (is_set o = 0%nat) as ?%is_set_0 by lia; subst o
         end.
  reflexivity.
Qed.

(** The combinators that hand their own attempts to the plans under
    them. *)
Lemma buildStepWith_propagates attempts plan :
  Across plan = None ->
  Retry plan = None ->
  buildStepWith externalURL build attempts plan =
    match Aggregate plan, InParallel plan, Do plan, Timeout plan, Try plan,
          OnAbort plan, OnError plan, OnSuccess plan, OnFailure plan,
          Ensure plan with
    | Some inner, _, _, _, _, _, _, _, _, _ =>
        agg ← all_built
          (map (buildStepWith externalURL build attempts) inner);
        Some (exec.AggregateStep agg)
    | None, Some p, _, _, _, _, _, _, _, _ =>
        steps ← all_built
          (map (buildStepWith externalURL build attempts) (Steps p));
        Some (exec.InParallel steps (Limit p) (FailFast p))
    | None, None, Some inner, _, _, _, _, _, _, _ =>
        buildDoStep (buildStepWith externalURL build) attempts inner
    | None, None, None, Some p, _, _, _, _, _, _ =>
        step ← buildStepWith externalURL build attempts (TimeoutStep p);
        Some (exec.Timeout step (Duration p))
    | None, None, None, None, Some p, _, _, _, _, _ =>
        step ← buildStepWith externalURL build attempts (TryStep p);
        Some (exec.Try step)
    | None, None, None, None, None, Some p, _, _, _, _ =>
        step ← buildStepWith externalURL build attempts (Step p);
        next ← buildStepWith externalURL build attempts (Next p);
        Some (exec.OnAbort step next)
    | None, None, None, None, None, None, Some p, _, _, _ =>
        step ← buildStepWith externalURL build attempts (Step p);
        next ← buildStepWith externalURL build attempts (Next p);
        Some (exec.OnError step next)
    | None, None, None, None, None, None, None, Some p, _, _ =>
        step ← buildStepWith externalURL build attempts (Step p);
        next ← buildStepWith externalURL build attempts (Next p);
        Some (exec.OnSuccess step next)
    | None, None, None, None, None, None, None, None, Some p, _ =>
        step ← buildStepWith externalURL build attempts (Step p);
        next ← buildStepWith externalURL build attempts (Next p);
        Some (exec.OnFailure step next)
    | None, None, None, None, None, None, None, None, None, Some p =>
        step ← buildStepWith externalURL build attempts (Step p);
        next ← buildStepWith externalURL build attempts (Next p);
        Some (exec.Ensure step next)
    | None, None, None, None, None, None, None, None, None, None =>
        buildStepWith externalURL build attempts plan
    end.
Proof.
  destruct plan as [id att agg par acr do_ tmo try_ oab oer osu ofa ens
                      tsk spl ldv get put rty ain aou]; simpl.
  intros -> ->.
  destruct agg, par, do_, tmo, try_, oab, oer, osu, ofa, ens; reflexivity.
Qed.

Lemma buildDoStep_chain (buildStep : list Z -> Plan -> option exec.Step)
    attempts inner steps :
  Forall2 (fun p s => buildStep attempts p = Some s) inner steps ->
  buildDoStep buildStep attempts inner
  = Some (fold_right exec.OnSuccess exec.IdentityStep steps).
Proof.
  induction 1 as [|p s inner steps Hp _ IH]; simpl; [done|].
  fold (buildDoStep buildStep attempts inner). by rewrite IH, Hp.
Qed.

Lemma Do_outcome_cons (o : Outcome) outcomes :
  outcomes <> [] -> Do_outcome (o :: outcomes) = Do_outcome outcomes.
Proof. unfold Do_outcome. by destruct outcomes. Qed.

Lemma Run_chain {St} (other : exec.Step -> @Runner St) steps : forall s,
  Run other (fold_right exec.OnSuccess exec.IdentityStep steps) s
  = let (s', outcomes) := Do_spec (map (Run other) steps) s in
    (s', Do_outcome outcomes).
Proof.
  induction steps as [|c steps IH]; intros s; simpl; [done|].
  unfold OnSuccess_Run. destruct (Run other c s) as [s' [| |e]]; try done.
  rewrite IH. destruct (Do_spec (map (Run other) steps) s') as [s'' os] eqn:H.
  destruct os as [|o os]; [done|].
  by rewrite (Do_outcome_cons Success (o :: os)).
Qed.

(** What [Do_spec] says in the spec's terms: the children that ran are a
    first part of the list, each of them but the last succeeded, and when
    some child did not run the last one that ran did not succeed. *)
Lemma Do_spec_outcomes {St} (children : list (@Runner St)) : forall s,
  let outcomes := (Do_spec children s).2 in
  (length outcomes <= length children)%nat
  /\ (forall i o,
        outcomes !! i = Some o -> (S i < length outcomes)%nat -> o = Success)
  /\ ((length outcomes < length children)%nat ->
      exists o, last outcomes = Some o /\ o <> Success).
Proof.
  induction children as [|c children IH]; intros s; simpl.
  - repeat split; [lia | done | lia].
  - destruct (c s) as [s' o] eqn:Hc.
    assert (Hstop : o <> Success ->
              (1 <= S (length children))%nat
              /\ (forall i o', [o] !! i = Some o' ->
                    (S i < 1)%nat -> o' = Success)
              /\ ((1 < S (length children))%nat ->
                  exists o', last [o] = Some o' /\ o' <> Success)).
    { intros Ho. repeat split; [lia | intros; lia | by exists o]. }
    destruct o as [| |e]; [|by apply Hstop..].
    specialize (IH s'). destruct (Do_spec children s') as [s'' os]; simpl in *.
    destruct IH as (Hlen & Hpre & Hlast). repeat split.
    + lia.
    + intros [|i] o; simpl; [by intros [= <-]|].
      intros Hi Hlt. apply (Hpre i); [done | lia].
    + intros Hlt. destruct Hlast as (o & Ho & Hne); [lia|].
      exists o. split; [|done]. destruct os; [done|]. by rewrite last_cons, Ho.
Qed.

(** C9. A plan whose set variant is [Do] compiles, under the attempts it
    is built with, to the chain [OnSuccess(s1', OnSuccess(s2', ...
    OnSuccess(sn', Identity)))] of its compiled children; run, the chain
    leaves the state and has the outcome the spec gives for [Do]: the
    children run in order while they succeed, and the outcome is that of
    the last child that ran. *)
Theorem buildDoStep_refines attempts plan inner steps :
  Aggregate plan = None ->
  InParallel plan = None ->
  Across plan = None ->
  Do plan = Some inner ->
  Forall2 (fun p s => buildStepWith externalURL build attempts p = Some s)
    inner steps ->
  buildStepWith externalURL build attempts plan
  = Some (fold_right exec.OnSuccess exec.IdentityStep steps)
  /\ forall St (other : exec.Step -> @Runner St) (s : St),
       Run other (fold_right exec.OnSuccess exec.IdentityStep steps) s
       = ((Do_spec (map (Run other) steps) s).1,
          Do_outcome (Do_spec (map (Run other) steps) s).2).
Proof.
  intros Hagg Hpar Hacr Hdo Hsteps. split.
  - destruct plan; simpl in *; subst.
    by apply buildDoStep_chain.
  - intros St other s. rewrite Run_chain.
    by destruct (Do_spec (map (Run other) steps) s).
Qed.

(** C2, as the code has it.  A plan with no variant set compiles to the
    identity step, under any attempts; [BuildStep] returns it with a nil
    error for a build of the supported schema, and the only errors
    [BuildStep] ever returns are those for a nil build and for another
    schema. *)
Theorem buildStep_no_variant plan :
  variants_set plan = 0%nat ->
  (forall attempts,
     buildStepWith externalURL build attempts plan = Some exec.IdentityStep)
  /\ (PrivatePlan build = plan ->
      Schema build = supportedSchema ->
      BuildStep externalURL (Some build) = Some (exec.IdentityStep, None))
  /\ (forall b step e,
        BuildStep externalURL b = Some (step, Some e) ->
        step = exec.IdentityStep
        /\ (e = ErrNew "must provide a build"
            \/ e = ErrNew "schema not supported")).
Proof.
  intros Hnone.
  assert (Hid : forall attempts,
            buildStepWith externalURL build attempts plan
            = Some exec.IdentityStep).
  { intros attempts. revert Hnone. unfold variants_set.
    destruct plan as [id att agg par acr do_ tmo try_ oab oer osu ofa ens
                        tsk spl ldv get put rty ain aou]; simpl.
    intros H.
    repeat match goal with
           | o : option _ |- _ =>
               assert (is_set o = 0%nat) as ?%is_set_0 by lia; subst o
           end.
    reflexivity. }
  split; [done|]. split.
  - intros Hplan Hschema. unfold BuildStep, buildStep.
    rewrite Hschema, Hplan, Hid. by rewrite String.eqb_refl.
  - intros [b|] step e; simpl.
    + destruct (negb _); [by intros [= <- <-]; auto|].
      by destruct (buildStep externalURL b (PrivatePlan b)).
    + intros [= <- <-]; auto.
Qed.

End BuilderFacts.

Section BuilderInstances.
Import Go Builder StepSemantics BuilderExamples.

(** C2 as stated fails: the build whose plan has no variant set compiles
    to the identity step, with a nil error. *)
Lemma BuildStep_no_variant_counterexample :
  variants_set malformed = 0%nat
  /\ BuildStep "http://ci" (Some (a_build malformed))
     = Some (exec.IdentityStep, None).
Proof. split; reflexivity. Qed.

Lemma buildStep_no_variant_witness :
  BuildStep "http://ci" (Some (a_build malformed))
  = Some (exec.IdentityStep, None).
Proof.
  apply (proj1 (proj2 (buildStep_no_variant "http://ci" (a_build malformed)
                         malformed eq_refl)));
    reflexivity.
Defined.

Lemma buildDoStep_refines_witness :
  exists s1 s2,
    buildStep "http://ci"
      (a_build (do "d" [task "t1" "a"; task "t2" "b"]))
      (do "d" [task "t1" "a"; task "t2" "b"])
    = Some (exec.OnSuccess s1 (exec.OnSuccess s2 exec.IdentityStep)).
Proof.
  eexists _, _.
  refine (proj1 (buildDoStep_refines "http://ci"
                   (a_build (do "d" [task "t1" "a"; task "t2" "b"])) []
                   (do "d" [task "t1" "a"; task "t2" "b"])
                   [task "t1" "a"; task "t2" "b"] [_; _]
                   eq_refl eq_refl eq_refl eq_refl _)).
  constructor; [reflexivity|]. constructor; [reflexivity|]. constructor.
Defined.

(** C8 at its failing input.  A task retried inside a [Do] is built with
    attempts [1] and container attempt "1"; the same task retried inside
    an [Across] is built with the attempts its own plan came with, here
    none, and container attempt "": [buildAcrossInParallelStep] does not
    set them.  Scenario S4 is as the claim says: the three attempts are
    built with [1], [2] and [3]. *)
Theorem buildStep_retry_across_attempts :
  leaf_attempts <$> buildStep "http://ci" (a_build retried_across)
                      retried_across
  = Some [([], Some "")]
  /\ leaf_attempts <$> buildStep "http://ci" (a_build retried_do) retried_do
     = Some [([1], Some "1")]
  /\ leaf_attempts <$> buildStep "http://ci" (a_build three_attempts)
                         three_attempts
     = Some [([1], Some "1"); ([2], Some "2"); ([3], Some "3")].
Proof. repeat split; vm_compute; reflexivity. Qed.

End BuilderInstances.

(** ** The image fetcher *)
Section GardenFacts.
Import Go GoLib Gardenruntime.
Variable worker : Worker.

Lemma escape_unescaped p : unescaped p = true -> escape p = p.
Proof.
  induction p as [|c p IH]; simpl; [done|].
  destruct (shouldEscape c); simpl; [done|]. intros H. by rewrite IH.
Qed.

(** For a plain path, the URL is the scheme, [://] and the path. *)
Lemma URL_String_plain scheme p :
  plain p = true ->
  URL_String {| Scheme := scheme; Path := p |} = scheme +:+ "://" +:+ p.
Proof.
  unfold plain, URL_String, EscapedPath. simpl.
  intros [Hne Hp]%andb_prop. apply negb_true_iff in Hne. rewrite Hne.
  rewrite (escape_unescaped p Hp).
  destruct (String.eqb_spec p "*") as [->|_]; [|done].
  discriminate Hp.
Qed.

Lemma find_none_iff (name : string) (types : list WorkerResourceType.t) :
  find (fun t => String.eqb (WorkerResourceType.Type_ t) name) types = None
  <-> forall t, t ∈ types -> WorkerResourceType.Type_ t <> name.
Proof.
  induction types as [|t types IH]; simpl.
  - split; [intros _ t Ht; by apply elem_of_nil in Ht | done].
  - destruct (String.eqb_spec (WorkerResourceType.Type_ t) name) as [He|Hne].
    + split; [done|]. intros H. exfalso. apply (H t); [left | done].
    + rewrite IH. split.
      * intros H t' [->|Ht']%elem_of_cons; auto.
      * intros H t' Ht'. apply H. by right.
Qed.

(** C3, as the code has it.  With no image artifact and an empty
    [ResourceType] the fetcher makes no call and returns, with no error,
    an image whose URL is the spec's [ImageURL] as it is - the empty
    string when no variant is set - with empty metadata.
    [ErrUnsupportedResourceType] is what a non-empty [ResourceType] that
    names none of the worker's resource types gets. *)
Theorem fetchImageForContainer_url_or_unsupported
    (imageSpec : ImageSpec.t) (teamID : Z) (container : Container) :
  ImageSpec.ImageArtifact imageSpec = None ->
  (ImageSpec.ResourceType imageSpec = "" ->
   fetchImageForContainer worker imageSpec teamID container [] =
     ([], Ok {| FetchedImage.Metadata := {| Env := []; User := "" |};
                FetchedImage.Version := ∅;
                FetchedImage.URL := ImageSpec.ImageURL imageSpec;
                FetchedImage.Privileged := false |}))
  /\ (ImageSpec.ResourceType imageSpec <> "" ->
      (forall t, t ∈ ResourceTypes worker ->
                 WorkerResourceType.Type_ t
                 <> ImageSpec.ResourceType imageSpec) ->
      fetchImageForContainer worker imageSpec teamID container [] =
        ([], Err ErrUnsupportedResourceType)).
Proof.
  intros Hart. unfold fetchImageForContainer. rewrite Hart. split.
  - by intros ->.
  - intros Hne%String.eqb_neq Hnone%find_none_iff.
    by rewrite Hne, Hnone.
Qed.

(** C10. For an image spec without an artifact whose [ResourceType] is
    the first match [t] among the worker's resource types, the import
    volume and its copy-on-write child being made without error: the
    fetcher makes those two calls and no other, so [metadata.json] is
    never streamed; the image has empty metadata, the one-entry version
    [{ResourceType: t.Version}], the privileged flag of [t], and the URL
    of scheme [raw] whose path is the child volume's path as it is, which
    for a plain path reads [raw://<path>]. *)
Theorem fetchImageForContainer_base_resource_type
    (imageSpec : ImageSpec.t) (teamID : Z) (container : Container)
    (t : WorkerResourceType.t) (importVolume cowVolume : Volume) :
  let name := ImageSpec.ResourceType imageSpec in
  let spec :=
    {| ImportPath := WorkerResourceType.Image t;
       SpecPrivileged := WorkerResourceType.Privileged t |} in
  let calls :=
    [EvFindOrCreateVolumeForBaseResourceType spec teamID name;
     EvFindOrCreateCOWVolumeForContainer (WorkerResourceType.Privileged t)
       container importVolume teamID "/"] in
  ImageSpec.ImageArtifact imageSpec = None ->
  name <> "" ->
  find (fun t => String.eqb (WorkerResourceType.Type_ t) name)
    (ResourceTypes worker) = Some t ->
  findOrCreateVolumeForBaseResourceType worker spec teamID name
    = (importVolume, None) ->
  findOrCreateCOWVolumeForContainer worker (WorkerResourceType.Privileged t)
    container importVolume teamID "/" = (cowVolume, None) ->
  exists image,
    fetchImageForContainer worker imageSpec teamID container []
      = (calls, Ok image)
    /\ (forall src file, EvStreamFile src file ∉ calls)
    /\ FetchedImage.Metadata image = {| Env := []; User := "" |}
    /\ FetchedImage.Version image
       = {[ name := WorkerResourceType.Version t ]}
    /\ FetchedImage.Privileged image = WorkerResourceType.Privileged t
    /\ FetchedImage.URL image
       = URL_String {| Scheme := "raw"; Path := VolumePath cowVolume |}
    /\ (plain (VolumePath cowVolume) = true ->
        FetchedImage.URL image = "raw://" +:+ VolumePath cowVolume).
Proof.
  intros name spec calls Hart Hname%String.eqb_neq Hfind Himport Hcow.
  eexists. split.
  - unfold fetchImageForContainer. fold name. rewrite Hart, Hname, Hfind.
    simpl. unfold imageFromBaseResourceType. fold spec.
    cbv [mbind M_bind bind call check fail ret mret M_ret].
    rewrite Himport. simpl. rewrite Hcow. reflexivity.
  - split; [intros src file; subst calls; set_solver|].
    repeat split. intros Hplain.
    exact (URL_String_plain "raw" _ Hplain).
Qed.

(** The image-artifact paths, for contrast: the URL's path is the child
    volume's path joined with [rootfs]. *)
Lemma imageProvidedByPreviousStepOnDifferentWorker_url
    privileged teamID container artifact tr tr' image :
  imageProvidedByPreviousStepOnDifferentWorker worker privileged teamID
    container artifact tr = (tr', Ok image) ->
  exists streamedVolume imageVolume,
    findOrCreateCOWVolumeForContainer worker privileged container
      streamedVolume teamID "/" = (imageVolume, None)
    /\ FetchedImage.URL image
       = URL_String {| Scheme := "raw";
                       Path := Join [VolumePath imageVolume; "rootfs"] |}.
Proof.
  unfold imageProvidedByPreviousStepOnDifferentWorker, loadMetadata.
  cbv [mbind M_bind bind call check wrap fail ret mret M_ret].
  destruct (findOrCreateVolumeForStreaming worker privileged container
              teamID "/") as [streamedVolume [e|]]; [done|].
  simpl. destruct (streamer_Stream worker _ _) as [e|]; [done|]. simpl.
  destruct (findOrCreateCOWVolumeForContainer worker privileged container
              streamedVolume teamID "/") as [imageVolume [e|]] eqn:Hcow;
    [done|].
  simpl.
  destruct (streamer_StreamFile worker _ _) as [reader [e|]]; [done|].
  simpl. destruct (json_Decode worker reader) as [metadata [e|]]; [done|].
  simpl. intros [= <- <-]. by exists streamedVolume, imageVolume.
Qed.

Lemma imageProvidedByPreviousStepOnSameWorker_url
    privileged teamID container artifactVolume tr tr' image :
  imageProvidedByPreviousStepOnSameWorker worker privileged teamID container
    artifactVolume tr = (tr', Ok image) ->
  exists imageVolume,
    findOrCreateCOWVolumeForContainer worker privileged container
      artifactVolume teamID "/" = (imageVolume, None)
    /\ FetchedImage.URL image
       = URL_String {| Scheme := "raw";
                       Path := Join [VolumePath imageVolume; "rootfs"] |}.
Proof.
  unfold imageProvidedByPreviousStepOnSameWorker, loadMetadata.
  cbv [mbind M_bind bind call check wrap fail ret mret M_ret].
  destruct (findOrCreateCOWVolumeForContainer worker privileged container
              artifactVolume teamID "/") as [imageVolume [e|]]; [done|].
  simpl.
  destruct (streamer_StreamFile worker _ _) as [reader [e|]]; [done|].
  simpl. destruct (json_Decode worker reader) as [metadata [e|]]; [done|].
  simpl. intros [= <- <-]. by exists imageVolume.
Qed.

End GardenFacts.

Section GardenInstances.
Import Go GoLib Gardenruntime GardenExamples.

(** C3 as stated fails for its second half: with no variant set the
    fetcher returns an image with the empty URL and no error, not
    [ErrUnsupportedResourceType]. *)
Lemma fetchImageForContainer_no_variant_counterexample :
  ImageSpec.ImageArtifact no_variant = None
  /\ ImageSpec.ResourceType no_variant = ""
  /\ ImageSpec.ImageURL no_variant = ""
  /\ fetchImageForContainer w1 no_variant 1 "c1" []
     = ([], Ok FetchedImage.zero).
Proof. repeat split. Qed.

Lemma fetchImageForContainer_url_or_unsupported_witness :
  fetchImageForContainer w1 (image_spec "" "docker:///busybox") 1 "c1" []
  = ([], Ok {| FetchedImage.Metadata := {| Env := []; User := "" |};
               FetchedImage.Version := ∅;
               FetchedImage.URL := "docker:///busybox";
               FetchedImage.Privileged := false |})
  /\ fetchImageForContainer w1 (image_spec "s3" "") 1 "c1" []
     = ([], Err ErrUnsupportedResourceType).
Proof.
  split.
  - apply (proj1 (fetchImageForContainer_url_or_unsupported w1
                    (image_spec "" "docker:///busybox") 1 "c1" eq_refl)).
    reflexivity.
  - apply (proj2 (fetchImageForContainer_url_or_unsupported w1
                    (image_spec "s3" "") 1 "c1" eq_refl)).
    + discriminate.
    + intros t Ht. apply list_elem_of_In in Ht.
      destruct Ht as [<-|[]]. discriminate.
Defined.

Lemma fetchImageForContainer_base_resource_type_witness :
  exists image,
    fetchImageForContainer w1 (image_spec "git" "") 1 "c1" []
    = ([EvFindOrCreateVolumeForBaseResourceType
          {| ImportPath := "/concourse/resource-types/git/rootfs.tgz";
             SpecPrivileged := true |} 1 "git";
        EvFindOrCreateCOWVolumeForContainer true "c1" import_volume 1 "/"],
       Ok image)
    /\ FetchedImage.URL image = "raw:///vol/live/cow/volume"
    /\ FetchedImage.Privileged image = true.
Proof.
  destruct (fetchImageForContainer_base_resource_type w1
              (image_spec "git" "") 1 "c1" git_type import_volume cow_volume
              eq_refl)
    as (image & Hrun & _ & _ & _ & Hpriv & _ & Hurl);
    [discriminate | reflexivity | reflexivity | reflexivity |].
  exists image. split; [exact Hrun|]. split; [|exact Hpriv].
  exact (Hurl eq_refl).
Defined.

End GardenInstances.

(** ** The get step *)
Section ExecFacts.
Import Go Exec.
Variable w : World.

Lemma run_completes step getResult :
  completes w step getResult ->
  exists args,
    run w step [] =
      ([EvInitializing; EvEvaluateSource; EvEvaluateParams;
        EvEvaluateResourceTypes; EvVersion; EvFindOrCreateResourceCache]
       ++ calls_from_RunGetStep step args getResult,
       Ok (if worker.ExitStatus getResult =? 0 then
             set_succeeded step
           else step)).
Proof.
  intros (source & params & types & version & cache
          & Hs & Hp & Ht & Hv & Hc & Hr).
  exists (runGetStepArgs w step source params types version cache).
  unfold run, calls_from_RunGetStep.
  cbv [mbind M_bind bind call check fail ret mret M_ret].
  rewrite Hs, Hp, Ht, Hv. simpl. rewrite Hc. simpl. rewrite Hr. simpl.
  destruct (worker.ExitStatus getResult =? 0); [|done].
  by destruct (String.eqb (Resource (plan step)) "").
Qed.

Lemma run_Ok step tr step' :
  run w step [] = (tr, Ok step') ->
  exists getResult, completes w step getResult.
Proof.
  unfold run, completes.
  cbv [mbind M_bind bind call check fail ret mret M_ret].
  destruct (Source_Evaluate w _) as [source [e|]] eqn:Hs; [done|].
  destruct (Params_Evaluate w _) as [params [e|]] eqn:Hp; [done|].
  destruct (VersionedResourceTypes_Evaluate w _) as [types [e|]] eqn:Ht;
    [done|].
  destruct (VersionSource_Version w _) as [version [e|]] eqn:Hv; [done|].
  simpl.
  destruct (FindOrCreateResourceCache w _ _ _ _ _ _) as [cache [e|]] eqn:Hc;
    [done|].
  simpl. destruct (RunGetStep w _) as [getResult [e|]] eqn:Hr; [done|].
  intros _. by exists getResult, source, params, types, version, cache.
Qed.

Lemma run_not_OutOfFuel step tr : run w step [] <> (tr, OutOfFuel).
Proof.
  unfold run.
  cbv [mbind M_bind bind call check fail ret mret M_ret].
  destruct (Source_Evaluate w _) as [source [e|]]; [done|].
  destruct (Params_Evaluate w _) as [params [e|]]; [done|].
  destruct (VersionedResourceTypes_Evaluate w _) as [types [e|]]; [done|].
  destruct (VersionSource_Version w _) as [version [e|]]; [done|].
  simpl.
  destruct (FindOrCreateResourceCache w _ _ _ _ _ _) as [cache [e|]];
    [done|].
  simpl. destruct (RunGetStep w _) as [getResult [e|]]; [done|].
  simpl. destruct (worker.ExitStatus getResult =? 0); [|done].
  by destruct (negb _).
Qed.

(** C7. A get step as [NewGetStep] makes it returns a nil error from
    [Run] exactly when the run gets as far as the exit of the [in]
    script, whatever the exit status.  Then [RegisterArtifact] is called,
    with the plan's [Name] and the fetched volume, exactly when the exit
    status is 0; [UpdateVersion] is called exactly when the exit status is
    0 and the plan names a resource; [Succeeded] is true exactly when the
    exit status is 0; and [Finished] reports the exit status. *)
Theorem GetStep_Run_completed
    (planID : string) (plan : GetPlan) (metadata : StepMetadata)
    (containerMetadata : string) :
  let step := NewGetStep planID plan metadata containerMetadata in
  (forall getResult,
     completes w step getResult ->
     exists tr step', Run w step = (tr, step', None))
  /\ forall tr step',
       Run w step = (tr, step', None) ->
       exists getResult,
         completes w step getResult
         /\ (forall name artifact,
               EvRegisterArtifact name artifact ∈ tr
               <-> worker.ExitStatus getResult = 0
                   /\ name = Name plan
                   /\ artifact = worker.GetArtifact getResult)
         /\ (forall p versionResult,
               EvUpdateVersion p versionResult ∈ tr
               <-> worker.ExitStatus getResult = 0
                   /\ Resource plan <> ""
                   /\ p = plan
                   /\ versionResult = worker.VersionResult getResult)
         /\ (Succeeded step' = true <-> worker.ExitStatus getResult = 0)
         /\ last tr
            = Some (EvFinished (worker.ExitStatus getResult)
                      (worker.VersionResult getResult)).
Proof.
  intros step. split.
  - intros getResult (args & Hrun)%run_completes.
    unfold Run. rewrite Hrun. eauto.
  - intros tr step'. unfold Run.
    destruct (run w step []) as [tr0 [s| |]] eqn:Hrun;
      [| done | by apply run_not_OutOfFuel in Hrun].
    intros [= -> ->].
    destruct (run_Ok _ _ _ Hrun) as (getResult & Hc).
    exists getResult. split; [done|].
    destruct (run_completes _ _ Hc) as (args & Hrun').
    rewrite Hrun in Hrun'. injection Hrun' as -> ->.
    unfold calls_from_RunGetStep. simpl.
    destruct (Z.eqb_spec (worker.ExitStatus getResult) 0) as [H0|H0];
      [destruct (String.eqb_spec (Resource plan) "") as [Hr|Hr]|];
      (split; [|split; [|split]]); simpl;
      try (intros; set_solver); try done.
Qed.

End ExecFacts.

Section ExecInstances.
Import Go Exec ExecExamples.

Lemma GetStep_Run_completed_witness :
  (exists tr step',
     Run (exits_with 1) (NewGetStep "g" (get_plan "repo") step_metadata "m")
     = (tr, step', None))
  /\ exists getResult,
       completes (exits_with 0)
         (NewGetStep "g" (get_plan "repo") step_metadata "m") getResult
       /\ worker.ExitStatus getResult = 0.
Proof.
  split.
  - apply (proj1 (GetStep_Run_completed (exits_with 1) "g" (get_plan "repo")
                    step_metadata "m") (fetched 1)).
    by eexists _, _, _, _, _.
  - destruct (proj2 (GetStep_Run_completed (exits_with 0) "g"
                       (get_plan "repo") step_metadata "m") _ _ eq_refl)
      as (getResult & Hc & _ & _ & Hs & _).
    exists getResult. split; [exact Hc|]. by apply Hs.
Defined.

End ExecInstances.

(** ** The rounds of the lock loop *)
Section EngineRoundsFacts.
Import Go Engine EngineRounds.
Variable IsPeriodic : CheckPlan -> bool.
Variable w : World.
Variable d : checkDelegate.

#[local] Abbreviation EvAcquire := EvAcquireResourceCheckingLock.

Lemma rounds_1 : rounds d 1 = reads d ++ [EvAcquire; EvSelect].
Proof. reflexivity. Qed.

(** An iteration goes round again exactly when it finds the lock taken. *)
Lemma loop_body_busy tr :
  busy w d tr = true ->
  loop_body w d tr = (tr ++ rounds d 1, Ok Continue).
Proof.
  rewrite rounds_1. unfold busy. rewrite loop_body_cases.
  destruct (scope_LastCheck w tr) as [lc [e|]]; [done|].
  destruct (skips w d tr lc); [done|]. cbn [negb andb].
  rewrite acquire_and_select_eq.
  destruct (scope_AcquireResourceCheckingLock w (tr ++ reads d))
    as [[l [|]] [e|]]; try done.
  rewrite <- !app_assoc.
  by destruct (ctx_Done w _).
Qed.

Lemma loop_body_not_busy tr tr' r :
  busy w d tr = false ->
  loop_body w d tr = (tr', r) ->
  r <> Ok Continue.
Proof.
  unfold busy. rewrite loop_body_cases.
  destruct (scope_LastCheck w tr) as [lc [e|]]; [by intros _ [= <- <-]|].
  destruct (skips w d tr lc); [by intros _ [= <- <-]|]. cbn [negb andb].
  rewrite acquire_and_select_eq.
  destruct (scope_AcquireResourceCheckingLock w (tr ++ reads d))
    as [[l [|]] [e|]]; try by intros _ [= <- <-].
  rewrite <- !app_assoc.
  destruct (ctx_Done w _); [by intros _ [= <- <-] | done].
Qed.

Lemma rounds_S k : rounds d (S k) = rounds d 1 ++ rounds d k.
Proof. rewrite rounds_1. simpl. by rewrite <- !app_assoc. Qed.

Lemma forallb_seq_S (f : nat -> bool) k : forall a,
  forallb f (seq (S a) k) = forallb (fun i => f (S i)) (seq a k).
Proof. induction k as [|k IH]; intros a; simpl; [done|]. by rewrite IH. Qed.

Lemma busy_rounds_S tr k :
  busy_rounds w d tr (S k)
  = busy w d tr && busy_rounds w d (tr ++ rounds d 1) k.
Proof.
  unfold busy_rounds. cbn [seq forallb rounds]. rewrite app_nil_r. f_equal.
  rewrite forallb_seq_S.
  induction (seq 0 k) as [|i l IH]; [done|].
  cbn [forallb]. by rewrite IH, (rounds_S i), app_assoc.
Qed.

(** Rounds that find the lock taken use up one iteration each. *)
Lemma loop_busy_rounds k : forall tr fuel,
  busy_rounds w d tr k = true ->
  loop w d (k + fuel) tr = loop w d fuel (tr ++ rounds d k).
Proof.
  induction k as [|k IH]; intros tr fuel.
  - intros _. cbn [rounds]. by rewrite app_nil_r.
  - rewrite busy_rounds_S. intros [Hb Hk]%andb_prop.
    replace (S k + fuel)%nat with (S (k + fuel)) by lia.
    rewrite loop_S, (loop_body_busy _ Hb), (IH _ _ Hk).
    by rewrite (rounds_S k), app_assoc.
Qed.

(** The answer of the loop is that of the first iteration that does not
    find the lock taken; the loop gives none only when all the iterations
    it is allowed do. *)
Lemma loop_rounds fuel : forall tr tr' r,
  loop w d fuel tr = (tr', r) ->
  exists k,
    (k <= fuel)%nat
    /\ busy_rounds w d tr k = true
    /\ (k = fuel /\ r = OutOfFuel /\ tr' = tr ++ rounds d k
        \/ busy w d (tr ++ rounds d k) = false
           /\ loop_body w d (tr ++ rounds d k) = (tr', r)).
Proof.
  induction fuel as [|fuel IH]; intros tr tr' r.
  - intros [= <- <-]. exists 0%nat. cbn [rounds]. rewrite app_nil_r.
    split; [done|]. split; [done|]. by left.
  - destruct (busy w d tr) eqn:Hb.
    + rewrite loop_S, (loop_body_busy _ Hb). intros H.
      destruct (IH _ _ _ H) as (k & Hk & Hbusy & Hend).
      exists (S k). split; [lia|]. split; [by rewrite busy_rounds_S, Hb|].
      rewrite (rounds_S k), app_assoc.
      destruct Hend as [(-> & -> & ->)|Hend]; auto.
    + rewrite loop_S. intros H. exists 0%nat. cbn [rounds].
      rewrite app_nil_r.
      split; [lia|]. split; [done|]. right. split; [done|].
      destruct (loop_body w d tr) as [tr1 r1] eqn:Hbody.
      pose proof (loop_body_not_busy _ _ _ Hb Hbody) as Hne.
      by destruct r1 as [[| |]| |].
Qed.

Lemma WaitToRun_passes fuel :
  prelude_passes w d = true ->
  WaitToRun IsPeriodic w d fuel []
  = lock_or_reuse IsPeriodic w d fuel (prelude_calls d).
Proof.
  unfold prelude_passes, prelude_calls. rewrite WaitToRun_eq.
  intros [Hgo Hwait]%andb_prop. rewrite Hgo.
  destruct (limited d); [|done].
  by destruct (limiter_Wait w []).
Qed.

Lemma WaitToRun_not_passes fuel :
  prelude_passes w d = false ->
  WaitToRun IsPeriodic w d fuel [] =
    if limited d then
      ([EvLimiterWait],
       match limiter_Wait w [] with
       | Some e => Err (ErrWrap "rate limit" e)
       | None => Ok (NilLock, false)
       end)
    else ([], Ok (NilLock, false)).
Proof.
  unfold prelude_passes. rewrite WaitToRun_eq.
  destruct (limited d) eqn:Hlim.
  - destruct (limiter_Wait w []); [done|].
    apply limited_iff in Hlim as (-> & -> & _). done.
  - destruct (_ || _); [done|]. done.
Qed.

Lemma lock_or_reuse_embedded fuel tr :
  IsPeriodic (plan d) = false ->
  lock_or_reuse IsPeriodic w d fuel tr =
    (tr ++ [EvLastCheck],
     match scope_LastCheck w tr with
     | (_, Some e) => Err e
     | (lc, None) =>
         Ok (if embedded_reuses d lc then (NilLock, false)
             else (NoopLock, true))
     end).
Proof.
  intros Hper. unfold lock_or_reuse. rewrite Hper.
  cbv [mbind M_bind bind call check fail ret].
  destruct (scope_LastCheck w tr) as [lc [e|]]; [done|].
  by destruct (embedded_reuses d lc).
Qed.

(** How an iteration that does not go round again ends. *)
Lemma loop_body_end tr tr' r :
  busy w d tr = false ->
  loop_body w d tr = (tr', r) ->
  (exists lc e,
     scope_LastCheck w tr = (lc, Some e)
     /\ tr' = tr ++ [EvLastCheck] /\ r = Err e)
  \/ (exists lc,
        scope_LastCheck w tr = (lc, None) /\ skips w d tr lc = true
        /\ tr' = tr ++ reads d /\ r = Ok (Return NilLock false))
  \/ (exists lc l acquired e,
        scope_LastCheck w tr = (lc, None) /\ skips w d tr lc = false
        /\ scope_AcquireResourceCheckingLock w (tr ++ reads d)
           = (l, acquired, Some e)
        /\ tr' = tr ++ reads d ++ [EvAcquire]
        /\ r = Err (ErrWrap "acquire lock" e))
  \/ (exists lc l,
        scope_LastCheck w tr = (lc, None) /\ skips w d tr lc = false
        /\ scope_AcquireResourceCheckingLock w (tr ++ reads d)
           = (l, true, None)
        /\ tr' = tr ++ reads d ++ [EvAcquire] /\ r = Ok (Break l))
  \/ (exists lc l e,
        scope_LastCheck w tr = (lc, None) /\ skips w d tr lc = false
        /\ scope_AcquireResourceCheckingLock w (tr ++ reads d)
           = (l, false, None)
        /\ ctx_Done w (tr ++ reads d ++ [EvAcquire]) = Some e
        /\ tr' = tr ++ reads d ++ [EvAcquire; EvSelect] /\ r = Err e).
Proof.
  unfold busy. rewrite loop_body_cases.
  destruct (scope_LastCheck w tr) as [lc [e|]] eqn:Hlc.
  { intros _ [= <- <-]. left. by exists lc, e. }
  destruct (skips w d tr lc) eqn:Hs.
  { intros _ [= <- <-]. right. left. by exists lc. }
  cbn [negb andb]. rewrite acquire_and_select_eq.
  destruct (scope_AcquireResourceCheckingLock w (tr ++ reads d))
    as [[l [|]] [e|]] eqn:Hacq; rewrite <- ?app_assoc.
  - intros _ [= <- <-]. do 2 right. left. by exists lc, l, true, e.
  - intros _ [= <- <-]. do 3 right. left. by exists lc, l.
  - intros _ [= <- <-]. do 2 right. left. by exists lc, l, false, e.
  - destruct (ctx_Done w _) as [e|] eqn:Hdone; [|done].
    intros _ [= <- <-]. do 4 right. by exists lc, l, e.
Qed.

(** X1. When the lock is taken for the first [k] attempts of a periodic
    check, [WaitToRun] reads [LastCheck] afresh on attempt [k + 1]; if its
    test now says not to run it returns (no lock, false) without another
    lock attempt, and if the lock is now free it returns (lock, true). *)
Theorem WaitToRun_lock_taken_then_free (k : nat) (lc : LastCheck) :
  IsPeriodic (plan d) = true ->
  prelude_passes w d = true ->
  busy_rounds w d (prelude_calls d) k = true ->
  scope_LastCheck w (prelude_calls d ++ rounds d k) = (lc, None) ->
  forall fuel, (k < fuel)%nat ->
    if skips w d (prelude_calls d ++ rounds d k) lc then
      WaitToRun IsPeriodic w d fuel [] =
        ((prelude_calls d ++ rounds d k) ++ reads d, Ok (NilLock, false))
    else
      forall l,
        scope_AcquireResourceCheckingLock w
          ((prelude_calls d ++ rounds d k) ++ reads d) = (l, true, None) ->
        WaitToRun IsPeriodic w d fuel [] =
          (((prelude_calls d ++ rounds d k) ++ reads d) ++ [EvAcquire],
           Ok (l, true)).
Proof.
  intros Hper Hpass Hbusy Hlc fuel Hlt.
  rewrite (WaitToRun_passes _ Hpass), (lock_or_reuse_periodic _ _ _ _ _ Hper).
  replace fuel with (k + S (fuel - S k))%nat by lia.
  rewrite (loop_busy_rounds _ _ _ Hbusy), (loop_first _ _ _ _ _ Hlc).
  destruct (skips w d _ lc); [done|].
  intros l Hacq. by rewrite Hacq.
Qed.

Lemma loop_body_answers tr tr' : loop_body w d tr <> (tr', OutOfFuel).
Proof.
  rewrite loop_body_cases.
  destruct (scope_LastCheck w tr) as [lc [e|]]; [done|].
  destruct (skips w d tr lc); [done|].
  rewrite acquire_and_select_eq.
  destruct (scope_AcquireResourceCheckingLock w (tr ++ reads d))
    as [[l [|]] [e|]]; try done.
  by destruct (ctx_Done w _).
Qed.

(** X2. [WaitToRun] fails to answer only while the lock stays taken: it
    uses up [fuel] iterations without returning exactly when the check is
    periodic, the prelude lets it through, and each of the [fuel]
    iterations finds the lock taken and the context live. *)
Theorem WaitToRun_returns_unless_lock_stays_taken (fuel : nat) :
  (WaitToRun IsPeriodic w d fuel []).2 = OutOfFuel
  <-> IsPeriodic (plan d) = true
      /\ prelude_passes w d = true
      /\ busy_rounds w d (prelude_calls d) fuel = true.
Proof.
  split.
  - destruct (prelude_passes w d) eqn:Hpass.
    2:{ rewrite (WaitToRun_not_passes _ Hpass).
        destruct (limited d); [|done]. by destruct (limiter_Wait w []). }
    rewrite (WaitToRun_passes _ Hpass).
    destruct (IsPeriodic (plan d)) eqn:Hper.
    2:{ rewrite (lock_or_reuse_embedded _ _ Hper). simpl.
        by destruct (scope_LastCheck w _) as [lc [e|]]. }
    rewrite (lock_or_reuse_periodic _ _ _ _ _ Hper).
    destruct (loop w d fuel (prelude_calls d)) as [tr r] eqn:Hloop.
    destruct (loop_rounds _ _ _ _ Hloop)
      as (k & Hk & Hbusy & [(-> & -> & ->)|(Hnb & Hbody)]); [done|].
    destruct r as [[| |]| |]; try done.
    + by apply loop_Continue in Hloop.
    + by apply loop_body_answers in Hbody.
  - intros (Hper & Hpass & Hbusy).
    rewrite (WaitToRun_passes _ Hpass), (lock_or_reuse_periodic _ _ _ _ _ Hper).
    replace fuel with (fuel + 0)%nat by lia.
    by rewrite (loop_busy_rounds _ _ _ Hbusy).
Qed.

(** X3. Every error [WaitToRun] returns is that of the last call it
    made: the limiter's, wrapped as "rate limit"; a [LastCheck] read's or
    the context's, as it is; the lock's, wrapped as "acquire lock". *)
Theorem WaitToRun_error_origin (fuel : nat) (tr : list Event) (e : error) :
  WaitToRun IsPeriodic w d fuel [] = (tr, Err e) ->
  exists tr0,
    (tr = tr0 ++ [EvLimiterWait] /\ tr0 = []
     /\ exists e0, limiter_Wait w tr0 = Some e0 /\ e = ErrWrap "rate limit" e0)
    \/ (tr = tr0 ++ [EvLastCheck] /\ (scope_LastCheck w tr0).2 = Some e)
    \/ (tr = tr0 ++ [EvAcquire]
        /\ exists e0,
             (scope_AcquireResourceCheckingLock w tr0).2 = Some e0
             /\ e = ErrWrap "acquire lock" e0)
    \/ (tr = tr0 ++ [EvSelect] /\ ctx_Done w tr0 = Some e).
Proof.
  destruct (prelude_passes w d) eqn:Hpass.
  2:{ rewrite (WaitToRun_not_passes _ Hpass).
      destruct (limited d); [|done].
      destruct (limiter_Wait w []) as [e0|] eqn:Hw; [|done].
      intros [= <- <-]. exists []. left. eauto. }
  rewrite (WaitToRun_passes _ Hpass).
  destruct (IsPeriodic (plan d)) eqn:Hper.
  2:{ rewrite (lock_or_reuse_embedded _ _ Hper).
      destruct (scope_LastCheck w _) as [lc [e0|]] eqn:Hlc; [|done].
      intros [= <- <-]. exists (prelude_calls d). right. left.
      by rewrite Hlc. }
  rewrite (lock_or_reuse_periodic _ _ _ _ _ Hper).
  destruct (loop w d fuel (prelude_calls d)) as [tr1 r] eqn:Hloop.
  destruct (loop_rounds _ _ _ _ Hloop)
    as (k & Hk & Hbusy & [(-> & -> & ->)|(Hnb & Hbody)]); [done|].
  destruct r as [[| |]|e1|]; try done. intros [= <- <-].
  destruct (loop_body_end _ _ _ Hnb Hbody)
    as [(lc & e0 & Hlc & -> & [= <-])
       |[(lc & _ & _ & _ & [=])
        |[(lc & l & a & e0 & _ & _ & Hacq & -> & [= ->])
         |[(lc & l & _ & _ & _ & _ & [=])
          |(lc & l & e0 & _ & _ & _ & Hdone & -> & [= <-])]]]].
  - eexists. right. left. split; [done|]. by rewrite Hlc.
  - eexists. do 2 right. left. rewrite app_assoc. split; [done|].
    exists e0. by rewrite Hacq.
  - eexists. do 3 right.
    split; [|exact Hdone].
    by rewrite <- !app_assoc.
Qed.

Lemma first_occurrence {A} (a : A) (l1 : list A) :
  a ∉ l1 ->
  forall l2 x rest,
    l1 ++ a :: l2 = x ++ a :: rest ->
    x = l1 /\ rest = l2
    \/ exists x1, x = l1 ++ a :: x1 /\ l2 = x1 ++ a :: rest.
Proof.
  induction l1 as [|b l1 IH]; intros Hnot l2 x rest.
  - destruct x as [|c x]; simpl.
    + intros [= ->]. by left.
    + intros [= <- ->]. right. by exists x.
  - apply not_elem_of_cons in Hnot as [Hne Hnot].
    destruct x as [|c x]; simpl.
    + by intros [= <-].
    + intros [= <- H]. destruct (IH Hnot _ _ _ H) as [[-> ->]|(x1 & -> & ->)].
      * by left.
      * right. by exists x1.
Qed.

Lemma no_occurrence {A} (a : A) (l x rest : list A) :
  a ∉ l -> l <> x ++ a :: rest.
Proof. intros Hnot ->. apply Hnot. set_solver. Qed.

Lemma reads_no_acquire : EvAcquire ∉ reads d.
Proof. unfold reads. destruct (SkipInterval (plan d)); set_solver. Qed.

Lemma prelude_calls_no_acquire : EvAcquire ∉ prelude_calls d.
Proof. unfold prelude_calls. destruct (limited d); set_solver. Qed.

(** Where the lock attempts of [k] rounds and what follows them are. *)
Lemma acquire_in_rounds k : forall tail x rest,
  rounds d k ++ tail = x ++ EvAcquire :: rest ->
  (exists i, (i < k)%nat /\ x = rounds d i ++ reads d)
  \/ exists x1, x = rounds d k ++ x1 /\ tail = x1 ++ EvAcquire :: rest.
Proof.
  induction k as [|k IH]; intros tail x rest.
  - intros H. right. by exists x.
  - rewrite (rounds_S k), rounds_1, <- !app_assoc. cbn [app]. intros H.
    destruct (first_occurrence _ _ reads_no_acquire _ _ _ H)
      as [[-> _]|(x1 & -> & H1)].
    + left. exists 0%nat. split; [lia | done].
    + destruct x1 as [|c x1]; [done|]. injection H1 as <- H1.
      destruct (IH _ _ _ H1) as [(i & Hi & ->)|(x2 & -> & ->)].
      * left. exists (S i). split; [lia|].
        rewrite (rounds_S i), rounds_1, <- !app_assoc. done.
      * right. exists x2. by rewrite <- !app_assoc.
Qed.

Lemma busy_rounds_lookup tr k i :
  busy_rounds w d tr k = true -> (i < k)%nat ->
  busy w d (tr ++ rounds d i) = true.
Proof.
  unfold busy_rounds. rewrite forallb_forall. intros H Hi.
  apply H, in_seq. lia.
Qed.

Lemma busy_not_acquired tr l :
  busy w d tr = true ->
  scope_AcquireResourceCheckingLock w (tr ++ reads d) <> (l, true, None).
Proof.
  unfold busy. destruct (scope_LastCheck w tr) as [lc [e|]]; [done|].
  destruct (skips w d tr lc); [done|]. cbn [negb andb].
  by destruct (scope_AcquireResourceCheckingLock w (tr ++ reads d))
    as [[l' [|]] [e|]].
Qed.

(** X4. [WaitToRun] never keeps a lock to itself: when any of its lock
    attempts is answered with "acquired", that attempt is its last call
    and it returns that lock with shouldRun = true. *)
Theorem WaitToRun_acquired_is_returned
    (fuel : nat) (tr tr0 rest : list Event) (r : res (Lock * bool))
    (l : Lock) :
  WaitToRun IsPeriodic w d fuel [] = (tr, r) ->
  tr = tr0 ++ EvAcquire :: rest ->
  scope_AcquireResourceCheckingLock w tr0 = (l, true, None) ->
  rest = [] /\ r = Ok (l, true).
Proof.
  destruct (prelude_passes w d) eqn:Hpass.
  2:{ rewrite (WaitToRun_not_passes _ Hpass).
      destruct (limited d); intros [= <- <-] H;
        by apply no_occurrence in H; [|set_solver]. }
  rewrite (WaitToRun_passes _ Hpass).
  destruct (IsPeriodic (plan d)) eqn:Hper.
  2:{ rewrite (lock_or_reuse_embedded _ _ Hper). intros [= <- <-] H.
      apply no_occurrence in H; [done|].
      pose proof prelude_calls_no_acquire. set_solver. }
  rewrite (lock_or_reuse_periodic _ _ _ _ _ Hper).
  destruct (loop w d fuel (prelude_calls d)) as [tr1 r1] eqn:Hloop.
  intros Hres Htr Hacq.
  assert (tr1 = tr) as -> by (by destruct r1 as [[| |]| |]; injection Hres).
  destruct (loop_rounds _ _ _ _ Hloop)
    as (k & Hk & Hbusy & Hend).
  (* the trace is the prelude, [k] rounds and an ending *)
  assert (exists tail,
             tr = prelude_calls d ++ rounds d k ++ tail
             /\ (tail = [] \/ tail = [EvLastCheck] \/ tail = reads d
                 \/ (exists l' a e,
                       tail = reads d ++ [EvAcquire]
                       /\ scope_AcquireResourceCheckingLock w
                            (prelude_calls d ++ rounds d k ++ reads d)
                          = (l', a, Some e))
                 \/ (exists l',
                       tail = reads d ++ [EvAcquire]
                       /\ scope_AcquireResourceCheckingLock w
                            (prelude_calls d ++ rounds d k ++ reads d)
                          = (l', true, None)
                       /\ r1 = Ok (Break l'))
                 \/ (exists l',
                       tail = reads d ++ [EvAcquire; EvSelect]
                       /\ scope_AcquireResourceCheckingLock w
                            (prelude_calls d ++ rounds d k ++ reads d)
                          = (l', false, None))))
    as (tail & Htrace & Htail).
  { destruct Hend as [(-> & -> & ->)|(Hnb & Hbody)].
    - exists []. rewrite app_nil_r. auto.
    - destruct (loop_body_end _ _ _ Hnb Hbody)
        as [(lc & e0 & _ & -> & _)
           |[(lc & _ & _ & -> & _)
            |[(lc & l' & a & e0 & _ & _ & Ha & -> & _)
             |[(lc & l' & _ & _ & Ha & -> & ->)
              |(lc & l' & e0 & _ & _ & Ha & _ & -> & _)]]]];
        try rewrite <- !app_assoc in Ha.
      + exists [EvLastCheck]. rewrite <- !app_assoc. auto.
      + exists (reads d). rewrite <- !app_assoc. auto.
      + exists (reads d ++ [EvAcquire]). rewrite <- !app_assoc.
        split; [done|]. do 3 right. left. by exists l', a, e0.
      + exists (reads d ++ [EvAcquire]). rewrite <- !app_assoc.
        split; [done|]. do 4 right. left. by exists l'.
      + exists (reads d ++ [EvAcquire; EvSelect]). rewrite <- !app_assoc.
        split; [done|]. do 5 right. by exists l'. }
  rewrite Htr in Htrace.
  (* the attempt is not in the prelude *)
  assert (exists x, tr0 = prelude_calls d ++ x
                    /\ rounds d k ++ tail = x ++ EvAcquire :: rest)
    as (x & -> & Hx).
  { unfold prelude_calls in *. destruct (limited d).
    - destruct tr0 as [|c tr0]; [done|]. injection Htrace as -> H.
      by exists tr0.
    - by exists tr0. }
  destruct (acquire_in_rounds _ _ _ _ Hx) as [(i & Hi & ->)|(x1 & -> & Hx1)].
  { (* an attempt of a round that found the lock taken *)
    exfalso. rewrite app_assoc in Hacq.
    by apply (busy_not_acquired _ l (busy_rounds_lookup _ _ _ Hbusy Hi)). }
  (* the attempt of the ending *)
  pose proof reads_no_acquire as Hreads.
  destruct Htail as [->|[->|[->|[(l' & a & e & -> & Ha)
                    |[(l' & -> & Ha & ->)|(l' & -> & Ha)]]]]].
  - by destruct x1.
  - by apply no_occurrence in Hx1; [|set_solver].
  - by apply no_occurrence in Hx1.
  - destruct (first_occurrence _ _ Hreads _ _ _ Hx1)
      as [[-> ->]|(x2 & _ & H)]; [|by destruct x2].
    rewrite <- ?app_assoc in Hacq. congruence.
  - destruct (first_occurrence _ _ Hreads _ _ _ Hx1)
      as [[-> ->]|(x2 & _ & H)]; [|by destruct x2].
    rewrite <- ?app_assoc in Hacq.
    split; [done|]. injection Hres as <-. congruence.
  - destruct (first_occurrence _ _ Hreads [EvSelect] _ _ Hx1)
      as [[-> ->]|(x2 & _ & H)].
    + rewrite <- ?app_assoc in Hacq. congruence.
    + by destruct x2 as [|? [|? ?]].
Qed.

Lemma loop_emits_manual (P : Event -> Prop) fuel :
  SkipInterval (plan d) = true ->
  P EvLastCheck -> P EvAcquire -> P EvSelect ->
  emits P (loop w d fuel).
Proof.
  intros Hskip ? ? ?. induction fuel as [|fuel IH]; simpl.
  - apply emits_diverge.
  - apply emits_bind.
    + unfold loop_body. rewrite Hskip.
      repeat first [ by apply acquire_and_select_emits | emits_step ].
    + intros []; first [ done | apply emits_mret ].
Qed.

(** X5. Only the interval test of a periodic check that was not
    triggered manually reads the clock: a manually triggered check and a
    check embedded in a build step never call [clock.Now]. *)
Theorem WaitToRun_clock_only_for_interval (fuel : nat) :
  SkipInterval (plan d) = true \/ IsPeriodic (plan d) = false ->
  EvNow ∉ (WaitToRun IsPeriodic w d fuel []).1.
Proof.
  intros Hwhich. rewrite WaitToRun_eq.
  assert (Hlock : forall tr,
            EvNow ∉ tr ->
            EvNow ∉ (lock_or_reuse IsPeriodic w d fuel tr).1).
  { intros tr Htr.
    destruct (IsPeriodic (plan d)) eqn:Hper.
    - destruct Hwhich as [Hskip|]; [|done].
      assert (emits (fun e => e <> EvNow)
                (lock_or_reuse IsPeriodic w d fuel)) as Hemits.
      { unfold lock_or_reuse. rewrite Hper.
        apply emits_bind; [by apply loop_emits_manual|].
        intros []; emits_step. }
      destruct (Hemits tr) as (sfx & -> & Hsfx).
      rewrite Forall_forall in Hsfx.
      intros [?|Hin]%elem_of_app; [done|]. by apply (Hsfx EvNow).
    - rewrite (lock_or_reuse_embedded _ _ Hper). set_solver. }
  destruct (limited d).
  - destruct (limiter_Wait w []); [set_solver|]. apply Hlock. set_solver.
  - destruct (_ || _); [apply Hlock|]; set_solver.
Qed.

(** X6. The three tests are strict comparisons.  A periodic check runs
    when the clock reads exactly the end of the last check plus the
    interval; a manually triggered one, when the build was created exactly
    when the last check began; an embedded one, when the last check ended
    exactly when the build started. *)
Theorem WaitToRun_tests_are_strict (lc : LastCheck) (l : Lock) (fuel : nat) :
  prelude_passes w d = true ->
  scope_LastCheck w (prelude_calls d) = (lc, None) ->
  (IsPeriodic (plan d) = true ->
   SkipInterval (plan d) = false ->
   clock_Now w (prelude_calls d ++ [EvLastCheck])
   = EndTime lc + CheckInterval.Interval (Interval (plan d)) ->
   scope_AcquireResourceCheckingLock w
     (prelude_calls d ++ [EvLastCheck; EvNow]) = (l, true, None) ->
   WaitToRun IsPeriodic w d (S fuel) [] =
     (prelude_calls d ++ [EvLastCheck; EvNow; EvAcquire], Ok (l, true)))
  /\ (IsPeriodic (plan d) = true ->
      SkipInterval (plan d) = true ->
      Build.CreateTime (build d) = StartTime lc ->
      scope_AcquireResourceCheckingLock w (prelude_calls d ++ [EvLastCheck])
      = (l, true, None) ->
      WaitToRun IsPeriodic w d (S fuel) [] =
        (prelude_calls d ++ [EvLastCheck; EvAcquire], Ok (l, true)))
  /\ (IsPeriodic (plan d) = false ->
      EndTime lc = Build.StartTime (build d) ->
      WaitToRun IsPeriodic w d fuel [] =
        (prelude_calls d ++ [EvLastCheck], Ok (NoopLock, true))).
Proof.
  intros Hpass Hlc. rewrite !(WaitToRun_passes _ Hpass).
  split; [|split].
  - intros Hper Hskip Hnow Hacq.
    rewrite (lock_or_reuse_periodic _ _ _ _ _ Hper), (loop_first _ _ _ _ _ Hlc).
    unfold skips, reads, gate_rejects, interval, Before, Add.
    rewrite Hskip, Hnow, Z.ltb_irrefl. rewrite Hacq.
    by rewrite <- app_assoc.
  - intros Hper Hskip Hcreate Hacq.
    rewrite (lock_or_reuse_periodic _ _ _ _ _ Hper), (loop_first _ _ _ _ _ Hlc).
    unfold skips, reads, manual_reuses, Before.
    rewrite Hskip, Hcreate, Z.ltb_irrefl, andb_false_r.
    destruct (FromVersion (plan d)); rewrite Hacq; by rewrite <- app_assoc.
  - intros Hper Hend.
    rewrite (lock_or_reuse_embedded _ _ Hper), Hlc.
    unfold embedded_reuses, After.
    by rewrite Hend, Z.ltb_irrefl, andb_false_r.
Qed.

End EngineRoundsFacts.

Section EngineRoundsInstances.
Import Go Engine EngineRounds EngineExamples EngineRoundsExamples.

Lemma WaitToRun_lock_taken_then_free_witness :
  WaitToRun names_target busy_twice periodic 3 [] =
    ([EvLimiterWait;
      EvLastCheck; EvNow; EvAcquireResourceCheckingLock; EvSelect;
      EvLastCheck; EvNow; EvAcquireResourceCheckingLock; EvSelect;
      EvLastCheck; EvNow; EvAcquireResourceCheckingLock],
     Ok (ScopeLock 5, true)).
Proof.
  exact (WaitToRun_lock_taken_then_free names_target busy_twice periodic 2
           {| Succeeded := true; StartTime := 70; EndTime := 80 |}
           eq_refl eq_refl eq_refl eq_refl 3%nat (le_n 3) (ScopeLock 5)
           eq_refl).
Defined.

Lemma WaitToRun_error_origin_witness :
  exists tr0,
    [EvLimiterWait; EvLastCheck; EvNow; EvAcquireResourceCheckingLock;
     EvSelect] = tr0 ++ [EvSelect]
    /\ ctx_Done aborted tr0 = Some (ErrVar "context.Canceled").
Proof.
  destruct (WaitToRun_error_origin names_target aborted periodic 1
              [EvLimiterWait; EvLastCheck; EvNow;
               EvAcquireResourceCheckingLock; EvSelect]
              (ErrVar "context.Canceled") eq_refl)
    as [tr0 [(H & _)|[(H & _)|[(H & _)|H]]]];
    [exfalso; apply (f_equal (fun l => last l)) in H;
     rewrite last_snoc in H; simpl in H; discriminate H ..|].
  exists tr0. exact H.
Defined.

Lemma WaitToRun_acquired_is_returned_witness :
  @nil Event = [] /\ Ok (ScopeLock 2, true) = Ok (ScopeLock 2, true).
Proof.
  exact (WaitToRun_acquired_is_returned names_target settled periodic 1
           _ [EvLimiterWait; EvLastCheck; EvNow] [] _ (ScopeLock 2)
           eq_refl eq_refl eq_refl).
Defined.

Lemma WaitToRun_clock_only_for_interval_witness :
  SkipInterval (plan manual_from) = true
  /\ EvNow ∉ (WaitToRun names_target settled manual_from 1 []).1.
Proof.
  split; [reflexivity|].
  apply (WaitToRun_clock_only_for_interval names_target settled manual_from
           1). left. reflexivity.
Defined.

Lemma WaitToRun_tests_are_strict_witness :
  WaitToRun names_target on_the_dot periodic 1 [] =
    ([EvLimiterWait; EvLastCheck; EvNow; EvAcquireResourceCheckingLock],
     Ok (ScopeLock 6, true))
  /\ WaitToRun names_target on_the_dot manual 1 [] =
       ([EvLastCheck; EvAcquireResourceCheckingLock], Ok (ScopeLock 6, true))
  /\ WaitToRun names_target on_the_dot embedded 1 [] =
       ([EvLastCheck], Ok (NoopLock, true)).
Proof.
  split; [|split].
  - exact (proj1 (WaitToRun_tests_are_strict names_target on_the_dot periodic
                    {| Succeeded := true; StartTime := 50; EndTime := 60 |}
                    (ScopeLock 6) 0 eq_refl eq_refl)
             eq_refl eq_refl eq_refl eq_refl).
  - exact (proj1 (proj2 (WaitToRun_tests_are_strict names_target on_the_dot
                           manual
                           {| Succeeded := true; StartTime := 50;
                              EndTime := 60 |}
                           (ScopeLock 6) 0 eq_refl eq_refl))
             eq_refl eq_refl eq_refl eq_refl).
  - exact (proj2 (proj2 (WaitToRun_tests_are_strict names_target on_the_dot
                           embedded
                           {| Succeeded := true; StartTime := 50;
                              EndTime := 60 |}
                           (ScopeLock 6) 1 eq_refl eq_refl))
             eq_refl eq_refl).
Defined.

End EngineRoundsInstances.

Section EngineDelegateFacts.
Import Go Engine EngineDelegate.
Variable w : World.
Variable plan : CheckPlan.

#[local] Abbreviation pipeline_calls l :=
  (count_occ Event_eq_dec l EvBuildPipeline).

Ltac run_delegate :=
  unfold resource, resourceType, prototype, lookup, pipeline, point, dwrap,
    mbind, D_bind, dbind, mret, D_ret, dret, dfail, dcall, read,
    set_cachedPipeline, set_cachedResource, set_cachedResourceType,
    set_cachedPrototype in *;
  cbn beta iota delta [cachedPipeline cachedResource cachedResourceType
    cachedPrototype calls] in *.

Lemma dbind_inv {A B} (m : D A) (k : A -> D B) s s' r :
  (m ≫= k) s = (s', r) ->
  (exists s1 a, m s = (s1, Ok a) /\ k a s1 = (s', r))
  \/ (exists e, m s = (s', Err e) /\ r = Err e)
  \/ (m s = (s', OutOfFuel) /\ r = OutOfFuel).
Proof.
  unfold mbind, D_bind, dbind. destruct (m s) as [s1 [a|e|]]; intros H.
  - left. eauto.
  - right. left. inversion H. eauto.
  - right. right. inversion H. eauto.
Qed.

Lemma dwrap_inv {A} msg (m : D A) s s' r :
  dwrap msg m s = (s', r) ->
  (exists a, m s = (s', Ok a) /\ r = Ok a)
  \/ (exists e, m s = (s', Err e) /\ r = Err (ErrWrap msg e))
  \/ (m s = (s', OutOfFuel) /\ r = OutOfFuel).
Proof.
  unfold dwrap. destruct (m s) as [s1 [a|e|]]; intros H; inversion H; eauto.
Qed.

Ltac lookup_spec :=
  let H := fresh in
  intros H; match goal with s : State |- _ => destruct s end;
  run_delegate;
  repeat case_match; simplify_eq; cbn [calls cachedPipeline cachedResource
    cachedResourceType cachedPrototype];
  rewrite <- ?app_assoc;
  eexists; (split; [try reflexivity; symmetry; apply app_nil_r|]);
  repeat split; try done; try (intros; simplify_eq; done);
  try (intros ? ?; simplify_eq; split; [done|simpl; lia]);
  try (intros [? ?]; done);
  try (intros ->; done);
  try (simpl; lia);
  try (apply String.eqb_eq; done); try (apply String.eqb_neq; done);
  try (intros [? ?]; done).

Lemma resource_spec s s' r :
  resource w plan s = (s', r) ->
  exists l, calls s' = calls s ++ l
    /\ filter sets_scope l = []
    /\ cachedResourceType s' = cachedResourceType s
    /\ cachedPrototype s' = cachedPrototype s
    /\ (forall p, cachedPipeline s = Some p ->
          cachedPipeline s' = Some p /\ pipeline_calls l = 0%nat)
    /\ (pipeline_calls l <= 1)%nat
    /\ (cachedPipeline s' = None -> cachedPipeline s = None)
    /\ match r with
       | Ok None => Resource plan = "" /\ s' = s
       | Ok (Some x) =>
           Resource plan <> "" /\ cachedResource s' = Some x
           /\ (cachedPipeline s' = None -> l = [])
           /\ (cachedResource s = None -> l <> [])
           /\ (is_Some (cachedResource s) -> s' = s)
       | Err e =>
           Resource plan <> "" /\ cachedResource s' = None
           /\ cachedResource s = None /\ l <> []
       | OutOfFuel => False
       end.
Proof. lookup_spec. Qed.

Lemma resourceType_spec s s' r :
  resourceType w plan s = (s', r) ->
  exists l, calls s' = calls s ++ l
    /\ filter sets_scope l = []
    /\ cachedResource s' = cachedResource s
    /\ cachedPrototype s' = cachedPrototype s
    /\ (forall p, cachedPipeline s = Some p ->
          cachedPipeline s' = Some p /\ pipeline_calls l = 0%nat)
    /\ (pipeline_calls l <= 1)%nat
    /\ (cachedPipeline s' = None -> cachedPipeline s = None)
    /\ match r with
       | Ok None => ResourceType plan = "" /\ s' = s
       | Ok (Some x) =>
           ResourceType plan <> "" /\ cachedResourceType s' = Some x
           /\ (cachedPipeline s' = None -> l = [])
           /\ (cachedResourceType s = None -> l <> [])
           /\ (is_Some (cachedResourceType s) -> s' = s)
       | Err e =>
           ResourceType plan <> "" /\ cachedResourceType s' = None
           /\ cachedResourceType s = None /\ l <> []
       | OutOfFuel => False
       end.
Proof. lookup_spec. Qed.

Lemma prototype_spec s s' r :
  prototype w plan s = (s', r) ->
  exists l, calls s' = calls s ++ l
    /\ filter sets_scope l = []
    /\ cachedResource s' = cachedResource s
    /\ cachedResourceType s' = cachedResourceType s
    /\ (forall p, cachedPipeline s = Some p ->
          cachedPipeline s' = Some p /\ pipeline_calls l = 0%nat)
    /\ (pipeline_calls l <= 1)%nat
    /\ (cachedPipeline s' = None -> cachedPipeline s = None)
    /\ match r with
       | Ok None => Prototype plan = "" /\ s' = s
       | Ok (Some x) =>
           Prototype plan <> "" /\ cachedPrototype s' = Some x
           /\ (cachedPipeline s' = None -> l = [])
           /\ (cachedPrototype s = None -> l <> [])
           /\ (is_Some (cachedPrototype s) -> s' = s)
       | Err e =>
           Prototype plan <> "" /\ cachedPrototype s' = None
           /\ cachedPrototype s = None /\ l <> []
       | OutOfFuel => False
       end.
Proof. lookup_spec. Qed.

Lemma point_spec {A} (found : option A) ev set msg s s' r :
  (forall x, sets_scope (ev x) = true) ->
  point found ev set msg s = (s', r) ->
  calls s' = calls s ++ from_option (fun x => [ev x]) [] found
  /\ cachedPipeline s' = cachedPipeline s
  /\ cachedResource s' = cachedResource s
  /\ cachedResourceType s' = cachedResourceType s
  /\ cachedPrototype s' = cachedPrototype s
  /\ match r with
     | Ok _ => forall x, found = Some x -> set (calls s) x = None
     | Err e => exists x e0, found = Some x /\ set (calls s) x = Some e0
                  /\ e = ErrWrap msg e0
     | OutOfFuel => False
     end.
Proof.
  intros Hev H. destruct s. destruct found as [x|]; run_delegate.
  - destruct (set calls0 x) eqn:E; simplify_eq; cbn; repeat split; eauto.
    intros ? ?; simplify_eq; done.
  - simplify_eq. cbn. rewrite app_nil_r. repeat split; done.
Qed.

Lemma asked_once_trans ok s s1 s' :
  asked_once true s s1 -> asked_once ok s1 s' -> asked_once ok s s'.
Proof.
  intros (l1 & E1 & B1 & P1 & N1) (l2 & E2 & B2 & P2 & N2).
  exists (l1 ++ l2). rewrite E2, E1, <- app_assoc, count_occ_app.
  split; [done|]. destruct (cachedPipeline s1) as [p1|] eqn:E.
  - destruct (P2 p1 eq_refl) as [E' Z]. split; [lia|]. split.
    + intros p Hp. destruct (P1 _ Hp) as [E'' Z']. split; [congruence|lia].
    + intros _ C. congruence.
  - specialize (N1 eq_refl eq_refl). split; [lia|]. split.
    + intros p Hp. destruct (P1 _ Hp) as [E'' Z']. congruence.
    + intros O C. specialize (N2 O C). lia.
Qed.

Lemma asks_once_bind {A B} (m : D A) (k : A -> D B) :
  asks_once m -> (forall a, asks_once (k a)) -> asks_once (m ≫= k).
Proof.
  intros Hm Hk s s' r H.
  apply dbind_inv in H as [(s1 & a & H1 & H)|[(e & H1 & ->)|[H1 ->]]].
  - eapply asked_once_trans; [apply (Hm _ _ _ H1)|apply (Hk _ _ _ _ H)].
  - apply (Hm _ _ _ H1).
  - apply (Hm _ _ _ H1).
Qed.

Lemma asks_once_dwrap {A} msg (m : D A) :
  asks_once m -> asks_once (dwrap msg m).
Proof.
  intros Hm s s' r H.
  apply dwrap_inv in H as [(a & H1 & ->)|[(e & H1 & ->)|[H1 ->]]];
    apply (Hm _ _ _ H1).
Qed.

Lemma asks_once_mret {A} (a : A) : asks_once (mret a).
Proof.
  intros s s' r H. inversion H. exists []. rewrite app_nil_r.
  split; [done|]. split; [simpl; lia|]. split; [|done]. intros p Hp. done.
Qed.

Lemma asks_once_resource : asks_once (resource w plan).
Proof.
  intros s s' r H.
  destruct (resource_spec _ _ _ H) as (l & E & _ & _ & _ & P & B & N & R).
  exists l. do 3 (split; [done|]).
  intros O C. destruct r as [[x|]| |]; try done.
  - destruct R as (_ & _ & R & _). by rewrite (R C).
  - destruct R as [_ ->]. rewrite <- (app_nil_r (calls s)) in E at 1.
    by apply app_inv_head in E as <-.
Qed.

Lemma asks_once_resourceType : asks_once (resourceType w plan).
Proof.
  intros s s' r H.
  destruct (resourceType_spec _ _ _ H) as (l & E & _ & _ & _ & P & B & N & R).
  exists l. do 3 (split; [done|]).
  intros O C. destruct r as [[x|]| |]; try done.
  - destruct R as (_ & _ & R & _). by rewrite (R C).
  - destruct R as [_ ->]. rewrite <- (app_nil_r (calls s)) in E at 1.
    by apply app_inv_head in E as <-.
Qed.

Lemma asks_once_prototype : asks_once (prototype w plan).
Proof.
  intros s s' r H.
  destruct (prototype_spec _ _ _ H) as (l & E & _ & _ & _ & P & B & N & R).
  exists l. do 3 (split; [done|]).
  intros O C. destruct r as [[x|]| |]; try done.
  - destruct R as (_ & _ & R & _). by rewrite (R C).
  - destruct R as [_ ->]. rewrite <- (app_nil_r (calls s)) in E at 1.
    by apply app_inv_head in E as <-.
Qed.

Lemma asks_once_point {A} (found : option A) ev set msg :
  (forall x, sets_scope (ev x) = true) -> asks_once (point found ev set msg).
Proof.
  intros Hev s s' r H.
  destruct (point_spec _ _ _ _ _ _ _ Hev H) as (E & P & _).
  eexists. split; [exact E|]. rewrite P.
  assert (count_occ Event_eq_dec (from_option (fun x => [ev x]) [] found)
            EvBuildPipeline = 0%nat) as ->.
  { destruct found as [x|]; [|done]. simpl. specialize (Hev x).
    destruct (ev x); try done. }
  split; [lia|]. split; [|done]. intros p Hp. done.
Qed.

Lemma asks_once_PointToCheckedConfig scope :
  asks_once (PointToCheckedConfig w plan scope).
Proof.
  unfold PointToCheckedConfig.
  repeat first
    [ apply asks_once_bind; [|intros ?]
    | apply asks_once_dwrap
    | apply asks_once_resource
    | apply asks_once_resourceType
    | apply asks_once_prototype
    | apply asks_once_point; done
    | apply asks_once_mret ].
Qed.

(** X7. However many of the resource, the resource type and the prototype
    a check names, [PointToCheckedConfig] asks the build for its pipeline
    at most once, and not at all when the delegate has the pipeline
    cached. *)
Theorem PointToCheckedConfig_asks_for_pipeline_once scope s s' r :
  PointToCheckedConfig w plan scope s = (s', r) ->
  exists l, calls s' = calls s ++ l
    /\ (count_occ Event_eq_dec l EvBuildPipeline <= 1)%nat
    /\ (is_Some (cachedPipeline s) -> EvBuildPipeline ∉ l).
Proof.
  intros H.
  destruct (asks_once_PointToCheckedConfig scope _ _ _ H)
    as (l & E & B & P & _).
  exists l. do 2 (split; [done|]).
  intros [p Hp]. destruct (P p Hp) as [_ Z].
  apply (count_occ_not_In Event_eq_dec) in Z. by rewrite list_elem_of_In.
Qed.

#[local] Abbreviation point_resource scope found :=
  (point found (fun r => EvResourceSetResourceConfigScope r scope)
     (fun tr r => resource_SetResourceConfigScope w tr r scope)
     "set resource scope").
#[local] Abbreviation point_resourceType scope found :=
  (point found (fun t => EvResourceTypeSetResourceConfigScope t scope)
     (fun tr t => resourceType_SetResourceConfigScope w tr t scope)
     "set resource type scope").
#[local] Abbreviation point_prototype scope found :=
  (point found (fun p => EvPrototypeSetResourceConfigScope p scope)
     (fun tr p => prototype_SetResourceConfigScope w tr p scope)
     "set prototype scope").

(** A run of [PointToCheckedConfig], stage by stage. *)
Lemma PointToCheckedConfig_run scope s s' r :
  PointToCheckedConfig w plan scope s = (s', r) ->
  exists s1 r1, resource w plan s = (s1, r1) /\
  match r1 with
  | Ok f1 => exists s2 r2, point_resource scope f1 s1 = (s2, r2) /\
    match r2 with
    | Ok _ => exists s3 r3, resourceType w plan s2 = (s3, r3) /\
      match r3 with
      | Ok f2 => exists s4 r4, point_resourceType scope f2 s3 = (s4, r4) /\
        match r4 with
        | Ok _ => exists s5 r5, prototype w plan s4 = (s5, r5) /\
          match r5 with
          | Ok f3 => exists r6, point_prototype scope f3 s5 = (s', r6) /\
            match r6 with
            | Ok _ => r = Ok tt
            | Err e => r = Err e
            | OutOfFuel => r = OutOfFuel
            end
          | Err e => s' = s5 /\ r = Err (ErrWrap "get prototype" e)
          | OutOfFuel => s' = s5 /\ r = OutOfFuel
          end
        | Err e => s' = s4 /\ r = Err e
        | OutOfFuel => s' = s4 /\ r = OutOfFuel
        end
      | Err e => s' = s3 /\ r = Err (ErrWrap "get resource type" e)
      | OutOfFuel => s' = s3 /\ r = OutOfFuel
      end
    | Err e => s' = s2 /\ r = Err e
    | OutOfFuel => s' = s2 /\ r = OutOfFuel
    end
  | Err e => s' = s1 /\ r = Err (ErrWrap "get resource" e)
  | OutOfFuel => s' = s1 /\ r = OutOfFuel
  end.
Proof.
  unfold PointToCheckedConfig, mbind, D_bind, dbind, dwrap.
  destruct (resource w plan s) as [s1 r1]. intros H. exists s1, r1.
  split; [done|]. destruct r1 as [f1|e|]; [|by inversion H..].
  destruct (point_resource scope f1 s1) as [s2 r2]. exists s2, r2.
  split; [done|]. destruct r2 as [[]|e|]; [|by inversion H..].
  destruct (resourceType w plan s2) as [s3 r3]. exists s3, r3.
  split; [done|]. destruct r3 as [f2|e|]; [|by inversion H..].
  destruct (point_resourceType scope f2 s3) as [s4 r4]. exists s4, r4.
  split; [done|]. destruct r4 as [[]|e|]; [|by inversion H..].
  destruct (prototype w plan s4) as [s5 r5]. exists s5, r5.
  split; [done|]. destruct r5 as [f3|e|]; [|by inversion H..].
  destruct (point_prototype scope f3 s5) as [s6 r6]. exists r6.
  destruct r6 as [[]|e|]; by inversion H.
Qed.

Lemma sets_scope_resource scope (r : db.Resource) :
  sets_scope (EvResourceSetResourceConfigScope r scope) = true.
Proof. reflexivity. Qed.

Lemma sets_scope_resourceType scope (t : db.ResourceType) :
  sets_scope (EvResourceTypeSetResourceConfigScope t scope) = true.
Proof. reflexivity. Qed.

Lemma sets_scope_prototype scope (p : db.Prototype) :
  sets_scope (EvPrototypeSetResourceConfigScope p scope) = true.
Proof. reflexivity. Qed.

Lemma filter_sets_scope_found {A} (found : option A) ev :
  (forall x, sets_scope (ev x) = true) ->
  filter sets_scope (from_option (fun x => [ev x]) [] found)
  = from_option (fun x => [ev x]) [] found.
Proof.
  intros Hev. destruct found as [x|]; [|done]. simpl.
  rewrite filter_cons, Hev. done.
Qed.

Lemma named_found {A} name (found cached : option A) ev :
  match found with
  | Some x => name <> "" /\ cached = Some x
  | None => name = ""
  end ->
  named name cached ev = from_option (fun x => [ev x]) [] found.
Proof.
  unfold named. destruct found as [x|].
  - intros [N ->]. apply String.eqb_neq in N. by rewrite N.
  - intros ->. done.
Qed.

(** X8. When [PointToCheckedConfig] returns no error, the calls it made
    that point something to the scope are, in this order, one for the
    resource, one for the resource type and one for the prototype, each
    only if the check names it, and each on what the delegate now has
    cached under that name. *)
Theorem PointToCheckedConfig_points_what_is_named scope s s' :
  PointToCheckedConfig w plan scope s = (s', Ok tt) ->
  exists l, calls s' = calls s ++ l
    /\ filter sets_scope l = targets plan scope s'
    /\ (Resource plan <> "" -> is_Some (cachedResource s'))
    /\ (ResourceType plan <> "" -> is_Some (cachedResourceType s'))
    /\ (Prototype plan <> "" -> is_Some (cachedPrototype s')).
Proof.
  intros H. apply PointToCheckedConfig_run in H as (s1 & r1 & H1 & H).
  destruct r1 as [f1|e|]; [|by destruct H..].
  destruct H as (s2 & r2 & H2 & H).
  destruct r2 as [[]|e|]; [|by destruct H..].
  destruct H as (s3 & r3 & H3 & H).
  destruct r3 as [f2|e|]; [|by destruct H..].
  destruct H as (s4 & r4 & H4 & H).
  destruct r4 as [[]|e|]; [|by destruct H..].
  destruct H as (s5 & r5 & H5 & H).
  destruct r5 as [f3|e|]; [|by destruct H..].
  destruct H as (r6 & H6 & H).
  destruct r6 as [[]|e|]; [|done..]. clear H.
  apply resource_spec in H1 as (l1 & E1 & S1 & T1 & P1 & _ & _ & _ & R1).
  apply point_spec in H2 as (E2 & _ & R2 & T2 & P2 & _);
    [|apply sets_scope_resource].
  apply resourceType_spec in H3 as (l3 & E3 & S3 & R3 & P3 & _ & _ & _ & T3).
  apply point_spec in H4 as (E4 & _ & R4 & T4 & P4 & _);
    [|apply sets_scope_resourceType].
  apply prototype_spec in H5 as (l5 & E5 & S5 & R5 & T5 & _ & _ & _ & P5).
  apply point_spec in H6 as (E6 & _ & R6 & T6 & P6 & _);
    [|apply sets_scope_prototype].
  eexists. split.
  { rewrite E6, E5, E4, E3, E2, E1, <- !app_assoc. reflexivity. }
  assert (match f1 with
          | Some x => Resource plan <> "" /\ cachedResource s' = Some x
          | None => Resource plan = "" end) as N1.
  { destruct f1; [|apply R1]. split; [apply R1|].
    rewrite R6, R5, R4, R3, R2. apply R1. }
  assert (match f2 with
          | Some x => ResourceType plan <> ""
                      /\ cachedResourceType s' = Some x
          | None => ResourceType plan = "" end) as N2.
  { destruct f2; [|apply T3]. split; [apply T3|].
    rewrite T6, T5, T4. apply T3. }
  assert (match f3 with
          | Some x => Prototype plan <> "" /\ cachedPrototype s' = Some x
          | None => Prototype plan = "" end) as N3.
  { destruct f3; [|apply P5]. split; [apply P5|]. rewrite P6. apply P5. }
  split.
  { rewrite !filter_app, S1, S3, S5.
    rewrite !filter_sets_scope_found by done.
    unfold targets.
    rewrite (named_found _ f1), (named_found _ f2), (named_found _ f3)
      by done.
    done. }
  split; [|split].
  - intros N. destruct f1; [rewrite (proj2 N1); eauto|done].
  - intros N. destruct f2; [rewrite (proj2 N2); eauto|done].
  - intros N. destruct f3; [rewrite (proj2 N3); eauto|done].
Qed.

Lemma app_self_nil {A} (l k : list A) : l = l ++ k -> k = [].
Proof.
  intros H. rewrite <- (app_nil_r l) in H at 1. by apply app_inv_head in H.
Qed.

Lemma remembers_lookup {A} (m : D (option A)) (cached : State -> option A)
    (name : string) :
  (forall s s' r, m s = (s', r) ->
     exists l, calls s' = calls s ++ l /\
       match r with
       | Ok None => name = "" /\ s' = s
       | Ok (Some x) =>
           name <> "" /\ cached s' = Some x
           /\ (cached s = None -> l <> []) /\ (is_Some (cached s) -> s' = s)
       | Err e =>
           name <> "" /\ cached s' = None /\ cached s = None /\ l <> []
       | OutOfFuel => False
       end) ->
  remembers m.
Proof.
  intros spec s s1 s2 r1 r2 H1 H2.
  destruct (spec _ _ _ H1) as (l1 & E1 & R1).
  destruct (spec _ _ _ H2) as (l2 & E2 & R2).
  destruct r1 as [[x|]|e|]; [| | |done].
  - destruct R1 as (N & C & _).
    assert (s2 = s1 /\ r2 = Ok (Some x)) as [-> ->]; [|done].
    destruct r2 as [[y|]|e|]; [| | |done].
    + destruct R2 as (_ & C2 & _ & R2). rewrite C in R2.
      rewrite (R2 (ltac:(eauto))) in C2 |- *. split; congruence.
    + by destruct R2.
    + destruct R2 as (_ & _ & ? & _). congruence.
  - destruct R1 as [N ->]. destruct r2 as [[y|]|e|]; [| | |done].
    + by destruct R2.
    + destruct R2 as [_ ->]. done.
    + by destruct R2.
  - destruct R1 as (N & C & _). split; [|done]. split; [|done].
    intros E. rewrite E in E2. apply app_self_nil in E2 as ->.
    destruct r2 as [[y|]|e2|]; [| | |done].
    + destruct R2 as (_ & _ & R2 & _). by destruct (R2 C).
    + by destruct R2.
    + by destruct R2 as (_ & _ & _ & R2).
Qed.

(** X9. [resource], [resourceType] and [prototype] remember what they
    found and never a failure: called twice in a row, the second call
    asks the database nothing exactly when the first returned no error,
    and then it returns what the first returned. *)
Theorem lookups_remember_successes_only :
  remembers (resource w plan) /\ remembers (resourceType w plan)
  /\ remembers (prototype w plan).
Proof.
  split; [|split].
  - apply (remembers_lookup _ cachedResource (Resource plan)).
    intros s s' r H.
    apply resource_spec in H as (l & E & _ & _ & _ & _ & _ & _ & R).
    exists l. split; [done|]. destruct r as [[x|]|e|]; [|done..].
    destruct R as (? & ? & _ & ? & ?). done.
  - apply (remembers_lookup _ cachedResourceType (ResourceType plan)).
    intros s s' r H.
    apply resourceType_spec in H as (l & E & _ & _ & _ & _ & _ & _ & R).
    exists l. split; [done|]. destruct r as [[x|]|e|]; [|done..].
    destruct R as (? & ? & _ & ? & ?). done.
  - apply (remembers_lookup _ cachedPrototype (Prototype plan)).
    intros s s' r H.
    apply prototype_spec in H as (l & E & _ & _ & _ & _ & _ & _ & R).
    exists l. split; [done|]. destruct r as [[x|]|e|]; [|done..].
    destruct R as (? & ? & _ & ? & ?). done.
Qed.

Lemma app_eq_self {A} (l k : list A) : l ++ k = l <-> k = [].
Proof.
  split; [|intros ->; apply app_nil_r].
  intros H. symmetry in H. by apply app_self_nil in H.
Qed.

(** X10. [PointToCheckedConfig] calls nothing at all exactly when the
    check names no resource, no resource type and no prototype. *)
Theorem PointToCheckedConfig_calls_nothing_iff scope s :
  calls (PointToCheckedConfig w plan scope s).1 = calls s
  <-> Resource plan = "" /\ ResourceType plan = ""
      /\ Prototype plan = "".
Proof.
  destruct (PointToCheckedConfig w plan scope s) as [s' r] eqn:H. simpl.
  apply PointToCheckedConfig_run in H as (s1 & r1 & H1 & H).
  apply resource_spec in H1 as (l1 & E1 & _ & _ & _ & _ & _ & _ & R1).
  destruct r1 as [f1|e|]; [| |done].
  2:{ destruct H as [-> ->]. rewrite E1, app_eq_self. naive_solver. }
  destruct H as (s2 & r2 & H2 & H).
  apply point_spec in H2 as (E2 & _ & _ & _ & _ & R2);
    [|apply sets_scope_resource].
  assert (l1 ++ from_option
            (fun r => [EvResourceSetResourceConfigScope r scope]) [] f1 = []
          <-> Resource plan = "") as Q1.
  { destruct f1 as [x|]; simpl.
    - rewrite app_nil. naive_solver.
    - destruct R1 as [N ->]. apply app_self_nil in E1. rewrite app_nil_r.
      done. }
  rewrite E1, <- app_assoc in E2. clear E1 R1.
  destruct r2 as [[]|e|]; [| |done].
  2:{ destruct H as [-> ->]. rewrite E2, app_eq_self.
      destruct R2 as (x & e0 & -> & _). simpl in *. rewrite app_nil in *.
      naive_solver. }
  destruct H as (s3 & r3 & H3 & H).
  apply resourceType_spec in H3 as (l3 & E3 & _ & _ & _ & _ & _ & _ & R3).
  destruct r3 as [f2|e|]; [| |done].
  2:{ destruct H as [-> ->]. rewrite E3, E2, <- app_assoc, app_eq_self.
      rewrite !app_nil in *. naive_solver. }
  destruct H as (s4 & r4 & H4 & H).
  apply point_spec in H4 as (E4 & _ & _ & _ & _ & R4);
    [|apply sets_scope_resourceType].
  assert (l3 ++ from_option
            (fun t => [EvResourceTypeSetResourceConfigScope t scope]) [] f2
          = [] <-> ResourceType plan = "") as Q2.
  { destruct f2 as [x|]; simpl.
    - rewrite app_nil. naive_solver.
    - destruct R3 as [N ->]. apply app_self_nil in E3. rewrite app_nil_r.
      done. }
  rewrite E3, <- app_assoc in E4. clear E3 R3.
  destruct r4 as [[]|e|]; [| |done].
  2:{ destruct H as [-> ->]. rewrite E4, E2, <- app_assoc, app_eq_self.
      destruct R4 as (x & e0 & -> & _). simpl in *. rewrite !app_nil in *.
      naive_solver. }
  destruct H as (s5 & r5 & H5 & H).
  apply prototype_spec in H5 as (l5 & E5 & _ & _ & _ & _ & _ & _ & R5).
  destruct r5 as [f3|e|]; [| |done].
  2:{ destruct H as [-> ->].
      rewrite E5, E4, E2, <- !app_assoc, app_eq_self.
      rewrite !app_nil in *. naive_solver. }
  destruct H as (r6 & H6 & H).
  apply point_spec in H6 as (E6 & _ & _ & _ & _ & R6);
    [|apply sets_scope_prototype].
  assert (l5 ++ from_option
            (fun p => [EvPrototypeSetResourceConfigScope p scope]) [] f3
          = [] <-> Prototype plan = "") as Q3.
  { destruct f3 as [x|]; simpl.
    - rewrite app_nil. naive_solver.
    - destruct R5 as [N ->]. apply app_self_nil in E5. rewrite app_nil_r.
      done. }
  rewrite E5, <- app_assoc in E6. clear E5 R5.
  rewrite E6, E4, E2, <- !app_assoc, app_eq_self.
  rewrite !app_nil in *. naive_solver.
Qed.

(** X11. [PointToCheckedConfig] undoes nothing.  When it returns an error
    about the resource type or the prototype and the check names a
    resource, the resource has been pointed to the scope before, by a
    call that returned no error. *)
Theorem PointToCheckedConfig_no_rollback scope s s' msg e :
  PointToCheckedConfig w plan scope s = (s', Err (ErrWrap msg e)) ->
  msg ∈ ["get resource type"; "set resource type scope"; "get prototype";
         "set prototype scope"] ->
  Resource plan <> "" ->
  exists r tr rest,
    cachedResource s' = Some r
    /\ calls s' = tr ++ EvResourceSetResourceConfigScope r scope :: rest
    /\ calls s `prefix_of` tr
    /\ resource_SetResourceConfigScope w tr r scope = None.
Proof.
  intros H Hmsg N.
  assert (msg <> "get resource" /\ msg <> "set resource scope") as [M1 M2].
  { set_unfold in Hmsg. split; intros ->; naive_solver. }
  clear Hmsg.
  apply PointToCheckedConfig_run in H as (s1 & r1 & H1 & H).
  apply resource_spec in H1 as (l1 & E1 & _ & _ & _ & _ & _ & _ & R1).
  destruct r1 as [[x|]|e1|]; [|by destruct R1|destruct H; congruence|done].
  destruct R1 as (_ & C1 & _).
  destruct H as (s2 & r2 & H2 & H).
  apply point_spec in H2 as (E2 & _ & C2 & _ & _ & R2);
    [|apply sets_scope_resource].
  simpl in E2. rewrite <- C2 in C1. clear C2.
  destruct r2 as [[]|e2|]; [| |done].
  2:{ destruct R2 as (? & ? & _ & _ & ->). destruct H; congruence. }
  specialize (R2 x eq_refl).
  assert (forall s3, cachedResource s3 = cachedResource s2 ->
            (exists l, calls s3 = calls s2 ++ l) ->
            exists r tr rest,
              cachedResource s3 = Some r
              /\ calls s3 = tr ++ EvResourceSetResourceConfigScope r scope
                                  :: rest
              /\ calls s `prefix_of` tr
              /\ resource_SetResourceConfigScope w tr r scope = None) as K.
  { intros s3 C3 [l E3]. exists x, (calls s1), l. split; [congruence|].
    split; [by rewrite E3, E2, <- app_assoc|].
    split; [by exists l1|done]. }
  clear R2 E1 N.
  destruct H as (s3 & r3 & H3 & H).
  apply resourceType_spec in H3 as (l3 & E3 & _ & C3 & _ & _ & _ & _ & R3).
  destruct r3 as [f2|e3|]; [| |done].
  2:{ destruct H as [-> _]. apply K; eauto. }
  destruct H as (s4 & r4 & H4 & H).
  apply point_spec in H4 as (E4 & _ & C4 & _ & _ & R4);
    [|apply sets_scope_resourceType].
  destruct r4 as [[]|e4|]; [| |done].
  2:{ destruct H as [-> _]. apply K; [congruence|].
      rewrite E4, E3, <- app_assoc. eauto. }
  destruct H as (s5 & r5 & H5 & H).
  apply prototype_spec in H5 as (l5 & E5 & _ & C5 & _ & _ & _ & _ & R5).
  destruct r5 as [f3|e5|]; [| |done].
  2:{ destruct H as [-> _]. apply K; [congruence|].
      rewrite E5, E4, E3, <- !app_assoc. eauto. }
  destruct H as (r6 & H6 & H).
  apply point_spec in H6 as (E6 & _ & C6 & _ & _ & R6);
    [|apply sets_scope_prototype].
  destruct r6 as [[]|e6|]; [done| |done].
  apply K; [congruence|]. rewrite E6, E5, E4, E3, <- !app_assoc. eauto.
Qed.

(** X12. When [FindOrCreateScope] returns a scope, its last call asked the
    resource config for the scope, with the resource the delegate has
    cached if the check names one and with nil if not, and the scope
    returned is the answer.  A check that names no resource makes no
    other call. *)
Theorem FindOrCreateScope_for_the_cached_resource config s s' scope :
  FindOrCreateScope w plan config s = (s', Ok scope) ->
  exists tr resource,
    calls s' = tr ++ [EvConfigFindOrCreateScope config resource]
    /\ config_FindOrCreateScope w tr config resource = (scope, None)
    /\ (if String.eqb (Resource plan) "" then
          resource = None /\ tr = calls s
        else is_Some resource /\ resource = cachedResource s').
Proof.
  unfold FindOrCreateScope. intros H.
  apply dbind_inv in H as [(s1 & f & H1 & H)|[(e & H1 & ?)|[H1 ?]]];
    [|done..].
  apply dwrap_inv in H1 as [(f' & H1 & ?)|[(e & H1 & ?)|[H1 ?]]]; [|done..].
  simplify_eq.
  apply resource_spec in H1 as (l1 & E1 & _ & _ & _ & _ & _ & _ & R1).
  unfold mbind, D_bind, dbind, dcall in H.
  destruct (config_FindOrCreateScope w (calls s1) config f')
    as [scope' [e|]] eqn:E; [done|].
  unfold mret, D_ret, dret in H. simplify_eq. cbn [calls cachedResource].
  exists (calls s1), f'. split; [done|]. split; [done|].
  destruct f' as [x|].
  - destruct R1 as (N & C & _). apply String.eqb_neq in N. rewrite N. eauto.
  - destruct R1 as [-> ->]. done.
Qed.

End EngineDelegateFacts.

Section EngineDelegateInstances.
Import Go Engine EngineDelegate EngineDelegateExamples.
#[local] Open Scope nat_scope.

Lemma PointToCheckedConfig_asks_for_pipeline_once_witness :
  exists l, calls pointed = calls fresh ++ l
    /\ (count_occ Event_eq_dec l EvBuildPipeline <= 1)
    /\ (is_Some (cachedPipeline fresh) -> EvBuildPipeline ∉ l).
Proof.
  exact (PointToCheckedConfig_asks_for_pipeline_once all_found repo_check
           7 fresh pointed (Ok tt) eq_refl).
Defined.

Lemma PointToCheckedConfig_points_what_is_named_witness :
  exists l, calls pointed = calls fresh ++ l
    /\ filter sets_scope l = targets repo_check 7 pointed
    /\ (Resource repo_check <> "" -> is_Some (cachedResource pointed))
    /\ (ResourceType repo_check <> "" ->
        is_Some (cachedResourceType pointed))
    /\ (Prototype repo_check <> "" ->
        is_Some (cachedPrototype pointed)).
Proof.
  exact (PointToCheckedConfig_points_what_is_named all_found repo_check
           7 fresh pointed eq_refl).
Defined.

Lemma lookups_remember_successes_only_witness :
  (calls looked_up = calls looked_up <-> true = true)
  /\ (true = true ->
      looked_up = looked_up /\ Ok (Some 10) = Ok (Some 10)).
Proof.
  exact (proj1 (lookups_remember_successes_only all_found repo_check)
           fresh looked_up looked_up (Ok (Some 10)) (Ok (Some 10))
           eq_refl eq_refl).
Defined.

Lemma PointToCheckedConfig_no_rollback_witness :
  exists r tr rest,
    cachedResource half_pointed = Some r
    /\ calls half_pointed
       = tr ++ EvResourceSetResourceConfigScope r 7 :: rest
    /\ calls fresh `prefix_of` tr
    /\ resource_SetResourceConfigScope type_deleted tr r 7 = None.
Proof.
  apply (PointToCheckedConfig_no_rollback type_deleted repo_check 7
           fresh half_pointed "get resource type"
           (ErrNew "resource type 'git' deleted") eq_refl).
  - apply list_elem_of_here.
  - discriminate.
Defined.

Lemma FindOrCreateScope_for_the_cached_resource_witness :
  exists tr resource,
    calls {| cachedPipeline := Some 1; cachedResource := Some 10;
             cachedResourceType := None; cachedPrototype := None;
             calls := [EvBuildPipeline; EvPipelineResource 1 "repo";
                       EvConfigFindOrCreateScope 3 (Some 10)] |}
    = tr ++ [EvConfigFindOrCreateScope 3 resource]
    /\ config_FindOrCreateScope all_found tr 3 resource = (7, None)
    /\ is_Some resource /\ resource = Some 10.
Proof.
  exact (FindOrCreateScope_for_the_cached_resource all_found repo_check
           3 fresh _ 7 eq_refl).
Defined.

End EngineDelegateInstances.

Section ExecRunsFacts.
Import Go Exec ExecRuns.
Variable w : World.

Lemma run_Err step tr e :
  run w step [] = (tr, Err e) ->
  hd_error tr = Some EvInitializing
  /\ Forall (fun ev => after_exit ev = false) tr
  /\ exists ev, last tr = Some ev /\ returned w step ev e.
Proof.
  unfold run, returned.
  cbv [mbind M_bind bind call check fail ret mret M_ret].
  destruct (Source_Evaluate w _) as [source [e0|]] eqn:Hs.
  { intros [= <- <-]. split; [done|]. split; [by repeat constructor|].
    exists EvEvaluateSource. split; done. }
  destruct (Params_Evaluate w _) as [params [e0|]] eqn:Hp.
  { intros [= <- <-]. split; [done|]. split; [by repeat constructor|].
    exists EvEvaluateParams. split; done. }
  destruct (VersionedResourceTypes_Evaluate w _) as [types [e0|]] eqn:Ht.
  { intros [= <- <-]. split; [done|]. split; [by repeat constructor|].
    exists EvEvaluateResourceTypes. split; done. }
  destruct (VersionSource_Version w _) as [version [e0|]] eqn:Hv.
  { intros [= <- <-]. split; [done|]. split; [by repeat constructor|].
    exists EvVersion. split; done. }
  simpl.
  destruct (FindOrCreateResourceCache w _ _ _ _ _ _) as [cache [e0|]] eqn:Hc.
  { intros [= <- <-]. split; [done|]. split; [by repeat constructor|].
    exists EvFindOrCreateResourceCache. split; [done|].
    exists source, params, types, version. by rewrite Hc. }
  simpl. destruct (RunGetStep w _) as [getResult [e0|]] eqn:Hr.
  { intros [= <- <-]. split; [done|]. split; [by repeat constructor|].
    eexists (EvRunGetStep _). split; [done|]. simpl. by rewrite Hr. }
  simpl. destruct (worker.ExitStatus getResult =? 0); [|done].
  by destruct (negb _).
Qed.

(** X13. When [GetStep.Run] returns an error, it is the error of the last
    call the run made, returned as it is, and that call is one of the
    evaluations, the resource cache or the worker client.  The run began
    with [Initializing], registered no artifact, updated no version,
    reported no [Finished], and left the step as it was. *)
Theorem GetStep_Run_error step tr step' e :
  Run w step = (tr, step', Some e) ->
  step' = step
  /\ hd_error tr = Some EvInitializing
  /\ Forall (fun ev => after_exit ev = false) tr
  /\ exists ev, last tr = Some ev /\ returned w step ev e.
Proof.
  unfold Run. destruct (run w step []) as [tr0 [s|e0|]] eqn:Hrun; [done| |done].
  intros [= -> -> ->]. split; [done|]. by apply run_Err.
Qed.

(** X14. [GetStep.Run] writes no field of the step but [succeeded], and
    never clears it: after a run [Succeeded] is true exactly when it was
    true before or the run reported [Finished] with exit status 0. *)
Theorem GetStep_Run_succeeded_sticks step tr step' err :
  Run w step = (tr, step', err) ->
  planID step' = planID step /\ plan step' = plan step
  /\ metadata step' = metadata step
  /\ containerMetadata step' = containerMetadata step
  /\ (Succeeded step' = true
      <-> Succeeded step = true \/ exists v, EvFinished 0 v ∈ tr).
Proof.
  unfold Run. destruct (run w step []) as [tr0 [s|e0|]] eqn:Hrun.
  - intros [= -> -> <-].
    destruct (run_Ok _ _ _ _ Hrun) as (getResult & Hc).
    destruct (run_completes _ _ _ Hc) as (args & Hrun').
    rewrite Hrun in Hrun'. injection Hrun' as -> ->.
    unfold calls_from_RunGetStep, Succeeded.
    destruct (Z.eqb_spec (worker.ExitStatus getResult) 0) as [H0|H0].
    + do 4 (split; [done|]). simpl. split; [|done]. intros _. right.
      exists (worker.VersionResult getResult). rewrite H0.
      destruct (String.eqb (Resource (plan step)) ""); set_solver.
    + do 4 (split; [done|]). split; [by left|]. intros [H|[v H]]; [done|].
      set_solver.
  - intros [= -> -> <-]. do 4 (split; [done|]). split; [by left|].
    intros [H|[v H]]; [done|].
    destruct (run_Err _ _ _ Hrun) as (_ & F & _).
    rewrite Forall_forall in F. by specialize (F _ H).
  - by apply run_not_OutOfFuel in Hrun.
Qed.

(** X15. The worker client is handed one team: the container spec, the
    worker spec and the container owner carry the step's team id; the
    image and the worker spec name the plan's type; the image fetcher and
    the worker spec get the same resource types; and the resource cache
    passed is the one found or created for the very source, params and
    version of the resource to get. *)
Theorem GetStep_Run_worker_arguments step tr step' err args :
  Run w step = (tr, step', err) ->
  EvRunGetStep args ∈ tr ->
  worker.TeamID (containerSpec args) = TeamID (metadata step)
  /\ worker.WorkerTeamID (workerSpec args) = TeamID (metadata step)
  /\ db.TeamID (containerOwner args) = TeamID (metadata step)
  /\ worker.ResourceType (worker.ImageSpec_ (containerSpec args))
     = Type_ (plan step)
  /\ worker.WorkerResourceType (workerSpec args) = Type_ (plan step)
  /\ worker.FetcherResourceTypes (imageSpec args)
     = worker.ResourceTypes (workerSpec args)
  /\ FindOrCreateResourceCache w (BuildID (metadata step))
       (Type_ (plan step)) (ResourceVersion (resourceToGet args))
       (ResourceSource (resourceToGet args))
       (ResourceParams (resourceToGet args))
       (worker.ResourceTypes (workerSpec args))
     = (resourceCache args, None).
Proof.
  intros H Hin.
  assert (exists r, run w step [] = (tr, r)) as [r Hrun].
  { unfold Run in H. destruct (run w step []) as [tr0 [s|e0|]];
      injection H as -> _ _; eauto. }
  clear H. revert Hrun. unfold run.
  cbv [mbind M_bind bind call check fail ret mret M_ret].
  destruct (Source_Evaluate w _) as [source [e0|]] eqn:Hs.
  { intros [= <- <-]. set_solver. }
  destruct (Params_Evaluate w _) as [params [e0|]] eqn:Hp.
  { intros [= <- <-]. set_solver. }
  destruct (VersionedResourceTypes_Evaluate w _) as [types [e0|]] eqn:Ht.
  { intros [= <- <-]. set_solver. }
  destruct (VersionSource_Version w _) as [version [e0|]] eqn:Hv.
  { intros [= <- <-]. set_solver. }
  simpl.
  destruct (FindOrCreateResourceCache w _ _ _ _ _ _) as [cache [e0|]] eqn:Hc.
  { intros [= <- <-]. set_solver. }
  simpl. intros Hrun.
  assert (args = runGetStepArgs w step source params types version cache)
    as ->; [|done].
  revert Hrun. destruct (RunGetStep w _) as [getResult [e0|]] eqn:Hr.
  { intros [= <- <-]. set_solver. }
  simpl. destruct (worker.ExitStatus getResult =? 0);
    [destruct (negb _)|]; intros [= <- <-]; set_solver.
Qed.

End ExecRunsFacts.

Section ExecRunsInstances.
Import Go Exec ExecRuns ExecExamples ExecRunsExamples.

Lemma GetStep_Run_error_witness :
  get_repo = get_repo
  /\ hd_error [EvInitializing; EvEvaluateSource; EvEvaluateParams;
               EvEvaluateResourceTypes; EvVersion] = Some EvInitializing
  /\ Forall (fun ev => after_exit ev = false)
       [EvInitializing; EvEvaluateSource; EvEvaluateParams;
        EvEvaluateResourceTypes; EvVersion]
  /\ exists ev,
       last [EvInitializing; EvEvaluateSource; EvEvaluateParams;
             EvEvaluateResourceTypes; EvVersion] = Some ev
       /\ returned no_version get_repo ev (ErrVar "ErrInputNotFound").
Proof.
  exact (GetStep_Run_error no_version get_repo _ _ _ eq_refl).
Defined.

Lemma GetStep_Run_succeeded_sticks_witness :
  Succeeded (Run (exits_with 1) (set_succeeded get_repo)).1.2 = true.
Proof.
  destruct (GetStep_Run_succeeded_sticks (exits_with 1)
              (set_succeeded get_repo) _ _ _ eq_refl)
    as (_ & _ & _ & _ & H).
  apply H. left. reflexivity.
Defined.

Lemma GetStep_Run_worker_arguments_witness :
  worker.TeamID (containerSpec get_repo_args) = 1
  /\ worker.WorkerTeamID (workerSpec get_repo_args) = 1
  /\ db.TeamID (containerOwner get_repo_args) = 1
  /\ worker.ResourceType (worker.ImageSpec_ (containerSpec get_repo_args))
     = "git"
  /\ worker.WorkerResourceType (workerSpec get_repo_args) = "git"
  /\ worker.FetcherResourceTypes (imageSpec get_repo_args)
     = worker.ResourceTypes (workerSpec get_repo_args)
  /\ FindOrCreateResourceCache (exits_with 0) 42 "git"
       (ResourceVersion (resourceToGet get_repo_args))
       (ResourceSource (resourceToGet get_repo_args))
       (ResourceParams (resourceToGet get_repo_args))
       (worker.ResourceTypes (workerSpec get_repo_args))
     = (resourceCache get_repo_args, None).
Proof.
  apply (GetStep_Run_worker_arguments (exits_with 0) get_repo _ _ _
           get_repo_args eq_refl).
  do 6 apply list_elem_of_further. apply list_elem_of_here.
Defined.

End ExecRunsInstances.

Section GardenArtifactsFacts.
Import Go GoLib Gardenruntime GardenArtifacts.
Variable worker : Worker.

#[local] Abbreviation EvCOW := EvFindOrCreateCOWVolumeForContainer.

(** A run of [imageProvidedByPreviousStepOnSameWorker], call by call. *)
Lemma imageProvidedByPreviousStepOnSameWorker_run
    privileged teamID container artifactVolume tr :
  imageProvidedByPreviousStepOnSameWorker worker privileged teamID container
    artifactVolume tr
  = let cow := EvCOW privileged container artifactVolume teamID "/" in
    let file := EvStreamFile (ArtifactVolume artifactVolume) "metadata.json" in
    match findOrCreateCOWVolumeForContainer worker privileged container
            artifactVolume teamID "/" with
    | (_, Some e) => (tr ++ [cow], Err (ErrWrap "create COW volume" e))
    | (imageVolume, None) =>
        match streamer_StreamFile worker (ArtifactVolume artifactVolume)
                "metadata.json" with
        | (_, Some e) =>
            (tr ++ [cow; file], Err (ErrWrap "stream metadata" e))
        | (reader, None) =>
            match json_Decode worker reader with
            | (_, Some e) =>
                (tr ++ [cow; file],
                 Err (ErrWrap "load metadata" (MalformedMetadataError e)))
            | (metadata, None) =>
                (tr ++ [cow; file],
                 Ok (artifact_image privileged metadata imageVolume))
            end
        end
    end.
Proof.
  unfold imageProvidedByPreviousStepOnSameWorker, loadMetadata.
  cbv [mbind M_bind bind call check wrap fail ret mret M_ret].
  destruct (findOrCreateCOWVolumeForContainer worker privileged container
              artifactVolume teamID "/") as [imageVolume [e|]]; [done|].
  simpl. rewrite <- app_assoc. simpl.
  destruct (streamer_StreamFile worker _ _) as [reader [e|]]; [done|].
  simpl. by destruct (json_Decode worker reader) as [metadata [e|]].
Qed.

(** A run of [imageProvidedByPreviousStepOnDifferentWorker], call by
    call. *)
Lemma imageProvidedByPreviousStepOnDifferentWorker_run
    privileged teamID container artifact tr :
  imageProvidedByPreviousStepOnDifferentWorker worker privileged teamID
    container artifact tr
  = let vol := EvFindOrCreateVolumeForStreaming privileged container teamID
                 "/" in
    let file := EvStreamFile artifact "metadata.json" in
    match findOrCreateVolumeForStreaming worker privileged container teamID
            "/" with
    | (_, Some e) => (tr ++ [vol], Err e)
    | (streamedVolume, None) =>
        let stream := EvStream artifact streamedVolume in
        let cow := EvCOW privileged container streamedVolume teamID "/" in
        match streamer_Stream worker artifact streamedVolume with
        | Some e => (tr ++ [vol; stream], Err e)
        | None =>
            match findOrCreateCOWVolumeForContainer worker privileged
                    container streamedVolume teamID "/" with
            | (_, Some e) => (tr ++ [vol; stream; cow], Err e)
            | (imageVolume, None) =>
                match streamer_StreamFile worker artifact "metadata.json"
                with
                | (_, Some e) => (tr ++ [vol; stream; cow; file], Err e)
                | (reader, None) =>
                    match json_Decode worker reader with
                    | (_, Some e) =>
                        (tr ++ [vol; stream; cow; file],
                         Err (MalformedMetadataError e))
                    | (metadata, None) =>
                        (tr ++ [vol; stream; cow; file],
                         Ok (artifact_image privileged metadata imageVolume))
                    end
                end
            end
        end
    end.
Proof.
  unfold imageProvidedByPreviousStepOnDifferentWorker, loadMetadata.
  cbv [mbind M_bind bind call check wrap fail ret mret M_ret].
  destruct (findOrCreateVolumeForStreaming worker privileged container
              teamID "/") as [streamedVolume [e|]]; [done|].
  cbn zeta.
  destruct (streamer_Stream worker _ _) as [e|];
    [by rewrite <- ?app_assoc|].
  destruct (findOrCreateCOWVolumeForContainer worker privileged container
              streamedVolume teamID "/") as [imageVolume [e|]];
    [by rewrite <- ?app_assoc|].
  destruct (streamer_StreamFile worker _ _) as [reader [e|]];
    [by rewrite <- ?app_assoc|].
  destruct (json_Decode worker reader) as [metadata [e|]];
    by rewrite <- ?app_assoc.
Qed.

Lemma fetchImageForContainer_artifact imageSpec teamID container a :
  ImageSpec.ImageArtifact imageSpec = Some a ->
  fetchImageForContainer worker imageSpec teamID container []
  = match findVolumeForArtifact worker teamID a with
    | (_, _, Some e) => ([EvFindVolumeForArtifact teamID a], Err e)
    | (volume, ok, None) =>
        if ok && String.eqb (WorkerName volume) (Name worker) then
          imageProvidedByPreviousStepOnSameWorker worker
            (ImageSpec.Privileged imageSpec) teamID container volume
            [EvFindVolumeForArtifact teamID a]
        else
          imageProvidedByPreviousStepOnDifferentWorker worker
            (ImageSpec.Privileged imageSpec) teamID container a
            [EvFindVolumeForArtifact teamID a]
    end.
Proof.
  intros Ha. unfold fetchImageForContainer. rewrite Ha.
  cbv [mbind M_bind bind call check fail ret mret M_ret].
  destruct (findVolumeForArtifact worker teamID a) as [[volume ok] [e|]];
    [done|]. simpl. by destruct (ok && _).
Qed.

(** X16. The fetcher reads the image spec in one order.  With an image
    artifact, [ResourceType] and [ImageURL] change nothing; without one
    and with a [ResourceType], [ImageURL] changes nothing; and without an
    artifact the spec's [Privileged] changes nothing. *)
Theorem fetchImageForContainer_reads_in_order
    imageSpec teamID container tr :
  (is_Some (ImageSpec.ImageArtifact imageSpec) ->
   forall resourceType url,
     fetchImageForContainer worker (with_lower imageSpec resourceType url)
       teamID container tr
     = fetchImageForContainer worker imageSpec teamID container tr)
  /\ (ImageSpec.ImageArtifact imageSpec = None ->
      (ImageSpec.ResourceType imageSpec <> "" ->
       forall url,
         fetchImageForContainer worker
           (with_lower imageSpec (ImageSpec.ResourceType imageSpec) url)
           teamID container tr
         = fetchImageForContainer worker imageSpec teamID container tr)
      /\ forall privileged,
           fetchImageForContainer worker
             (with_Privileged imageSpec privileged) teamID container tr
           = fetchImageForContainer worker imageSpec teamID container tr).
Proof.
  split.
  - intros [a Ha] resourceType url. unfold fetchImageForContainer.
    simpl. by rewrite Ha.
  - intros Ha. split.
    + intros Hn url. unfold fetchImageForContainer. simpl. rewrite Ha.
      apply String.eqb_neq in Hn. by rewrite Hn.
    + intros privileged. unfold fetchImageForContainer. simpl.
      by rewrite Ha.
Qed.

Lemma imageProvidedByPreviousStepOnSameWorker_cow
    privileged teamID container artifactVolume a tr r p c parent t m :
  imageProvidedByPreviousStepOnSameWorker worker privileged teamID container
    artifactVolume [EvFindVolumeForArtifact teamID a] = (tr, r) ->
  EvCOW p c parent t m ∈ tr ->
  (p, c, t, m) = (privileged, container, teamID, "/")
  /\ parent = artifactVolume
  /\ forall src dst, EvStream src dst ∉ tr.
Proof.
  rewrite imageProvidedByPreviousStepOnSameWorker_run. cbn zeta.
  assert (forall rest r',
            (forall ev, ev ∈ rest ->
               ev = EvStreamFile (ArtifactVolume artifactVolume)
                      "metadata.json") ->
            ([EvFindVolumeForArtifact teamID a;
              EvCOW privileged container artifactVolume teamID "/"] ++ rest,
             r') = (tr, r) ->
            EvCOW p c parent t m ∈ tr ->
            (p, c, t, m) = (privileged, container, teamID, "/")
            /\ parent = artifactVolume
            /\ forall src dst, EvStream src dst ∉ tr) as K.
  { intros rest r' Hrest [= <- <-] Hin.
    assert (EvCOW p c parent t m
            = EvCOW privileged container artifactVolume teamID "/")
      as [= -> -> -> -> ->].
    { set_unfold in Hin. destruct Hin as [?|[?|Hin]]; try done.
      by specialize (Hrest _ Hin). }
    split; [done|]. split; [done|]. intros src dst Hs.
    set_unfold in Hs. destruct Hs as [?|[?|Hs]]; try done.
    by specialize (Hrest _ Hs). }
  destruct (findOrCreateCOWVolumeForContainer worker _ _ _ _ _)
    as [imageVolume [e|]]; [apply (K []); set_solver|].
  destruct (streamer_StreamFile worker _ _) as [reader [e|]];
    [apply (K [EvStreamFile (ArtifactVolume artifactVolume)
                 "metadata.json"]); set_solver|].
  destruct (json_Decode worker reader) as [metadata [e|]];
    apply (K [EvStreamFile (ArtifactVolume artifactVolume)
                "metadata.json"]); set_solver.
Qed.

Lemma imageProvidedByPreviousStepOnDifferentWorker_cow
    privileged teamID container a tr r p c parent t m :
  imageProvidedByPreviousStepOnDifferentWorker worker privileged teamID
    container a [EvFindVolumeForArtifact teamID a] = (tr, r) ->
  EvCOW p c parent t m ∈ tr ->
  (p, c, t, m) = (privileged, container, teamID, "/")
  /\ findOrCreateVolumeForStreaming worker privileged container teamID "/"
     = (parent, None)
  /\ streamer_Stream worker a parent = None
  /\ exists rest,
       tr = [EvFindVolumeForArtifact teamID a;
             EvFindOrCreateVolumeForStreaming privileged container teamID
               "/";
             EvStream a parent;
             EvCOW privileged container parent teamID "/"] ++ rest.
Proof.
  rewrite imageProvidedByPreviousStepOnDifferentWorker_run. cbn zeta.
  destruct (findOrCreateVolumeForStreaming worker _ _ _ _)
    as [streamedVolume [e|]] eqn:Hvol.
  { intros [= <- <-] Hin. set_solver. }
  destruct (streamer_Stream worker a streamedVolume) as [e|] eqn:Hstream.
  { intros [= <- <-] Hin. set_solver. }
  assert (forall rest r',
            (forall ev, ev ∈ rest -> ev = EvStreamFile a "metadata.json") ->
            ([EvFindVolumeForArtifact teamID a;
              EvFindOrCreateVolumeForStreaming privileged container teamID
                "/";
              EvStream a streamedVolume;
              EvCOW privileged container streamedVolume teamID "/"]
             ++ rest, r') = (tr, r) ->
            EvCOW p c parent t m ∈ tr ->
            (p, c, t, m) = (privileged, container, teamID, "/")
            /\ (streamedVolume, @None error) = (parent, None)
            /\ streamer_Stream worker a parent = None
            /\ exists rest,
                 tr = [EvFindVolumeForArtifact teamID a;
                       EvFindOrCreateVolumeForStreaming privileged container
                         teamID "/";
                       EvStream a parent;
                       EvCOW privileged container parent teamID "/"]
                      ++ rest) as K.
  { intros rest r' Hrest [= <- <-] Hin.
    assert (EvCOW p c parent t m
            = EvCOW privileged container streamedVolume teamID "/")
      as [= -> -> -> -> ->].
    { set_unfold in Hin.
      destruct Hin as [?|[?|[?|[?|Hin]]]]; try done.
      by specialize (Hrest _ Hin). }
    split; [done|]. split; [done|]. split; [done|]. by exists rest. }
  destruct (findOrCreateCOWVolumeForContainer worker _ _ _ _ _)
    as [imageVolume [e|]]; [apply (K []); set_solver|].
  destruct (streamer_StreamFile worker _ _) as [reader [e|]];
    [apply (K [EvStreamFile a "metadata.json"]); set_solver|].
  destruct (json_Decode worker reader) as [metadata [e|]];
    apply (K [EvStreamFile a "metadata.json"]); set_solver.
Qed.

(** X17. With an image artifact, the volume the container's root
    filesystem is a copy-on-write child of holds the artifact: it is
    either the artifact's own volume, found on this very worker, and
    then nothing is streamed, or a volume made for streaming into which
    the artifact has been streamed without error just before.  The child
    is made for the container, the team and the privilege of the spec, at
    [/]. *)
Theorem fetchImageForContainer_copies_the_artifact
    imageSpec teamID container a tr r privileged c parent t mountPath :
  ImageSpec.ImageArtifact imageSpec = Some a ->
  fetchImageForContainer worker imageSpec teamID container [] = (tr, r) ->
  EvCOW privileged c parent t mountPath ∈ tr ->
  (privileged, c, t, mountPath)
  = (ImageSpec.Privileged imageSpec, container, teamID, "/")
  /\ ((findVolumeForArtifact worker teamID a = (parent, true, None)
       /\ WorkerName parent = Name worker
       /\ forall src dst, EvStream src dst ∉ tr)
      \/ (findOrCreateVolumeForStreaming worker privileged c t "/"
          = (parent, None)
          /\ streamer_Stream worker a parent = None
          /\ exists rest,
               tr = [EvFindVolumeForArtifact teamID a;
                     EvFindOrCreateVolumeForStreaming privileged c t "/";
                     EvStream a parent;
                     EvCOW privileged c parent t "/"] ++ rest)).
Proof.
  intros Ha Hrun Hin.
  rewrite (fetchImageForContainer_artifact _ _ _ _ Ha) in Hrun.
  destruct (findVolumeForArtifact worker teamID a) as [[volume ok] [e|]]
    eqn:Hfind.
  { injection Hrun as <- <-. set_solver. }
  destruct (ok && String.eqb (WorkerName volume) (Name worker)) eqn:Hsame.
  - apply andb_prop in Hsame as [-> Hname%String.eqb_eq].
    destruct (imageProvidedByPreviousStepOnSameWorker_cow _ _ _ _ _ _ _ _
                _ _ _ _ Hrun Hin) as (E & -> & Hs).
    split; [done|]. left. done.
  - destruct (imageProvidedByPreviousStepOnDifferentWorker_cow _ _ _ _ _ _
                _ _ _ _ _ Hrun Hin) as (E & Hv & Hs & rest & Htr).
    injection E as -> -> -> ->. split; [done|]. right.
    split; [done|]. split; [done|]. by exists rest.
Qed.

(** X18. On the same worker every error says which step failed: the
    error of the copy-on-write volume, of streaming [metadata.json] and
    of decoding it come back behind [create COW volume], [stream
    metadata] and [load metadata].  On a different worker the same
    failures come back as the collaborator gave them.  Metadata that does
    not decode is a [MalformedMetadataError] on both. *)
Theorem imageProvidedByPreviousStep_errors
    privileged teamID container tr0 tr e :
  (forall artifactVolume,
     imageProvidedByPreviousStepOnSameWorker worker privileged teamID
       container artifactVolume tr0 = (tr, Err e) ->
     (exists cause,
        e = ErrWrap "create COW volume" cause
        /\ (findOrCreateCOWVolumeForContainer worker privileged container
              artifactVolume teamID "/").2 = Some cause)
     \/ (exists cause,
           e = ErrWrap "stream metadata" cause
           /\ (streamer_StreamFile worker (ArtifactVolume artifactVolume)
                 "metadata.json").2 = Some cause)
     \/ (exists reader cause,
           e = ErrWrap "load metadata" (MalformedMetadataError cause)
           /\ (json_Decode worker reader).2 = Some cause))
  /\ (forall artifact,
        imageProvidedByPreviousStepOnDifferentWorker worker privileged
          teamID container artifact tr0 = (tr, Err e) ->
        (findOrCreateVolumeForStreaming worker privileged container teamID
           "/").2 = Some e
        \/ (exists streamedVolume,
              streamer_Stream worker artifact streamedVolume = Some e)
        \/ (exists streamedVolume,
              (findOrCreateCOWVolumeForContainer worker privileged
                 container streamedVolume teamID "/").2 = Some e)
        \/ (streamer_StreamFile worker artifact "metadata.json").2 = Some e
        \/ (exists reader cause,
              e = MalformedMetadataError cause
              /\ (json_Decode worker reader).2 = Some cause)).
Proof.
  split.
  - intros artifactVolume.
    rewrite imageProvidedByPreviousStepOnSameWorker_run. cbn zeta.
    destruct (findOrCreateCOWVolumeForContainer worker _ _ _ _ _)
      as [imageVolume [e0|]].
    { intros [= <- <-]. left. by exists e0. }
    destruct (streamer_StreamFile worker _ _) as [reader [e0|]].
    { intros [= <- <-]. right. left. by exists e0. }
    destruct (json_Decode worker reader) as [metadata [e0|]] eqn:Hd; [|done].
    intros [= <- <-]. right. right. exists reader, e0. by rewrite Hd.
  - intros artifact.
    rewrite imageProvidedByPreviousStepOnDifferentWorker_run. cbn zeta.
    destruct (findOrCreateVolumeForStreaming worker _ _ _ _)
      as [streamedVolume [e0|]].
    { intros [= <- <-]. by left. }
    destruct (streamer_Stream worker _ _) as [e0|] eqn:Hs.
    { intros [= <- <-]. right. left. by exists streamedVolume. }
    destruct (findOrCreateCOWVolumeForContainer worker _ _ _ _ _)
      as [imageVolume [e0|]] eqn:Hc.
    { intros [= <- <-]. right. right. left. exists streamedVolume.
      by rewrite Hc. }
    destruct (streamer_StreamFile worker _ _) as [reader [e0|]].
    { intros [= <- <-]. right. right. right. by left. }
    destruct (json_Decode worker reader) as [metadata [e0|]] eqn:Hd; [|done].
    intros [= <- <-]. do 4 right. exists reader, e0. by rewrite Hd.
Qed.


End GardenArtifactsFacts.

Section GardenArtifactsInstances.
Import Go GoLib Gardenruntime GardenExamples GardenArtifacts.
Import GardenArtifactsExamples.

Lemma fetchImageForContainer_reads_in_order_witness :
  fetchImageForContainer (w1_artifact_on "w1" true)
    (with_lower (artifact_spec true) "s3" "") 1 "c1" []
  = fetchImageForContainer (w1_artifact_on "w1" true) (artifact_spec true) 1
      "c1" [].
Proof.
  apply (proj1 (fetchImageForContainer_reads_in_order
                  (w1_artifact_on "w1" true) (artifact_spec true) 1 "c1" [])).
  by eexists.
Defined.

Lemma fetchImageForContainer_copies_the_artifact_witness :
  (true, "c1", 1, "/") = (true, "c1", 1, "/")
  /\ ((findVolumeForArtifact (w1_artifact_on "w2" true) 1
         (ArtifactHandle "artifact") = (streamed_volume, true, None)
       /\ WorkerName streamed_volume = Name (w1_artifact_on "w2" true)
       /\ forall src dst,
            EvStream src dst
            ∉ (fetchImageForContainer (w1_artifact_on "w2" true)
                 (artifact_spec true) 1 "c1" []).1)
      \/ (findOrCreateVolumeForStreaming (w1_artifact_on "w2" true) true
            "c1" 1 "/" = (streamed_volume, None)
          /\ streamer_Stream (w1_artifact_on "w2" true)
               (ArtifactHandle "artifact") streamed_volume = None
          /\ exists rest,
               (fetchImageForContainer (w1_artifact_on "w2" true)
                  (artifact_spec true) 1 "c1" []).1
               = [EvFindVolumeForArtifact 1 (ArtifactHandle "artifact");
                  EvFindOrCreateVolumeForStreaming true "c1" 1 "/";
                  EvStream (ArtifactHandle "artifact") streamed_volume;
                  EvFindOrCreateCOWVolumeForContainer true "c1"
                    streamed_volume 1 "/"] ++ rest)).
Proof.
  apply (fetchImageForContainer_copies_the_artifact
           (w1_artifact_on "w2" true) (artifact_spec true) 1 "c1"
           (ArtifactHandle "artifact") _ _ true "c1" streamed_volume 1 "/"
           eq_refl eq_refl).
  do 3 apply list_elem_of_further. apply list_elem_of_here.
Defined.

Lemma imageProvidedByPreviousStep_errors_witness :
  (exists cause,
     ErrWrap "stream metadata" (ErrVar "ErrFileNotFound")
     = ErrWrap "create COW volume" cause
     /\ (findOrCreateCOWVolumeForContainer (w1_artifact_on "w1" false) true
           "c1" (artifact_volume "w1") 1 "/").2 = Some cause)
  \/ (exists cause,
        ErrWrap "stream metadata" (ErrVar "ErrFileNotFound")
        = ErrWrap "stream metadata" cause
        /\ (streamer_StreamFile (w1_artifact_on "w1" false)
              (ArtifactVolume (artifact_volume "w1")) "metadata.json").2
           = Some cause)
  \/ (exists reader cause,
        ErrWrap "stream metadata" (ErrVar "ErrFileNotFound")
        = ErrWrap "load metadata" (MalformedMetadataError cause)
        /\ (json_Decode (w1_artifact_on "w1" false) reader).2 = Some cause).
Proof.
  exact (proj1 (imageProvidedByPreviousStep_errors
                  (w1_artifact_on "w1" false) true 1 "c1" [] _ _)
           (artifact_volume "w1") eq_refl).
Defined.


End GardenArtifactsInstances.

Section BuilderTreesFacts.
Import Go Builder BuilderTrees.
Variable externalURL : string.
Variable build : Build.

Lemma max_list_elem (n : nat) l : n ∈ l -> (n <= max_list l)%nat.
Proof.
  induction l as [|m l IH]; [by intros ?%elem_of_nil|].
  intros [->|H]%elem_of_cons; simpl; [lia|]. specialize (IH H). lia.
Qed.

Ltac one_option :=
  repeat match goal with
         | |- context [?o] =>
             is_var o;
             match type of o with
             | option _ =>
                 let x := fresh in destruct o as [x|]; [destruct x|]
             end
         end;
  cbn [from_option default]; rewrite ?map_map; reflexivity.

Lemma depth_subplans plan :
  depth plan = S (max_list (map depth (subplans plan))).
Proof.
  destruct plan as [id att agg par acr do_ tmo try_ oab oer osu ofa ens
                      tsk spl ldv get put rty ain aou].
  unfold subplans. cbn [depth Aggregate InParallel Across Do Timeout Try
    OnAbort OnError OnSuccess OnFailure Ensure Retry].
  f_equal. f_equal. rewrite !map_app.
  repeat (apply (f_equal2 app); [one_option|]). one_option.
Qed.

Lemma subplans_depth plan sub :
  sub ∈ subplans plan -> (depth sub < depth plan)%nat.
Proof.
  intros H. rewrite (depth_subplans plan).
  apply Nat.lt_succ_r, max_list_elem, list_elem_of_fmap. by exists sub.
Qed.

(** Induction on plans: what holds of a plan whenever it holds of the
    plans directly under it holds of every plan. *)
Lemma Plan_subplans_ind (P : Plan -> Prop) :
  (forall plan, (forall sub, sub ∈ subplans plan -> P sub) -> P plan) ->
  forall plan, P plan.
Proof.
  intros step plan.
  assert (forall n plan, (depth plan < n)%nat -> P plan) as H.
  { induction n as [|n IH]; [lia|]. intros p Hp. apply step.
    intros sub Hsub%subplans_depth. apply IH. lia. }
  apply (H (S (depth plan))). lia.
Qed.

Lemma all_built_Some l : forall l',
  all_built l = Some l' -> Forall2 (fun o s => o = Some s) l l'.
Proof.
  induction l as [|o l IH]; simpl; intros l' H.
  - injection H as <-. constructor.
  - destruct o as [s|]; [|done]. simpl in H.
    fold (all_built l) in H. destruct (all_built l) as [k|]; [|done].
    injection H as <-. constructor; [done|]. by apply IH.
Qed.

Lemma all_built_elem l l' s :
  all_built l = Some l' -> s ∈ l' -> Some s ∈ l.
Proof.
  intros H%all_built_Some Hs. induction H as [|o s' l l' -> _ IH].
  - by apply elem_of_nil in Hs.
  - apply elem_of_cons in Hs as [->|Hs]; [left|right; by apply IH].
Qed.

Lemma all_built_is_Some l :
  Forall is_Some l -> is_Some (all_built l).
Proof.
  induction 1 as [|o l [s ->] _ [k IH]]; simpl; [by eexists|].
  fold (all_built l). rewrite IH. by eexists.
Qed.

Lemma range_from_elem {A B} (f : nat -> A -> B) l b : forall start,
  b ∈ range_from f start l ->
  exists i x, l !! i = Some x /\ b = f (start + i)%nat x.
Proof.
  induction l as [|x l IH]; simpl; intros start H.
  - by apply elem_of_nil in H.
  - apply elem_of_cons in H as [->|H].
    + exists 0%nat, x. by rewrite Nat.add_0_r.
    + destruct (IH _ H) as (i & y & Hi & ->). exists (S i), y.
      split; [done|]. f_equal. lia.
Qed.

Lemma elem_of_concat_leaves leaf steps :
  leaf ∈ concat (map leaves steps) ->
  exists s, s ∈ steps /\ leaf ∈ leaves s.
Proof.
  rewrite list_elem_of_In, in_concat. intros (l & Hl & Hleaf).
  apply in_map_iff in Hl as (s & <- & Hs). exists s.
  by rewrite !list_elem_of_In.
Qed.

Lemma buildAcrossInParallelStep_cons vars failFast v v' rest steps :
  buildAcrossInParallelStep vars failFast (v :: v' :: rest) steps
  = (substeps ← all_built
       (map (fun i =>
               sub ← slice steps
                       (i * fold_left
                              (fun n v' => (n * length (Values v'))%nat)
                              (v' :: rest) 1%nat)
                       ((i + 1) * fold_left
                                    (fun n v' => (n * length (Values v'))%nat)
                                    (v' :: rest) 1%nat);
               buildAcrossInParallelStep vars failFast (v' :: rest) sub)
          (seq 0 (length (Values v))));
     Some (exec.InParallel substeps (MaxInFlight v) failFast)).
Proof. reflexivity. Qed.

Lemma slice_elem {A} (l sub : list A) lo hi x :
  slice l lo hi = Some sub -> x ∈ sub -> x ∈ l.
Proof.
  unfold slice. destruct (hi <=? length l)%nat; [|done].
  intros [= <-] H.
  eapply elem_of_sublist; [|apply sublist_drop].
  eapply elem_of_sublist; [exact H|apply sublist_take].
Qed.

(** The leaves under an across step come from the steps built of its
    sub-plans. *)
Lemma buildAcrossInParallelStep_leaves vars failFast rest :
  forall steps step leaf,
    buildAcrossInParallelStep vars failFast rest steps = Some step ->
    leaf ∈ leaves step ->
    exists b values, (Some b, values) ∈ steps /\ leaf ∈ leaves b.
Proof.
  induction rest as [|v rest IH]; intros steps step leaf H Hleaf; [done|].
  destruct rest as [|v' rest].
  - simpl in H.
    destruct (all_built _) as [built|] eqn:Hb; [|done].
    injection H as <-. simpl in Hleaf.
    apply elem_of_concat_leaves in Hleaf as (s & Hs & Hleaf).
    apply (all_built_elem _ _ _ Hb) in Hs.
    apply list_elem_of_In, in_map_iff in Hs as ([o values] & Ho & Hin).
    simpl in Ho. destruct (_ <=? _)%nat; [|done]. subst o.
    exists s, values. split; [by apply list_elem_of_In|done].
  - rewrite buildAcrossInParallelStep_cons in H.
    destruct (all_built _) as [substeps|] eqn:Hb; [|done].
    injection H as <-. simpl in Hleaf.
    apply elem_of_concat_leaves in Hleaf as (s & Hs & Hleaf).
    apply (all_built_elem _ _ _ Hb) in Hs.
    apply list_elem_of_In, in_map_iff in Hs as (i & Hi & _).
    destruct (slice steps _ _) as [sub|] eqn:Hsub; [|done]. simpl in Hi.
    destruct (IH _ _ _ Hi Hleaf) as (b & values & Hin & Hl).
    exists b, values. split; [|done]. by eapply slice_elem.
Qed.

Lemma all_built_leaves (f : Plan -> option exec.Step) inner built leaf :
  all_built (map f inner) = Some built ->
  leaf ∈ concat (map leaves built) ->
  exists sub s, sub ∈ inner /\ f sub = Some s /\ leaf ∈ leaves s.
Proof.
  intros Hb (s & Hs & Hleaf)%elem_of_concat_leaves.
  apply (all_built_elem _ _ _ Hb) in Hs.
  apply list_elem_of_In, in_map_iff in Hs as (sub & Hsub & Hin).
  exists sub, s. by rewrite list_elem_of_In.
Qed.

Lemma buildDoStep_leaves (f : list Z -> Plan -> option exec.Step) attempts
    inner : forall step leaf,
  buildDoStep f attempts inner = Some step ->
  leaf ∈ leaves step ->
  exists sub s, sub ∈ inner /\ f attempts sub = Some s /\ leaf ∈ leaves s.
Proof.
  induction inner as [|p inner IH]; simpl; intros step leaf H Hleaf.
  - injection H as <-. by apply elem_of_nil in Hleaf.
  - fold (buildDoStep f attempts inner) in H.
    destruct (buildDoStep f attempts inner) as [rest|]; [|done].
    simpl in H. destruct (f attempts p) as [previous|] eqn:Hp; [|done].
    injection H as <-. simpl in Hleaf.
    apply elem_of_app in Hleaf as [Hleaf|Hleaf].
    + exists p, previous. split; [left|done].
    + destruct (IH _ _ eq_refl Hleaf) as (sub & s & Hin & Hs & Hl).
      exists sub, s. split; [by right|done].
Qed.

Lemma buildHookStep_leaves (f : list Z -> Plan -> option exec.Step) hook
    attempts p step leaf :
  (forall a b, leaves (hook a b) = leaves a ++ leaves b) ->
  buildHookStep f hook attempts p = Some step ->
  leaf ∈ leaves step ->
  exists sub s,
    sub ∈ hooked (Some p) /\ f attempts sub = Some s /\ leaf ∈ leaves s.
Proof.
  intros Hhook. unfold buildHookStep.
  destruct (f attempts (Step p)) as [a|] eqn:Ha; [|done]. simpl.
  destruct (f attempts (Next p)) as [b|] eqn:Hb; [|done]. simpl.
  intros [= <-]. rewrite Hhook. intros [H|H]%elem_of_app.
  - exists (Step p), a. split; [left|done].
  - exists (Next p), b. split; [right; left|done].
Qed.

Lemma buildRetryStep_leaves (f : list Z -> Plan -> option exec.Step)
    attempts inner step leaf :
  buildRetryStep f attempts inner = Some step ->
  leaf ∈ leaves step ->
  exists index sub s,
    sub ∈ inner /\ f (attempts ++ [Z.of_nat index + 1]) sub = Some s
    /\ leaf ∈ leaves s.
Proof.
  unfold buildRetryStep.
  destruct (all_built _) as [steps|] eqn:Hb; [|done]. simpl.
  intros [= <-] (s & Hs & Hleaf)%elem_of_concat_leaves.
  apply (all_built_elem _ _ _ Hb) in Hs.
  apply range_from_elem in Hs as (i & sub & Hi & Hs).
  exists i, sub, s. split; [by eapply list_elem_of_lookup_2|done].
Qed.

Ltac in_subplans_go :=
  first [ assumption
        | apply list_elem_of_here
        | left; solve [assumption | apply list_elem_of_here]
        | right; in_subplans_go ].

Ltac in_subplans := rewrite ?elem_of_app; simpl; in_subplans_go.

Lemma buildStepWith_leaf_origin attempts plan step leaf :
  buildStepWith externalURL build attempts plan = Some step ->
  leaf ∈ leaves step ->
  (leaf = step /\ well_made externalURL build leaf
   /\ handed_plan leaf = Some (withAttempts attempts plan))
  \/ exists sub a s,
       sub ∈ subplans plan /\ handed plan attempts sub a
       /\ buildStepWith externalURL build a sub = Some s
       /\ leaf ∈ leaves s.
Proof.
  destruct plan as [id att agg par acr do_ tmo try_ oab oer osu ofa ens
                      tsk spl ldv get put rty ain aou].
  simpl. unfold subplans. simpl.
  destruct agg as [inner|].
  { unfold buildAggregateStep.
    destruct (all_built _) as [built|] eqn:Hb; [|done]. simpl.
    intros [= <-] Hleaf. right.
    destruct (all_built_leaves _ _ _ _ Hb Hleaf) as (sub & s & ? & ? & ?).
    exists sub, attempts, s. split; [in_subplans|]. split; [constructor|].
    done. }
  destruct par as [p|].
  { unfold buildParallelStep.
    destruct (all_built _) as [built|] eqn:Hb; [|done]. simpl.
    intros [= <-] Hleaf. right.
    destruct (all_built_leaves _ _ _ _ Hb Hleaf) as (sub & s & ? & ? & ?).
    exists sub, attempts, s. split; [in_subplans|]. split; [constructor|].
    done. }
  destruct acr as [p|].
  { unfold buildAcrossStep.
    destruct (buildAcrossInParallelStep _ _ _ _) as [inside|] eqn:Hb;
      [|done]. simpl.
    intros [= <-] Hleaf. right. simpl in Hleaf.
    destruct (buildAcrossInParallelStep_leaves _ _ _ _ _ _ Hb Hleaf)
      as (b & values & Hin & Hl).
    apply list_elem_of_In, in_map_iff in Hin as (scoped & [= Hs _] & Hin).
    exists (ScopedStep scoped), (Attempts (ScopedStep scoped)), b.
    split.
    { apply in_map with (f := ScopedStep), list_elem_of_In in Hin.
      in_subplans. }
    split; [by apply handed_across|]. done. }
  destruct do_ as [inner|].
  { intros Hb Hleaf. right.
    destruct (buildDoStep_leaves _ _ _ _ _ Hb Hleaf) as (sub & s & ? & ? & ?).
    exists sub, attempts, s. split; [in_subplans|]. split; [constructor|].
    done. }
  destruct tmo as [p|].
  { unfold buildTimeoutStep.
    destruct (buildStepWith _ _ _ _) as [s|] eqn:Hs; [|done]. simpl.
    intros [= <-] Hleaf. right. exists (TimeoutStep p), attempts, s.
    split; [in_subplans|]. split; [constructor|]. done. }
  destruct try_ as [p|].
  { unfold buildTryStep.
    destruct (buildStepWith _ _ _ _) as [s|] eqn:Hs; [|done]. simpl.
    intros [= <-] Hleaf. right. exists (TryStep p), attempts, s.
    split; [in_subplans|]. split; [constructor|]. done. }
  destruct oab as [p|].
  { intros Hb Hleaf. right.
    destruct (buildHookStep_leaves _ exec.OnAbort _ _ _ _
                (fun _ _ => eq_refl) Hb Hleaf) as (sub & s & ? & ? & ?).
    exists sub, attempts, s. split; [in_subplans|]. split; [constructor|].
    done. }
  destruct oer as [p|].
  { intros Hb Hleaf. right.
    destruct (buildHookStep_leaves _ exec.OnError _ _ _ _
                (fun _ _ => eq_refl) Hb Hleaf) as (sub & s & ? & ? & ?).
    exists sub, attempts, s. split; [in_subplans|]. split; [constructor|].
    done. }
  destruct osu as [p|].
  { intros Hb Hleaf. right.
    destruct (buildHookStep_leaves _ exec.OnSuccess _ _ _ _
                (fun _ _ => eq_refl) Hb Hleaf) as (sub & s & ? & ? & ?).
    exists sub, attempts, s. split; [in_subplans|]. split; [constructor|].
    done. }
  destruct ofa as [p|].
  { intros Hb Hleaf. right.
    destruct (buildHookStep_leaves _ exec.OnFailure _ _ _ _
                (fun _ _ => eq_refl) Hb Hleaf) as (sub & s & ? & ? & ?).
    exists sub, attempts, s. split; [in_subplans|]. split; [constructor|].
    done. }
  destruct ens as [p|].
  { intros Hb Hleaf. right.
    destruct (buildHookStep_leaves _ exec.Ensure _ _ _ _
                (fun _ _ => eq_refl) Hb Hleaf) as (sub & s & ? & ? & ?).
    exists sub, attempts, s. split; [in_subplans|]. split; [constructor|].
    done. }
  destruct tsk as [l|].
  { intros [= <-] [->|[]%elem_of_nil]%elem_of_cons. left.
    split; [done|]. split; [|done]. simpl. split; [done|]. by exists l. }
  destruct spl as [l|].
  { intros [= <-] [->|[]%elem_of_nil]%elem_of_cons. by left. }
  destruct ldv as [l|].
  { intros [= <-] [->|[]%elem_of_nil]%elem_of_cons. by left. }
  destruct get as [l|].
  { intros [= <-] [->|[]%elem_of_nil]%elem_of_cons. left.
    split; [done|]. split; [|done]. simpl. split; [done|]. by exists l. }
  destruct put as [l|].
  { intros [= <-] [->|[]%elem_of_nil]%elem_of_cons. left.
    split; [done|]. split; [|done]. simpl. split; [done|]. by exists l. }
  destruct rty as [inner|].
  { intros Hb Hleaf. right.
    destruct (buildRetryStep_leaves _ _ _ _ _ Hb Hleaf)
      as (index & sub & s & ? & ? & ?).
    exists sub, (attempts ++ [Z.of_nat index + 1]), s.
    split; [in_subplans|]. split; [by apply handed_retry|]. done. }
  destruct ain as [l|].
  { intros [= <-] [->|[]%elem_of_nil]%elem_of_cons. by left. }
  destruct aou as [l|].
  { intros [= <-] [->|[]%elem_of_nil]%elem_of_cons. by left. }
  intros [= <-] []%elem_of_nil.
Qed.

Lemma throughout_sub f plan sub :
  throughout f plan -> sub ∈ subplans plan -> throughout f sub.
Proof. intros [_ H]. apply H. Qed.

Lemma throughout_here f plan : throughout f plan -> f plan = true.
Proof. by intros [H _]. Qed.

(** X20. Whatever the plan, every step the builder asks of the step
    factory is asked for with the step metadata of the build and the
    builder's external URL and for the delegate of the very plan handed
    over; a get, put or task step also with the container metadata of the
    build, named after the variant, whose [Attempt] is the dotted
    [Attempts] of that same plan; an artifact step with the build. *)
Theorem buildStep_leaves_well_made plan : forall attempts step leaf,
  buildStepWith externalURL build attempts plan = Some step ->
  leaf ∈ leaves step ->
  well_made externalURL build leaf.
Proof.
  induction plan as [plan IH] using Plan_subplans_ind.
  intros attempts step leaf H Hleaf.
  destruct (buildStepWith_leaf_origin _ _ _ _ H Hleaf)
    as [(_ & W & _)|(sub & a & s & Hsub & _ & Hs & Hl)]; [done|].
  by apply (IH sub Hsub a s).
Qed.

(** X21. In a plan with no across step in it, every plan handed to the
    step factory carries attempts that begin with the attempts the plan
    was built with; with no retry step in it either, they are those
    attempts. *)
Theorem buildStep_attempts_extend plan : forall attempts step leaf handed,
  throughout no_Across plan ->
  buildStepWith externalURL build attempts plan = Some step ->
  leaf ∈ leaves step ->
  handed_plan leaf = Some handed ->
  attempts `prefix_of` Attempts handed
  /\ (throughout no_Retry plan -> Attempts handed = attempts).
Proof.
  induction plan as [plan IH] using Plan_subplans_ind.
  intros attempts step leaf p Hfree H Hleaf Hp.
  destruct (buildStepWith_leaf_origin _ _ _ _ H Hleaf)
    as [(_ & _ & Hh)|(sub & a & s & Hsub & Ha & Hs & Hl)].
  - rewrite Hh in Hp. injection Hp as <-. by destruct plan.
  - destruct (IH sub Hsub a s leaf p (throughout_sub _ _ _ Hfree Hsub)
                Hs Hl Hp) as [Hpre Heq].
    destruct Ha as [|index [inner Hr]|[q Hq]].
    + split; [done|]. intros Hn. apply Heq. by eapply throughout_sub.
    + split; [by eapply prefix_app_l|].
      intros Hn%throughout_here. unfold no_Retry in Hn. by rewrite Hr in Hn.
    + apply throughout_here in Hfree. unfold no_Across in Hfree.
      by rewrite Hq in Hfree.
Qed.

Lemma buildDoStep_is_Some (f : list Z -> Plan -> option exec.Step) attempts
    inner :
  (forall sub, sub ∈ inner -> is_Some (f attempts sub)) ->
  is_Some (buildDoStep f attempts inner).
Proof.
  induction inner as [|p inner IH]; intros H; simpl; [by eexists|].
  fold (buildDoStep f attempts inner).
  destruct IH as [rest ->]; [intros sub Hs; apply H; by right|].
  destruct (H p) as [s ->]; [left|]. by eexists.
Qed.

Lemma Forall_is_Some_map {A B} (f : A -> option B) l :
  (forall x, x ∈ l -> is_Some (f x)) -> Forall is_Some (map f l).
Proof.
  intros H. apply Forall_forall. intros o Ho.
  apply list_elem_of_In, in_map_iff in Ho as (x & <- & Hx).
  apply H. by apply list_elem_of_In.
Qed.

Lemma Forall_is_Some_range_from {A B} (f : nat -> A -> option B) l :
  forall start,
  (forall i x, x ∈ l -> is_Some (f i x)) ->
  Forall is_Some (range_from f start l).
Proof.
  induction l as [|x l IH]; intros start H; simpl; constructor.
  - apply H. left.
  - apply IH. intros i y Hy. apply H. by right.
Qed.

Lemma buildHookStep_is_Some (f : list Z -> Plan -> option exec.Step) hook
    attempts p :
  (forall sub, sub ∈ hooked (Some p) -> is_Some (f attempts sub)) ->
  is_Some (buildHookStep f hook attempts p).
Proof.
  intros H. unfold buildHookStep.
  destruct (H (Step p)) as [a ->]; [left|].
  destruct (H (Next p)) as [b ->]; [right; left|]. by eexists.
Qed.

Lemma buildStepWith_is_Some attempts plan :
  Across plan = None ->
  (forall sub a,
     sub ∈ subplans plan ->
     is_Some (buildStepWith externalURL build a sub)) ->
  is_Some (buildStepWith externalURL build attempts plan).
Proof.
  destruct plan as [id att agg par acr do_ tmo try_ oab oer osu ofa ens
                      tsk spl ldv get put rty ain aou].
  simpl. unfold subplans. simpl. intros -> IH.
  destruct agg as [inner|].
  { unfold buildAggregateStep.
    destruct (all_built_is_Some
                (map (buildStepWith externalURL build attempts) inner))
      as [built ->]; [|by eexists].
    apply Forall_is_Some_map. intros sub Hs. apply IH. in_subplans. }
  destruct par as [p|].
  { unfold buildParallelStep.
    destruct (all_built_is_Some
                (map (buildStepWith externalURL build attempts) (Steps p)))
      as [built ->]; [|by eexists].
    apply Forall_is_Some_map. intros sub Hs. apply IH. in_subplans. }
  destruct do_ as [inner|].
  { apply buildDoStep_is_Some. intros sub Hs. apply IH. in_subplans. }
  destruct tmo as [p|].
  { unfold buildTimeoutStep.
    destruct (IH (TimeoutStep p) attempts) as [s ->]; [|by eexists].
    in_subplans. }
  destruct try_ as [p|].
  { unfold buildTryStep.
    destruct (IH (TryStep p) attempts) as [s ->]; [|by eexists].
    in_subplans. }
  destruct oab as [p|].
  { apply buildHookStep_is_Some. intros sub Hs. apply IH. in_subplans. }
  destruct oer as [p|].
  { apply buildHookStep_is_Some. intros sub Hs. apply IH. in_subplans. }
  destruct osu as [p|].
  { apply buildHookStep_is_Some. intros sub Hs. apply IH. in_subplans. }
  destruct ofa as [p|].
  { apply buildHookStep_is_Some. intros sub Hs. apply IH. in_subplans. }
  destruct ens as [p|].
  { apply buildHookStep_is_Some. intros sub Hs. apply IH. in_subplans. }
  destruct tsk; [by eexists|]. destruct spl; [by eexists|].
  destruct ldv; [by eexists|]. destruct get; [by eexists|].
  destruct put; [by eexists|].
  destruct rty as [inner|].
  { unfold buildRetryStep.
    destruct (all_built_is_Some
                (range_from
                   (fun index innerPlan =>
                      buildStepWith externalURL build
                        (attempts ++ [Z.of_nat index + 1]) innerPlan)
                   0%nat inner)) as [built ->]; [|by eexists].
    apply Forall_is_Some_range_from. intros i sub Hs. apply IH.
    in_subplans. }
  destruct ain; [by eexists|]. destruct aou; by eexists.
Qed.

(** X22. The builder panics only over across steps: a plan with no
    across step in it is built into a step, whatever the attempts and
    however many of its variants are set. *)
Theorem buildStep_without_across plan : forall attempts,
  throughout no_Across plan ->
  is_Some (buildStepWith externalURL build attempts plan).
Proof.
  induction plan as [plan IH] using Plan_subplans_ind.
  intros attempts Hfree. apply buildStepWith_is_Some.
  - apply throughout_here in Hfree. unfold no_Across in Hfree.
    by destruct (Across plan).
  - intros sub a Hsub. apply IH; [done|]. by eapply throughout_sub.
Qed.

Lemma fold_left_mul (l : list AcrossVar) : forall a,
  fold_left (fun n v' => (n * length (Values v'))%nat) l a
  = (a * combinations l)%nat.
Proof.
  unfold combinations.
  induction l as [|v l IH]; intros a; cbn [fold_left]; [lia|].
  rewrite (IH (a * _)%nat), (IH (1 * _)%nat). nia.
Qed.

Lemma combinations_cons v rest :
  combinations (v :: rest) = (length (Values v) * combinations rest)%nat.
Proof.
  unfold combinations. cbn [fold_left]. rewrite fold_left_mul.
  unfold combinations. lia.
Qed.

Lemma all_built_Forall2 {A} (g : A -> option exec.Step) l built :
  Forall2 (fun x b => g x = Some b) l built ->
  all_built (map g l) = Some built.
Proof.
  induction 1 as [|x b l built Hx _ IH]; simpl; [done|].
  fold (all_built (map g l)). by rewrite Hx, IH.
Qed.

Lemma all_built_choice {A} (F : A -> option exec.Step)
    (Q : A -> exec.Step -> Prop) l :
  (forall x, x ∈ l -> exists s, F x = Some s /\ Q x s) ->
  exists ss, all_built (map F l) = Some ss /\ Forall2 Q l ss.
Proof.
  induction l as [|x l IH]; intros H.
  - exists []. by split; [|constructor].
  - destruct (H x) as (s & Hs & Hq); [left|].
    destruct IH as (ss & Hss & Hqs); [intros y Hy; apply H; by right|].
    exists (s :: ss). split; [|by constructor]. simpl.
    fold (all_built (map F l)). by rewrite Hs, Hss.
Qed.

Lemma concat_chunks {A} (size : nat) : forall (n : nat) (l : list A),
  length l = (n * size)%nat ->
  concat (map (fun i => take size (drop (i * size) l)) (seq 0 n)) = l.
Proof.
  induction n as [|n IH]; intros l Hl.
  - simpl in *. by destruct l.
  - cbn [seq map concat]. rewrite <- seq_shift, map_map. simpl.
    transitivity (take size l ++ drop size l); [|apply take_drop].
    f_equal.
    etransitivity; [|apply (IH (drop size l)); rewrite length_drop; lia].
    f_equal. apply map_ext. intros i. by rewrite drop_drop.
Qed.

(** X23. Handed as many built sub-plans as the vars from [varIndex] on
    have combinations of values, each with a value for every var,
    [buildAcrossInParallelStep] does not panic and nests one
    [InParallel] per var, limited by that var's [MaxInFlight] and all
    with the plan's [FailFast]; at the bottom are the steps of the
    sub-plans, each once and in the order of [plan.Steps]. *)
Theorem buildAcrossInParallelStep_partition vars failFast rest :
  forall steps built,
    rest <> [] ->
    Forall2 (fun st b => st.1 = Some b /\ (length vars <= length st.2)%nat)
      steps built ->
    length steps = combinations rest ->
    exists step,
      buildAcrossInParallelStep vars failFast rest steps = Some step
      /\ levelled failFast rest step
      /\ unnest (length rest) step = built.
Proof.
  induction rest as [|v rest IH]; intros steps built Hne Hall Hlen; [done|].
  destruct rest as [|v' rest].
  - clear IH. simpl.
    rewrite (all_built_Forall2 _ steps built).
    + simpl. eexists. split; [done|]. split.
      * eexists. split; [done|]. by apply Forall_forall.
      * clear. induction built as [|b built IHb]; simpl; [done|].
        by rewrite IHb.
    + eapply Forall2_impl; [exact Hall|]. intros [o values] b [Ho Hv].
      simpl in *. apply Nat.leb_le in Hv. by rewrite Hv.
  - rewrite buildAcrossInParallelStep_cons, fold_left_mul, Nat.mul_1_l.
    rewrite combinations_cons in Hlen.
    set (size := combinations (v' :: rest)) in *.
    destruct (all_built_choice
                (fun i =>
                   sub ← slice steps (i * size) ((i + 1) * size);
                   buildAcrossInParallelStep vars failFast (v' :: rest) sub)
                (fun i s =>
                   levelled failFast (v' :: rest) s
                   /\ unnest (length (v' :: rest)) s
                      = take size (drop (i * size) built))
                (seq 0 (length (Values v)))) as (substeps & Hb & Hq).
    { intros i Hi%elem_of_seq. unfold slice.
      assert ((i + 1) * size <= length steps)%nat as Hle by nia.
      apply Nat.leb_le in Hle as Hle'. rewrite Hle'. simpl.
      replace ((i + 1) * size - i * size)%nat with size by lia.
      destruct (IH (take size (drop (i * size) steps))
                  (take size (drop (i * size) built))) as (s & Hs & Hl & Hu).
      - done.
      - by apply Forall2_take, Forall2_drop.
      - rewrite length_take_le; [done|]. rewrite length_drop. nia.
      - by exists s. }
    rewrite Hb. simpl. eexists. split; [done|]. split.
    + eexists. split; [done|]. clear -Hq.
      induction Hq as [|i s l ss [Hl _] _ IHq]; by constructor.
    + cbn [length unnest].
      etransitivity;
        [|apply (concat_chunks size (length (Values v)) built);
          apply Forall2_length in Hall; lia].
      f_equal. clear -Hq.
      induction Hq as [|i s l ss [_ Hu] _ IHq]; cbn [map]; [done|].
      f_equal; [exact Hu|exact IHq].
Qed.

End BuilderTreesFacts.

Section BuilderTreesInstances.
Import Go Builder BuilderExamples BuilderTrees BuilderTreesExamples.

Ltac throughout_plan :=
  constructor;
  [ reflexivity
  | let sub := fresh "sub" in
    let H := fresh "H" in
    intros sub H; cbv in H;
    repeat (apply elem_of_cons in H as [->|H]; [throughout_plan|]);
    by apply elem_of_nil in H ].

Lemma three_attempts_no_Across : throughout no_Across three_attempts.
Proof. throughout_plan. Defined.

Lemma buildStep_leaves_well_made_witness :
  well_made "http://ci" (a_build three_attempts) second_attempt.
Proof.
  eapply (buildStep_leaves_well_made "http://ci" (a_build three_attempts)
            three_attempts []).
  - reflexivity.
  - simpl. apply list_elem_of_further, list_elem_of_here.
Defined.

Lemma buildStep_attempts_extend_witness :
  [] `prefix_of` [2]
  /\ (throughout no_Retry three_attempts -> [2] = @nil Z).
Proof.
  eapply (buildStep_attempts_extend "http://ci" (a_build three_attempts)
            three_attempts [] _ second_attempt
            (withAttempts [2] (task "a2" "t")) three_attempts_no_Across).
  - reflexivity.
  - simpl. apply list_elem_of_further, list_elem_of_here.
  - reflexivity.
Defined.

Lemma buildStep_without_across_witness :
  is_Some (buildStepWith "http://ci" (a_build three_attempts) []
             three_attempts).
Proof.
  exact (buildStep_without_across "http://ci" (a_build three_attempts)
           three_attempts [] three_attempts_no_Across).
Defined.

Lemma buildAcrossInParallelStep_partition_witness :
  exists step,
    buildAcrossInParallelStep two_by_two false two_by_two four_built
    = Some step
    /\ levelled false two_by_two step
    /\ unnest 2 step
       = [combination "1"; combination "2"; combination "3";
          combination "4"].
Proof.
  apply (buildAcrossInParallelStep_partition two_by_two false two_by_two
           four_built).
  - discriminate.
  - repeat constructor.
  - reflexivity.
Defined.

End BuilderTreesInstances.
